(** * Legendary Collectibles: price parsing, FX, snapshot and harvester

    A shallow embedding of the pricing core of the repository:
    - [src/lib/pricing.ts]: [parseMoneyToNumber], [getFx], [convert],
      [maybeFormat];
    - the price-history route: [clampDays];
    - [scripts/snapshotPrices.js]: the transactional snapshot [main];
    - [scripts/cron/fetchYgoEbayPrices.mjs]: [getIdsPage], [fetchOne],
      [poolRun], [loadCursor], [saveCursor] and the main loop.

    JavaScript strings are sequences of UTF-16 code units; JavaScript
    numbers are IEEE 754 binary64 values, taken from the standard
    library's [SpecFloat] with [prec = 53] and [emax = 1024]. *)

From Stdlib Require Import String Ascii.
From Stdlib Require Import List ZArith NArith Bool Lia Sorted Permutation.
From Stdlib Require Import Floats.SpecFloat.
Import ListNotations.

(* ================================================================== *)
(** * The JavaScript values the code works on *)
(* ================================================================== *)

Module JS.

(** ** Strings *)

Definition jsstring := list N.

(** An ASCII literal as a JavaScript string. *)
Definition lit (s : String.string) : jsstring :=
  map Ascii.N_of_ascii (String.list_ascii_of_string s).

Arguments lit s%_string.

Definition EURO : N := 0x20AC.
Definition POUND : N := 0xA3.
Definition YEN : N := 0xA5.
Definition WON : N := 0x20A9.
Definition DOLLAR : N := 0x24.
Definition COMMA : N := 0x2C.
Definition PERIOD : N := 0x2E.

(** WhiteSpace and LineTerminator of ECMA-262: what [String.prototype.trim]
    strips and what the regular-expression class [\s] matches. *)
Definition isWhiteSpace (c : N) : bool :=
  ((9 <=? c) && (c <=? 13) || (c =? 32) || (c =? 0xA0) || (c =? 0x1680)
   || ((0x2000 <=? c) && (c <=? 0x200A)) || (c =? 0x2028) || (c =? 0x2029)
   || (c =? 0x202F) || (c =? 0x205F) || (c =? 0x3000) || (c =? 0xFEFF))%N.

Fixpoint trimStart (s : jsstring) : jsstring :=
  match s with
  | c :: r => if isWhiteSpace c then trimStart r else s
  | [] => []
  end.

Definition trimEnd (s : jsstring) : jsstring := rev (trimStart (rev s)).

Definition trim (s : jsstring) : jsstring := trimEnd (trimStart s).

(** [s.includes(c)] for a one-character needle. *)
Definition includes (c : N) (s : jsstring) : bool := existsb (N.eqb c) s.

(** [s.replace(c, d)] with a string pattern: the first occurrence only. *)
Fixpoint replaceFirst (c d : N) (s : jsstring) : jsstring :=
  match s with
  | [] => []
  | x :: r => if (x =? c)%N then d :: r else x :: replaceFirst c d r
  end.

(** [s.replace(/[...]/g, "")]: every character of the class is dropped. *)
Definition removeAll (cls : N -> bool) (s : jsstring) : jsstring :=
  filter (fun c => negb (cls c)) s.

Definition eqb (s t : jsstring) : bool :=
  if list_eq_dec N.eq_dec s t then true else false.

(** ** Numbers *)

Definition number := spec_float.

Definition prec : Z := 53.
Definition emax : Z := 1024.

Definition NaN : number := S754_nan.
Definition Infinity : number := S754_infinity false.

(** The number of an integer, rounded to nearest even. *)
Definition of_Z (z : Z) : number := binary_normalize prec emax z 0 false.
Definition of_nat (n : nat) : number := of_Z (Z.of_nat n).

(** The number nearest to [(-1)^neg * m * 10^e]: what a decimal literal
    denotes.  A negative power of ten is divided out with the division
    core of [SpecFloat], which keeps the rounding location. *)
Definition of_decimal (neg : bool) (m : N) (e : Z) : number :=
  match m with
  | N0 => S754_zero neg
  | Npos p =>
      if (0 <=? e)%Z then
        binary_round prec emax neg (p * Z.to_pos (10 ^ e)) 0
      else
        let '(q, e', l) :=
          SFdiv_core_binary prec emax (Zpos p) 0 (10 ^ (- e)) 0 in
        binary_round_aux prec emax neg q e' l
  end.

Definition isFinite (x : number) : bool :=
  match x with
  | S754_zero _ | S754_finite _ _ _ => true
  | _ => false
  end.

(** ToBoolean of a number: [NaN], [+0] and [-0] are falsy. *)
Definition truthy (x : number) : bool :=
  match x with
  | S754_nan | S754_zero _ => false
  | _ => true
  end.

Definition lt (x y : number) : bool := SFltb x y.
Definition le (x y : number) : bool := SFleb x y.
Definition mul (x y : number) : number := SFmul prec emax x y.
Definition div (x y : number) : number := SFdiv prec emax x y.

(** [Math.max] and [Math.min] of two numbers: [NaN] if either is, and
    [-0] below [+0]. *)
Definition Math_max (a b : number) : number :=
  match a, b with
  | S754_nan, _ | _, S754_nan => S754_nan
  | S754_zero sa, S754_zero sb => S754_zero (sa && sb)
  | _, _ => if SFltb a b then b else a
  end.

Definition Math_min (a b : number) : number :=
  match a, b with
  | S754_nan, _ | _, S754_nan => S754_nan
  | S754_zero sa, S754_zero sb => S754_zero (sa || sb)
  | _, _ => if SFltb b a then b else a
  end.

(** [Math.floor]: a number with a non-negative exponent is an integer
    already; otherwise the mantissa is shifted down, rounding towards
    minus infinity. *)
Definition Math_floor (x : number) : number :=
  match x with
  | S754_finite s m e =>
      if (0 <=? e)%Z then x
      else
        match Z.shiftr (cond_Zopp s (Zpos m)) (- e) with
        | Z0 => S754_zero s
        | q => binary_normalize prec emax q 0 s
        end
  | _ => x
  end.

(** ** [Number(string)]: StringToNumber of ECMA-262 *)

Fixpoint span (p : N -> bool) (s : jsstring) : jsstring * jsstring :=
  match s with
  | c :: r =>
      if p c then let '(a, b) := span p r in (c :: a, b) else ([], s)
  | [] => ([], [])
  end.

Definition isDigit (c : N) : bool := ((48 <=? c) && (c <=? 57))%N.

Definition digitValue (c : N) : option N :=
  if ((48 <=? c) && (c <=? 57))%N then Some (c - 48)%N
  else if ((97 <=? c) && (c <=? 102))%N then Some (c - 87)%N
  else if ((65 <=? c) && (c <=? 70))%N then Some (c - 55)%N
  else None.

(** The value of a digit string in a base; [None] when a character is
    not a digit of that base. *)
Fixpoint digitsValue (base acc : N) (s : jsstring) : option N :=
  match s with
  | [] => Some acc
  | c :: r =>
      match digitValue c with
      | Some d =>
          if (d <? base)%N then digitsValue base (acc * base + d)%N r
          else None
      | None => None
      end
  end.

(** NonDecimalIntegerLiteral: [0x], [0o], [0b] in either case, at least
    one digit, no sign. *)
Definition nonDecimal (s : jsstring) : option number :=
  match s with
  | 48%N :: p :: ((_ :: _) as ds) =>
      let base :=
        if ((p =? 120) || (p =? 88))%N then Some 16%N
        else if ((p =? 111) || (p =? 79))%N then Some 8%N
        else if ((p =? 98) || (p =? 66))%N then Some 2%N
        else None in
      match base with
      | Some b =>
          match digitsValue b 0 ds with
          | Some v => Some (of_Z (Z.of_N v))
          | None => Some NaN
          end
      | None => None
      end
  | _ => None
  end.

(** ExponentPart: [e] or [E], an optional sign, at least one digit, and
    nothing after it.  An absent exponent part is exponent [0]. *)
Definition exponentPart (s : jsstring) : option Z :=
  match s with
  | [] => Some 0%Z
  | c :: r =>
      if ((c =? 101) || (c =? 69))%N then
        let '(neg, ds) :=
          match r with
          | 43%N :: r' => (false, r')
          | 45%N :: r' => (true, r')
          | _ => (false, r)
          end in
        match ds with
        | [] => None
        | _ =>
            if forallb isDigit ds then
              match digitsValue 10 0 ds with
              | Some v => Some (cond_Zopp neg (Z.of_N v))
              | None => None
              end
            else None
        end
      else None
  end.

(** StrUnsignedDecimalLiteral. *)
Definition unsignedDecimal (neg : bool) (s : jsstring) : number :=
  if eqb s (lit "Infinity") then S754_infinity neg
  else
    let '(ip, r1) := span isDigit s in
    let '(fp, r2) :=
      match r1 with
      | 46%N :: r => span isDigit r
      | _ => ([], r1)
      end in
    match ip ++ fp with
    | [] => NaN
    | ds =>
        match digitsValue 10 0 ds, exponentPart r2 with
        | Some m, Some e => of_decimal neg m (e - Z.of_nat (length fp))
        | _, _ => NaN
        end
    end.

Definition Number (s : jsstring) : number :=
  match trim s with
  | [] => S754_zero false
  | t =>
      match nonDecimal t with
      | Some v => v
      | None =>
          match t with
          | 43%N :: r => unsignedDecimal false r
          | 45%N :: r => unsignedDecimal true r
          | _ => unsignedDecimal false t
          end
      end
  end.

(** ** Reading a number

    [x] is a binary64 number in canonical form, and the rational
    [n / d] ([0 < d]) is at most half a unit in the last place of [x]
    away from it. *)
Definition nearest (x : number) (n d : Z) : bool :=
  match x with
  | S754_finite s m e =>
      let p := (2 ^ Z.max e 0)%Z in
      let q := (2 ^ Z.max (- e) 0)%Z in
      valid_binary prec emax x
      && (Z.abs (2 * d * cond_Zopp s (Zpos m) * p - 2 * n * q) <=? d * p)%Z
  | _ => false
  end.

(** ** More of the language *)

(** [x >= y] *)
Definition ge (x y : number) : bool := SFleb y x.

(** [x === 0]: either zero. *)
Definition isZero (x : number) : bool :=
  match x with
  | S754_zero _ => true
  | _ => false
  end.

Definition sub (x y : number) : number := SFsub prec emax x y.

(** ToBoolean of a string that may be [null]: [null] and the empty
    string are falsy. *)
Definition truthyText (a : option jsstring) : bool :=
  match a with
  | Some (_ :: _) => true
  | _ => false
  end.

(** [a || b] on strings that may be [null]. *)
Definition orElse (a b : option jsstring) : option jsstring :=
  if truthyText a then a else b.

(** [s.split(/[...]+/)]: the pieces between the runs of characters of
    the class; a run at either end leaves an empty piece there, and the
    empty string gives one empty piece. *)
Fixpoint splitRuns (sep : N -> bool) (s cur : jsstring) (inRun : bool)
  : list jsstring :=
  match s with
  | [] => [rev cur]
  | c :: r =>
      if sep c then
        if inRun then splitRuns sep r cur true
        else rev cur :: splitRuns sep r [] true
      else splitRuns sep r (c :: cur) false
  end.

Definition split (sep : N -> bool) (s : jsstring) : list jsstring :=
  splitRuns sep s [] false.

(** [s.indexOf(c)] for a one-character needle; [None] is [-1]. *)
Fixpoint indexOf (c : N) (s : jsstring) : option nat :=
  match s with
  | [] => None
  | x :: r =>
      if (x =? c)%N then Some 0
      else match indexOf c r with Some i => Some (S i) | None => None end
  end.

(** [s.slice(from, to)] for indices within the string. *)
Definition slice (from to : nat) (s : jsstring) : jsstring :=
  skipn from (firstn to s).

(** [set.has(x)] and [array.includes(x)] on strings. *)
Definition has (x : jsstring) (l : list jsstring) : bool := existsb (eqb x) l.

End JS.

(* ================================================================== *)
(** * src/lib/pricing.ts *)
(* ================================================================== *)

Module Pricing.
Import JS.

Inductive Currency := USD | EUR.

Inductive DisplayCurrency := NATIVE | Display (c : Currency).

Definition Currency_eqb (a b : Currency) : bool :=
  match a, b with
  | USD, USD | EUR, EUR => true
  | _, _ => false
  end.

(** The character class of the first [replace]: white space, the comma,
    and the five currency signs. *)
Definition symbolClass (c : N) : bool :=
  isWhiteSpace c
  || ((c =? COMMA) || (c =? DOLLAR) || (c =? EURO) || (c =? POUND)
      || (c =? YEN) || (c =? WON))%N.

(** [parseMoneyToNumber(raw)].  [None] is [null] or [undefined]; the
    empty string is falsy as well. *)
Definition parseMoneyToNumber (raw : option jsstring) : option number :=
  match raw with
  | None | Some [] => None
  | Some raw =>
      let s := trim raw in
      match s with
      | [] => None
      | _ =>
          let s := removeAll symbolClass s in
          let s :=
            if includes COMMA s && negb (includes PERIOD s)
            then replaceFirst COMMA PERIOD s
            else s in
          let s := removeAll (N.eqb COMMA) s in
          let n := Number s in
          if isFinite n then Some n else None
      end
  end.

(** [process.env], as far as [getFx] reads it. *)
Record Env := {
  FX_USD_EUR : option jsstring;
  FX_EUR_USD : option jsstring
}.

Record Fx := {
  usdToEur : option number;
  eurToUsd : option number
}.

(** [raw != null && raw !== "" ? Number(raw) : NaN] *)
Definition parseRate (raw : option jsstring) : number :=
  match raw with
  | None | Some [] => NaN
  | Some r => Number r
  end.

Definition getFx (env : Env) : Fx :=
  let usdEurParsed := parseRate (FX_USD_EUR env) in
  let eurUsdParsed := parseRate (FX_EUR_USD env) in
  let usdEurValid := isFinite usdEurParsed && lt (of_Z 0) usdEurParsed in
  let eurUsdValid := isFinite eurUsdParsed && lt (of_Z 0) eurUsdParsed in
  let fx := {| usdToEur := None; eurToUsd := None |} in
  let fx :=
    if usdEurValid
    then {| usdToEur := Some usdEurParsed;
            eurToUsd := Some (div (of_Z 1) usdEurParsed) |}
    else fx in
  let fx :=
    if eurUsdValid
    then {| usdToEur := Some (div (of_Z 1) eurUsdParsed);
            eurToUsd := Some eurUsdParsed |}
    else fx in
  fx.

(** A rate in a condition: [null] is falsy, and so are [0] and [NaN]. *)
Definition usable (r : option number) : option number :=
  match r with
  | Some x => if truthy x then Some x else None
  | None => None
  end.

Definition convert (env : Env) (n : number) (from to : Currency)
  : option number :=
  if Currency_eqb from to then Some n
  else
    let fx := getFx env in
    match from, to, usable (usdToEur fx), usable (eurToUsd fx) with
    | USD, EUR, Some r, _ => Some (mul n r)
    | EUR, USD, _, Some r => Some (mul n r)
    | _, _, _, _ => None
    end.

(** The rate [convert] looks at for a pair of distinct currencies. *)
Definition rateFor (fx : Fx) (from to : Currency) : option number :=
  match from, to with
  | USD, EUR => usdToEur fx
  | EUR, USD => eurToUsd fx
  | _, _ => None
  end.

(** [n] when it is finite, [null] otherwise. *)
Definition finiteOrNull (n : number) : option number :=
  if isFinite n then Some n else None.

(** The numbers of the examples, as binary64 values: 1234.56, 1.23456,
    15, 0.92, 1.2, and the quotients 1/0.92 and 1/1.2. *)
Definition n1234_56 : number := S754_finite false 5429652300748554 (-42).
Definition n1_23456 : number := S754_finite false 5559963955966520 (-52).
Definition n15 : number := S754_finite false 8444249301319680 (-49).
Definition n0_92 : number := S754_finite false 8286623314361713 (-53).
Definition n1_2 : number := S754_finite false 5404319552844595 (-52).
Definition inv0_92 : number := S754_finite false 4895216986272278 (-52).
Definition inv1_2 : number := S754_finite false 7505999378950827 (-53).

Section Format.

(** [formatMoney] hands the number to [Intl.NumberFormat]; what it
    prints is left open. *)
Variable formatMoney : number -> Currency -> jsstring.

Definition maybeFormat (env : Env) (valueText : option jsstring)
  (source : Currency) (display : DisplayCurrency) : option jsstring :=
  match parseMoneyToNumber valueText with
  | None => None
  | Some n =>
      match display with
      | NATIVE => Some (formatMoney n source)
      | Display d =>
          if Currency_eqb d source then Some (formatMoney n source)
          else
            match convert env n source d with
            | None => Some (formatMoney n source)
            | Some converted => Some (formatMoney converted d)
            end
      end
  end.

End Format.

Section Timestamps.

(** [Date.parse] reads a text in ways that depend on the engine; what
    it gives is left open. *)
Variable Date_parse : jsstring -> number.

(** [a ? Date.parse(a) : NaN] *)
Definition timeOf (a : option jsstring) : number :=
  match a with
  | Some ((_ :: _) as s) => Date_parse s
  | _ => NaN
  end.

Definition pickLatestTimestamp (a b : option jsstring) : option jsstring :=
  let ta := timeOf a in
  let tb := timeOf b in
  if isFinite ta && isFinite tb then (if ge ta tb then a else b)
  else if isFinite ta then a
  else if isFinite tb then b
  else orElse a (orElse b None).

End Timestamps.

(** ** Yu-Gi-Oh! prices *)

Record YgoPriceRow := {
  tcgplayer_price : option jsstring;
  cardmarket_price : option jsstring;
  ebay_price : option jsstring;
  amazon_price : option jsstring;
  coolstuffinc_price : option jsstring
}.

Inductive Market := TCGplayer | Cardmarket | eBay | Amazon | CoolStuffInc.

Record MarketPriceRow := {
  label : jsstring;
  value : option jsstring
}.

Record MarketBlock := {
  market : Market;
  rows : list MarketPriceRow;
  updatedAt : option jsstring
}.

Record CardPriceSummary := {
  display : DisplayCurrency;
  blocks : list MarketBlock;
  latestUpdatedAt : option jsstring;
  hasAnyPrice : bool
}.

(** [b.rows.some((r) => r.value != null)] *)
Definition someValue (b : MarketBlock) : bool :=
  existsb (fun r => match value r with Some _ => true | None => false end)
    (rows b).

Section Blocks.

Variable formatMoney : number -> Currency -> jsstring.

(** [loadYgoPrices], from the row the query found ([None] when there is
    none). *)
Definition loadYgoPrices (env : Env) (row : option YgoPriceRow)
  (display : DisplayCurrency) : CardPriceSummary :=
  match row with
  | None =>
      {| display := display; blocks := []; latestUpdatedAt := None;
         hasAnyPrice := false |}
  | Some p =>
      let price v cur :=
        [ {| label := lit "Price";
             value := maybeFormat formatMoney env v cur display |} ] in
      let block m v cur :=
        {| market := m; rows := price v cur; updatedAt := None |} in
      let b1 := block TCGplayer (tcgplayer_price p) USD in
      let b2 := block Cardmarket (cardmarket_price p) EUR in
      let b3 := block eBay (ebay_price p) USD in
      let b4 := block Amazon (amazon_price p) USD in
      let b5 := block CoolStuffInc (coolstuffinc_price p) USD in
      let blocks := filter someValue [b1; b2; b3; b4; b5] in
      {| display := display; blocks := blocks; latestUpdatedAt := None;
         hasAnyPrice := negb (length blocks =? 0) |}
  end.

End Blocks.

(** ** Pokémon prices *)

Record PkmnTcgplayerRow := {
  tp_updated_at : option jsstring;
  tp_currency : option jsstring;
  tp_normal : option jsstring;
  tp_holofoil : option jsstring;
  tp_reverse_holofoil : option jsstring;
  tp_first_edition_holofoil : option jsstring;
  tp_first_edition_normal : option jsstring
}.

Record PkmnCardmarketRow := {
  cm_updated_at : option jsstring;
  cm_average_sell_price : option jsstring;
  cm_low_price : option jsstring;
  cm_trend_price : option jsstring;
  cm_german_pro_low : option jsstring;
  cm_suggested_price : option jsstring;
  cm_reverse_holo_sell : option jsstring;
  cm_reverse_holo_low : option jsstring;
  cm_reverse_holo_trend : option jsstring;
  cm_low_price_ex_plus : option jsstring;
  cm_avg1 : option jsstring;
  cm_avg7 : option jsstring;
  cm_avg30 : option jsstring;
  cm_reverse_holo_avg1 : option jsstring;
  cm_reverse_holo_avg7 : option jsstring;
  cm_reverse_holo_avg30 : option jsstring
}.

(** [row?.field]: [undefined] when there is no row. *)
Definition field {A} (row : option A) (f : A -> option jsstring)
  : option jsstring :=
  match row with
  | Some r => f r
  | None => None
  end.

Inductive PriceCategory := pokemon | yugioh | mtg | funko | sports.

Section Loaders.

Variable formatMoney : number -> Currency -> jsstring.
Variable Date_parse : jsstring -> number.

(** [String.prototype.toUpperCase] follows the Unicode case mappings;
    what it gives is left open. *)
Variable toUpperCase : jsstring -> jsstring.

Definition normalizeCurrencyCode (s : option jsstring) : Currency :=
  match s with
  | Some ((_ :: _) as s) =>
      if eqb (toUpperCase s) (lit "EUR") then EUR else USD
  | _ => USD
  end.

(** [loadPokemonPrices], from the rows the two queries found. *)
Definition loadPokemonPrices (env : Env) (tp : option PkmnTcgplayerRow)
  (cm : option PkmnCardmarketRow) (display : DisplayCurrency)
  : CardPriceSummary :=
  let tpCur := normalizeCurrencyCode (field tp tp_currency) in
  let latestUpdatedAt :=
    pickLatestTimestamp Date_parse (field tp tp_updated_at)
      (field cm cm_updated_at) in
  let row l v cur :=
    {| label := l; value := maybeFormat formatMoney env v cur display |} in
  let tpBlock :=
    {| market := TCGplayer;
       updatedAt := field tp tp_updated_at;
       rows :=
         [ row (lit "Normal") (field tp tp_normal) tpCur;
           row (lit "Holofoil") (field tp tp_holofoil) tpCur;
           row (lit "Reverse Holofoil") (field tp tp_reverse_holofoil) tpCur;
           row (lit "1st Ed. Holofoil") (field tp tp_first_edition_holofoil) tpCur;
           row (lit "1st Ed. Normal") (field tp tp_first_edition_normal) tpCur ] |} in
  let cmBlock :=
    {| market := Cardmarket;
       updatedAt := field cm cm_updated_at;
       rows :=
         [ row (lit "Average") (field cm cm_average_sell_price) EUR;
           row (lit "Low") (field cm cm_low_price) EUR;
           row (lit "Trend") (field cm cm_trend_price) EUR;
           row (lit "Suggested") (field cm cm_suggested_price) EUR;
           row (lit "RH Sell") (field cm cm_reverse_holo_sell) EUR;
           row (lit "RH Low") (field cm cm_reverse_holo_low) EUR;
           row (lit "RH Trend") (field cm cm_reverse_holo_trend) EUR;
           row (lit "Avg 1d") (field cm cm_avg1) EUR;
           row (lit "Avg 7d") (field cm cm_avg7) EUR;
           row (lit "Avg 30d") (field cm cm_avg30) EUR;
           row (lit "RH Avg 1d") (field cm cm_reverse_holo_avg1) EUR;
           row (lit "RH Avg 7d") (field cm cm_reverse_holo_avg7) EUR;
           row (lit "RH Avg 30d") (field cm cm_reverse_holo_avg30) EUR;
           row (lit "Low EX+") (field cm cm_low_price_ex_plus) EUR;
           row (lit "German Pro Low") (field cm cm_german_pro_low) EUR ] |} in
  let blocks :=
    (match tp with Some _ => [tpBlock] | None => [] end)
    ++ (match cm with Some _ => [cmBlock] | None => [] end) in
  let hasAnyPrice := existsb someValue blocks in
  {| display := display; blocks := blocks;
     latestUpdatedAt := latestUpdatedAt; hasAnyPrice := hasAnyPrice |}.

(** [loadCardPrices], from the category, the display asked for, if any,
    and the rows the queries of the category find. *)
Definition loadCardPrices (env : Env) (category : PriceCategory)
  (display : option DisplayCurrency) (tp : option PkmnTcgplayerRow)
  (cm : option PkmnCardmarketRow) (ygo : option YgoPriceRow)
  : option CardPriceSummary :=
  let display := match display with Some d => d | None => NATIVE end in
  match category with
  | funko | sports => None
  | pokemon => Some (loadPokemonPrices env tp cm display)
  | yugioh => Some (loadYgoPrices formatMoney env ygo display)
  | mtg => None
  end.

End Loaders.

(** The price texts of the rows of the two tables, [[]] without a
    row. *)
Definition tcgplayerTexts (tp : option PkmnTcgplayerRow)
  : list (option jsstring) :=
  match tp with
  | Some r =>
      [ tp_normal r; tp_holofoil r; tp_reverse_holofoil r;
        tp_first_edition_holofoil r; tp_first_edition_normal r ]
  | None => []
  end.

Definition cardmarketTexts (cm : option PkmnCardmarketRow)
  : list (option jsstring) :=
  match cm with
  | Some r =>
      [ cm_average_sell_price r; cm_low_price r; cm_trend_price r;
        cm_suggested_price r; cm_reverse_holo_sell r; cm_reverse_holo_low r;
        cm_reverse_holo_trend r; cm_avg1 r; cm_avg7 r; cm_avg30 r;
        cm_reverse_holo_avg1 r; cm_reverse_holo_avg7 r;
        cm_reverse_holo_avg30 r; cm_low_price_ex_plus r;
        cm_german_pro_low r ]
  | None => []
  end.

(** The price text of a market in a row. *)
Definition priceOf (p : YgoPriceRow) (m : Market) : option jsstring :=
  match m with
  | TCGplayer => tcgplayer_price p
  | Cardmarket => cardmarket_price p
  | eBay => ebay_price p
  | Amazon => amazon_price p
  | CoolStuffInc => coolstuffinc_price p
  end.

Definition allMarkets : list Market :=
  [TCGplayer; Cardmarket; eBay; Amazon; CoolStuffInc].

Definition parses (v : option jsstring) : bool :=
  match parseMoneyToNumber v with Some _ => true | None => false end.

End Pricing.

(* ================================================================== *)
(** * The price-history route *)
(* ================================================================== *)

Module History.
Import JS.

Definition clampDays (x : number) : number :=
  if negb (isFinite x) then of_Z 90
  else Math_min (of_Z 365) (Math_max (of_Z 1) (Math_floor x)).

(** The numbers 1, 90 and 365 as binary64 values. *)
Definition n1 : number := S754_finite false 4503599627370496 (-52).
Definition n90 : number := S754_finite false 6333186975989760 (-46).
Definition n365 : number := S754_finite false 6421147906211840 (-44).

(** ** The helpers of the route *)

(** [num(v)] for a column of the history tables, a text or [null]. *)
Definition num (v : option jsstring) : option number :=
  match v with
  | None => None
  | Some s => let n := Number s in if isFinite n then Some n else None
  end.

Section Dates.

Variable Date_parse : jsstring -> number.
Variable toISOString : number -> jsstring.

Definition toISO (raw : option jsstring) : option jsstring :=
  match raw with
  | Some ((_ :: _) as s) =>
      let t := Date_parse s in
      if isFinite t then Some (toISOString t) else None
  | _ => None
  end.

End Dates.

Definition convMaybe (env : Pricing.Env) (n : option number)
  (from : Pricing.Currency) (display : Pricing.DisplayCurrency)
  : option number :=
  match n with
  | None => None
  | Some n =>
      match display with
      | Pricing.NATIVE => Some n
      | Pricing.Display d =>
          match Pricing.convert env n from d with
          | None => Some n
          | Some out => Some out
          end
      end
  end.

(** ** Yu-Gi-Oh! series *)

Record YgoHistoryRow := {
  captured_at : option jsstring;
  tcgplayer_price : option jsstring;
  cardmarket_price : option jsstring;
  ebay_price : option jsstring;
  amazon_price : option jsstring;
  coolstuffinc_price : option jsstring
}.

Record SeriesPoint := {
  t : option jsstring;
  native : option number;
  display : option number
}.

Record Series := {
  id : jsstring;
  market : jsstring;
  key : jsstring;
  nativeCurrency : Pricing.Currency;
  points : list SeriesPoint
}.

Section Series.

Variable Date_parse : jsstring -> number.
Variable toISOString : number -> jsstring.
Variable env : Pricing.Env.

(** The rows the query returned, oldest first, and the arguments of
    [loadYgoSeries] after [cardId] and [days], which only the query
    uses; a filter that is not given is [None]. *)
Variable rows : list YgoHistoryRow.
Variable displayCurrency : Pricing.DisplayCurrency.
Variable marketsFilter : option (list jsstring).
Variable keysFilter : option (list jsstring).

(** [add(id, market, key, nativeCurrency)]; [column] reads [r[key]]. *)
Definition add (out : list Series) (id market key : jsstring)
  (column : YgoHistoryRow -> option jsstring)
  (nativeCurrency : Pricing.Currency) : list Series :=
  if match keysFilter with Some ks => negb (has key ks) | None => false end
  then out
  else
    let points :=
      map (fun r =>
             let t := toISO Date_parse toISOString (captured_at r) in
             let n := num (column r) in
             {| t := t; native := n;
                display := convMaybe env n nativeCurrency displayCurrency |})
        rows in
    out ++ [ {| id := id; market := market; key := key;
                nativeCurrency := nativeCurrency; points := points |} ].

Definition want (m : jsstring) : bool :=
  match marketsFilter with
  | None => true
  | Some ms => has m ms
  end.

Definition loadYgoSeries : list Series :=
  let out := [] in
  let out :=
    if want (lit "tcgplayer")
    then add out (lit "TCGplayer:price") (lit "TCGplayer")
           (lit "tcgplayer_price") tcgplayer_price Pricing.USD
    else out in
  let out :=
    if want (lit "cardmarket")
    then add out (lit "Cardmarket:price") (lit "Cardmarket")
           (lit "cardmarket_price") cardmarket_price Pricing.EUR
    else out in
  let out :=
    if want (lit "ebay")
    then add out (lit "eBay:price") (lit "eBay")
           (lit "ebay_price") ebay_price Pricing.USD
    else out in
  let out :=
    if want (lit "amazon")
    then add out (lit "Amazon:price") (lit "Amazon")
           (lit "amazon_price") amazon_price Pricing.USD
    else out in
  let out :=
    if want (lit "coolstuffinc")
    then add out (lit "CoolStuffInc:price") (lit "CoolStuffInc")
           (lit "coolstuffinc_price") coolstuffinc_price Pricing.USD
    else out in
  out.

End Series.

(** The five series of the table: the market as the filter names it,
    the key, and the currency of the column. *)
Definition ygoSeries : list (jsstring * jsstring * Pricing.Currency) :=
  [ (lit "tcgplayer", lit "tcgplayer_price", Pricing.USD);
    (lit "cardmarket", lit "cardmarket_price", Pricing.EUR);
    (lit "ebay", lit "ebay_price", Pricing.USD);
    (lit "amazon", lit "amazon_price", Pricing.USD);
    (lit "coolstuffinc", lit "coolstuffinc_price", Pricing.USD) ].

(** Whether the filters let a series through. *)
Definition allowed (marketsFilter keysFilter : option (list jsstring))
  (e : jsstring * jsstring * Pricing.Currency) : bool :=
  let '(m, k, _) := e in
  match marketsFilter with Some ms => has m ms | None => true end
  && match keysFilter with Some ks => has k ks | None => true end.

(** A point shows its value in the display currency exactly when it has
    a native value. *)
Definition pointKept (p : SeriesPoint) : bool :=
  match native p, display p with
  | Some n, Some _ => isFinite n
  | None, None => true
  | _, _ => false
  end.

(** What holds of every series: one point for each row of the history,
    in the order of the rows and with the time of the row; a point has
    a display value exactly when the row has a number; and with the
    native display the two are the same. *)
Definition shaped (Date_parse : jsstring -> number)
  (toISOString : number -> jsstring) (rows : list YgoHistoryRow)
  (d : Pricing.DisplayCurrency) (s : Series) : Prop :=
  map t (points s)
  = map (fun r => toISO Date_parse toISOString (captured_at r)) rows
  /\ length (points s) = length rows
  /\ forallb pointKept (points s) = true
  /\ (d = Pricing.NATIVE -> map display (points s) = map native (points s)).

End History.

(* ================================================================== *)
(** * scripts/snapshotPrices.js *)
(* ================================================================== *)

Module Snapshot.
Import JS.

(** The script has its own copy of the parser; it differs from the one
    of [pricing.ts] in its first test only ([raw == null]), and the
    empty string is caught by the test after [trim]. *)
Definition parseMoneyToNumber (raw : option jsstring) : option number :=
  match raw with
  | None => None
  | Some raw =>
      let s := trim raw in
      match s with
      | [] => None
      | _ =>
          let s := removeAll Pricing.symbolClass s in
          let s :=
            if includes COMMA s && negb (includes PERIOD s)
            then replaceFirst COMMA PERIOD s
            else s in
          let s := removeAll (N.eqb COMMA) s in
          let n := Number s in
          if isFinite n then Some n else None
      end
  end.

(** ** Rows *)

Record TcgplayerRow := {
  tp_card_id : jsstring;
  tp_updated_at : option jsstring;
  tp_normal : option jsstring;
  tp_holofoil : option jsstring;
  tp_reverse_holofoil : option jsstring;
  tp_first_edition_holofoil : option jsstring;
  tp_first_edition_normal : option jsstring;
  tp_currency : option jsstring
}.

Record CardmarketRow := {
  cm_card_id : jsstring;
  cm_updated_at : option jsstring;
  cm_average_sell_price : option jsstring;
  cm_low_price : option jsstring;
  cm_trend_price : option jsstring;
  cm_german_pro_low : option jsstring;
  cm_suggested_price : option jsstring;
  cm_reverse_holo_sell : option jsstring;
  cm_reverse_holo_low : option jsstring;
  cm_reverse_holo_trend : option jsstring;
  cm_low_price_ex_plus : option jsstring;
  cm_avg1 : option jsstring;
  cm_avg7 : option jsstring;
  cm_avg30 : option jsstring;
  cm_reverse_holo_avg1 : option jsstring;
  cm_reverse_holo_avg7 : option jsstring;
  cm_reverse_holo_avg30 : option jsstring
}.

Record YgoRow := {
  ygo_card_id : jsstring;
  ygo_tcgplayer_price : option jsstring;
  ygo_cardmarket_price : option jsstring;
  ygo_ebay_price : option jsstring;
  ygo_amazon_price : option jsstring;
  ygo_coolstuffinc_price : option jsstring
}.

(** A query parameter, and a history row as the parameters of its
    [INSERT]. *)
Inductive SqlValue :=
| SqlNull
| SqlText (s : jsstring)
| SqlNumber (n : number).

Definition HistoryRow := list SqlValue.

Definition text (v : option jsstring) : SqlValue :=
  match v with Some s => SqlText s | None => SqlNull end.

Definition numeric (v : option number) : SqlValue :=
  match v with Some n => SqlNumber n | None => SqlNull end.

Inductive HistoryTable :=
| tcg_card_prices_tcgplayer_history
| tcg_card_prices_cardmarket_history
| ygo_card_prices_history.

Record Tables := {
  tcg_card_prices_tcgplayer : list TcgplayerRow;
  tcg_card_prices_cardmarket : list CardmarketRow;
  ygo_card_prices : list YgoRow;
  tcgplayer_history : list HistoryRow;
  cardmarket_history : list HistoryRow;
  ygo_history : list HistoryRow
}.

Definition history (t : Tables) (h : HistoryTable) : list HistoryRow :=
  match h with
  | tcg_card_prices_tcgplayer_history => tcgplayer_history t
  | tcg_card_prices_cardmarket_history => cardmarket_history t
  | ygo_card_prices_history => ygo_history t
  end.

Definition append (h : HistoryTable) (r : HistoryRow) (t : Tables) : Tables :=
  match h with
  | tcg_card_prices_tcgplayer_history =>
      {| tcg_card_prices_tcgplayer := tcg_card_prices_tcgplayer t;
         tcg_card_prices_cardmarket := tcg_card_prices_cardmarket t;
         ygo_card_prices := ygo_card_prices t;
         tcgplayer_history := tcgplayer_history t ++ [r];
         cardmarket_history := cardmarket_history t;
         ygo_history := ygo_history t |}
  | tcg_card_prices_cardmarket_history =>
      {| tcg_card_prices_tcgplayer := tcg_card_prices_tcgplayer t;
         tcg_card_prices_cardmarket := tcg_card_prices_cardmarket t;
         ygo_card_prices := ygo_card_prices t;
         tcgplayer_history := tcgplayer_history t;
         cardmarket_history := cardmarket_history t ++ [r];
         ygo_history := ygo_history t |}
  | ygo_card_prices_history =>
      {| tcg_card_prices_tcgplayer := tcg_card_prices_tcgplayer t;
         tcg_card_prices_cardmarket := tcg_card_prices_cardmarket t;
         ygo_card_prices := ygo_card_prices t;
         tcgplayer_history := tcgplayer_history t;
         cardmarket_history := cardmarket_history t;
         ygo_history := ygo_history t ++ [r] |}
  end.

(** ** The database client

    [stored] is what the database holds durably; [open] is the view of
    the transaction in progress, if any.  A statement either returns or
    throws, and changes the client. *)
Record Client := {
  stored : Tables;
  open : option Tables
}.

Inductive Result (A : Type) :=
| Ok (a : A)
| Threw.

Arguments Ok {A} a.
Arguments Threw {A}.

Definition Query (A : Type) := Client -> Result A * Client.

Definition ret {A} (a : A) : Query A := fun c => (Ok a, c).

Definition bind {A B} (m : Query A) (k : A -> Query B) : Query B :=
  fun c =>
    match m c with
    | (Ok a, c') => k a c'
    | (Threw, c') => (Threw, c')
    end.

Notation "x <- m ;; k" := (bind m (fun x => k))
  (at level 61, m at next level, right associativity).

Definition view (c : Client) : Tables :=
  match open c with Some t => t | None => stored c end.

Definition BEGIN : Query unit :=
  fun c => (Ok tt, {| stored := stored c; open := Some (view c) |}).

Definition COMMIT : Query unit :=
  fun c => (Ok tt, {| stored := view c; open := None |}).

Definition ROLLBACK : Query unit :=
  fun c => (Ok tt, {| stored := stored c; open := None |}).

Definition SELECT {A} (table : Tables -> list A) : Query (list A) :=
  fun c => (Ok (table (view c)), c).

Section Run.

(** Whether the database refuses a row of a history table (a violated
    constraint, a value out of range): the [INSERT] throws. *)
Variable refuses : HistoryTable -> HistoryRow -> bool.

(** [parseTs] goes through [Date.parse]; what it makes of a text is
    left open. *)
Variable parseTs : option jsstring -> option jsstring.

Definition INSERT (h : HistoryTable) (r : HistoryRow) : Query unit :=
  fun c =>
    if refuses h r then (Threw, c)
    else
      match open c with
      | Some t => (Ok tt, {| stored := stored c; open := Some (append h r t) |})
      | None => (Ok tt, {| stored := append h r (stored c); open := None |})
      end.

(** [for (const r of rows) { await client.query(q, params); count++; }] *)
Fixpoint insertEach {A} (h : HistoryTable) (params : A -> HistoryRow)
  (rows : list A) (count : nat) : Query nat :=
  match rows with
  | [] => ret count
  | r :: rest =>
      _ <- INSERT h (params r) ;;
      insertEach h params rest (S count)
  end.

Definition tcgplayerParams (r : TcgplayerRow) : HistoryRow :=
  [ SqlText (tp_card_id r);
    text (parseTs (tp_updated_at r));
    text (tp_currency r);
    numeric (parseMoneyToNumber (tp_normal r));
    numeric (parseMoneyToNumber (tp_holofoil r));
    numeric (parseMoneyToNumber (tp_reverse_holofoil r));
    numeric (parseMoneyToNumber (tp_first_edition_holofoil r));
    numeric (parseMoneyToNumber (tp_first_edition_normal r)) ].

Definition cardmarketParams (r : CardmarketRow) : HistoryRow :=
  [ SqlText (cm_card_id r);
    text (parseTs (cm_updated_at r));
    numeric (parseMoneyToNumber (cm_average_sell_price r));
    numeric (parseMoneyToNumber (cm_low_price r));
    numeric (parseMoneyToNumber (cm_trend_price r));
    numeric (parseMoneyToNumber (cm_german_pro_low r));
    numeric (parseMoneyToNumber (cm_suggested_price r));
    numeric (parseMoneyToNumber (cm_reverse_holo_sell r));
    numeric (parseMoneyToNumber (cm_reverse_holo_low r));
    numeric (parseMoneyToNumber (cm_reverse_holo_trend r));
    numeric (parseMoneyToNumber (cm_low_price_ex_plus r));
    numeric (parseMoneyToNumber (cm_avg1 r));
    numeric (parseMoneyToNumber (cm_avg7 r));
    numeric (parseMoneyToNumber (cm_avg30 r));
    numeric (parseMoneyToNumber (cm_reverse_holo_avg1 r));
    numeric (parseMoneyToNumber (cm_reverse_holo_avg7 r));
    numeric (parseMoneyToNumber (cm_reverse_holo_avg30 r)) ].

Definition ygoParams (r : YgoRow) : HistoryRow :=
  [ SqlText (ygo_card_id r);
    numeric (parseMoneyToNumber (ygo_tcgplayer_price r));
    numeric (parseMoneyToNumber (ygo_cardmarket_price r));
    numeric (parseMoneyToNumber (ygo_ebay_price r));
    numeric (parseMoneyToNumber (ygo_amazon_price r));
    numeric (parseMoneyToNumber (ygo_coolstuffinc_price r)) ].

Definition snapshotPokemonTcgplayer : Query nat :=
  rows <- SELECT tcg_card_prices_tcgplayer ;;
  insertEach tcg_card_prices_tcgplayer_history tcgplayerParams rows 0.

Definition snapshotPokemonCardmarket : Query nat :=
  rows <- SELECT tcg_card_prices_cardmarket ;;
  insertEach tcg_card_prices_cardmarket_history cardmarketParams rows 0.

Definition snapshotYgo : Query nat :=
  rows <- SELECT ygo_card_prices ;;
  insertEach ygo_card_prices_history ygoParams rows 0.

(** The body of the [try] block. *)
Definition snapshotAll : Query (nat * nat * nat) :=
  _ <- BEGIN ;;
  a <- snapshotPokemonTcgplayer ;;
  b <- snapshotPokemonCardmarket ;;
  c <- snapshotYgo ;;
  _ <- COMMIT ;;
  ret (a, b, c).

(** What a run leaves behind: the database once the client has ended
    (an open transaction is lost with the connection), the exit code
    of the process, and the counts of the [Done] line.  The connection
    and the statements other than the [INSERT]s are taken to go
    through: only an [INSERT] throws here. *)
Record Outcome := {
  database : Tables;
  exitCode : nat;
  inserted : option (nat * nat * nat)
}.

Definition main (DATABASE_URL : option jsstring) (db : Tables) : Outcome :=
  match DATABASE_URL with
  | None | Some [] =>
      {| database := db; exitCode := 1; inserted := None |}
  | Some _ =>
      let client := {| stored := db; open := None |} in
      match snapshotAll client with
      | (Ok counts, client) =>
          {| database := stored client; exitCode := 0;
             inserted := Some counts |}
      | (Threw, client) =>
          let client := snd (ROLLBACK client) in
          {| database := stored client; exitCode := 1; inserted := None |}
      end
  end.

(** The history rows a run inserts for the rows of a current-price
    table, in the order of the table. *)
Definition appendAll (h : HistoryTable) (rs : list HistoryRow) (t : Tables)
  : Tables :=
  fold_left (fun t r => append h r t) rs t.

(** What the three loops have added once all of them went through. *)
Definition snapshotOf (db : Tables) : Tables :=
  appendAll ygo_card_prices_history
    (map ygoParams (ygo_card_prices db))
    (appendAll tcg_card_prices_cardmarket_history
       (map cardmarketParams (tcg_card_prices_cardmarket db))
       (appendAll tcg_card_prices_tcgplayer_history
          (map tcgplayerParams (tcg_card_prices_tcgplayer db)) db)).

(** Whether some row of the current-price tables is one the database
    refuses in its history table. *)
Definition someRefused (db : Tables) : bool :=
  existsb (fun r => refuses tcg_card_prices_tcgplayer_history (tcgplayerParams r))
    (tcg_card_prices_tcgplayer db)
  || existsb (fun r => refuses tcg_card_prices_cardmarket_history (cardmarketParams r))
       (tcg_card_prices_cardmarket db)
  || existsb (fun r => refuses ygo_card_prices_history (ygoParams r))
       (ygo_card_prices db).

End Run.

(** A small database: one TCGplayer row, no Cardmarket row, two
    Yu-Gi-Oh! rows; and a history table that refuses the card id
    ["dup"]. *)
Definition sampleDb : Tables :=
  {| tcg_card_prices_tcgplayer :=
       [ {| tp_card_id := lit "E1"; tp_updated_at := None;
            tp_normal := Some (lit "$3.50"); tp_holofoil := None;
            tp_reverse_holofoil := None; tp_first_edition_holofoil := None;
            tp_first_edition_normal := None;
            tp_currency := Some (lit "USD") |} ];
     tcg_card_prices_cardmarket := [];
     ygo_card_prices :=
       [ {| ygo_card_id := lit "a"; ygo_tcgplayer_price := Some (lit "1.25");
            ygo_cardmarket_price := None; ygo_ebay_price := None;
            ygo_amazon_price := None; ygo_coolstuffinc_price := None |};
         {| ygo_card_id := lit "dup"; ygo_tcgplayer_price := None;
            ygo_cardmarket_price := None; ygo_ebay_price := None;
            ygo_amazon_price := None; ygo_coolstuffinc_price := None |} ];
     tcgplayer_history := [];
     cardmarket_history := [];
     ygo_history := [] |}.

Definition refusesDup (h : HistoryTable) (r : HistoryRow) : bool :=
  match h, r with
  | ygo_card_prices_history, SqlText id :: _ => eqb id (lit "dup")
  | _, _ => false
  end.

(** A parameter that is a number is a finite one. *)
Definition finiteValue (v : SqlValue) : bool :=
  match v with
  | SqlNumber n => isFinite n
  | _ => true
  end.

End Snapshot.

(* ================================================================== *)
(** * scripts/cron/fetchYgoEbayPrices.mjs *)
(* ================================================================== *)

Module Harvester.
Import JS.

(** ** Flags

    [limit] and [batch] are the whole numbers of the usage line; the
    texts of [--concurrency] and [--startAfter] are kept as the flag map
    has them ([None] when the flag is not given). *)
Record Flags := {
  limit : nat;
  batch : nat;
  concurrency : option jsstring;
  startAfter : option jsstring;
  dryRun : bool
}.

Definition LIMIT (f : Flags) : nat := limit f.

Definition BATCH (f : Flags) : nat := Nat.max 50 (batch f).

(** [Math.min(8, Math.max(1, Number(flags.get('concurrency') ?? '4')))] *)
Definition CONCURRENCY (f : Flags) : number :=
  Math_min (of_Z 8)
    (Math_max (of_Z 1)
       (Number (match concurrency f with Some v => v | None => lit "4" end))).

(** [flags.get('startAfter') || null] *)
Definition START_AFTER (f : Flags) : option jsstring :=
  match startAfter f with
  | Some ((_ :: _) as v) => Some v
  | _ => None
  end.

Definition DRY_RUN (f : Flags) : bool := dryRun f.

(** ** What the price endpoint answers *)

(** What the main loop reads of a parsed body: whether [res?.ok] is
    truthy, [res?.item?.price?.value] when it is truthy, and whether
    [res?.item?.itemWebUrl] is. *)
Record Payload := {
  ok : bool;
  price : option jsstring;
  itemWebUrl : bool
}.

(** An HTTP response: its status, whether its content type names JSON
    ([isJson]), and its body parsed as JSON ([None] when the text is
    not JSON). *)
Record Response := {
  status : nat;
  isJson : bool;
  body : option Payload
}.

Inductive Reply :=
| NetworkError
| Answer (res : Response).

(** [res.ok]: a status from 200 to 299. *)
Definition res_ok (res : Response) : bool :=
  (200 <=? status res) && (status res <=? 299).

Inductive Error :=
| FetchFailed
| HTTP (status : nat)
| SyntaxError.

Inductive Settled :=
| Rejected (e : Error)
| Fulfilled (res : Payload).

(** ** The world around a run

    The order of the database on [card_id], the rows of
    [public.ygo_cards] ([card_id::text]), the rows the freshness clause
    keeps at the [n]-th query (all of them when the clause is not in
    the query), the answer of the endpoint for an id, and which of the
    requests in flight settles next. *)
Record World := {
  id_lt : jsstring -> jsstring -> bool;
  cards : list jsstring;
  kept : nat -> jsstring -> bool;
  reply : jsstring -> Reply;
  next : list jsstring -> nat
}.

Inductive Line :=
| ERROR (e : Error)
| found_price (p : jsstring) (urlOk : bool)
| not_found
| route_error.

Inductive Event :=
| Queried (after : option jsstring) (ids : list jsstring)
| Batch (ids : list jsstring)
| Dispatched (id : jsstring)
| SettledOne (id : jsstring)
| Logged (id : jsstring) (l : Line)
| Saved (id : jsstring).

(** What awaiting a promise comes to: it resolves, or nothing is left
    that could ever resolve it; [Unfinished] is the model running out
    of steps. *)
Inductive Await (A : Type) :=
| Resolved (a : A)
| Pending
| Unfinished.

Arguments Resolved {A} a.
Arguments Pending {A}.
Arguments Unfinished {A}.

Section Run.

Variable w : World.

(** ** [getIdsPage] *)

Fixpoint insert (x : jsstring) (l : list jsstring) : list jsstring :=
  match l with
  | [] => [x]
  | y :: r => if id_lt w y x then y :: insert x r else x :: l
  end.

(** [ORDER BY c.card_id ASC] *)
Definition orderBy (l : list jsstring) : list jsstring :=
  fold_right insert [] l.

(** [c.card_id > after], or [TRUE] when [after] is falsy. *)
Definition above (after : option jsstring) (c : jsstring) : bool :=
  match after with
  | Some ((_ :: _) as a) => id_lt w a c
  | _ => true
  end.

Definition getIdsPage (n : nat) (after : option jsstring) (limit : nat)
  : list jsstring :=
  firstn limit
    (orderBy (filter (fun c => above after c && kept w n c) (cards w))).

(** ** [fetchOne] *)

Definition fetchOne (id : jsstring) : Settled :=
  match reply w id with
  | NetworkError => Rejected FetchFailed
  | Answer res =>
      if negb (res_ok res) then Rejected (HTTP (status res))
      else if negb (isJson res) then
        match body res with
        | Some parsed => Fulfilled parsed
        | None => Fulfilled {| ok := false; price := None; itemWebUrl := false |}
        end
      else
        match body res with
        | Some parsed => Fulfilled parsed
        | None => Rejected SyntaxError
        end
  end.

(** ** [poolRun]

    [todo] is [ids] from [idx] on, [inFlight] and [results] are the
    variables of the closure, [flying] holds the ids whose fetch has not
    settled yet, and [resolved] tells whether [resolveAll] was called. *)
Record Pool := {
  todo : list jsstring;
  inFlight : nat;
  flying : list jsstring;
  results : list (jsstring * Settled);
  resolved : bool;
  events : list Event
}.

(** [while (inFlight < concurrency && idx < ids.length) ...] *)
Fixpoint launchLoop (concurrency : number) (todo : list jsstring)
  (inFlight : nat) (flying : list jsstring) (events : list Event)
  : list jsstring * nat * list jsstring * list Event :=
  match todo with
  | id :: rest =>
      if lt (of_nat inFlight) concurrency
      then launchLoop concurrency rest (S inFlight) (flying ++ [id])
             (events ++ [Dispatched id])
      else (todo, inFlight, flying, events)
  | [] => (todo, inFlight, flying, events)
  end.

Definition launch (concurrency : number) (p : Pool) : Pool :=
  match todo p, inFlight p with
  | [], O =>
      {| todo := todo p; inFlight := inFlight p; flying := flying p;
         results := results p; resolved := true; events := events p |}
  | _, _ =>
      let '(t, n, f, e) :=
        launchLoop concurrency (todo p) (inFlight p) (flying p) (events p) in
      {| todo := t; inFlight := n; flying := f;
         results := results p; resolved := resolved p; events := e |}
  end.

Fixpoint removeNth (i : nat) (l : list jsstring) : list jsstring :=
  match l, i with
  | [], _ => []
  | _ :: r, O => r
  | x :: r, S i => x :: removeNth i r
  end.

(** The [i]-th request in flight settles: its result is pushed
    ([then] or [catch]), and [finally] runs [inFlight--; launch()]. *)
Definition land (id : jsstring) (i : nat) (p : Pool) : Pool :=
  {| todo := todo p; inFlight := inFlight p - 1;
     flying := removeNth i (flying p);
     results := results p ++ [(id, fetchOne id)];
     resolved := resolved p;
     events := events p ++ [SettledOne id] |}.

Definition settle (concurrency : number) (i : nat) (p : Pool) : Pool :=
  match nth_error (flying p) i with
  | None => p
  | Some id => launch concurrency (land id i p)
  end.

Fixpoint drive (steps : nat) (concurrency : number) (p : Pool) : Await Pool :=
  if resolved p then Resolved p
  else
    match flying p with
    | [] => Pending
    | _ :: _ =>
        match steps with
        | O => Unfinished
        | S steps =>
            let i := Nat.modulo (next w (flying p)) (length (flying p)) in
            drive steps concurrency (settle concurrency i p)
        end
    end.

(** [let inFlight = 0, idx = 0; const results = [];] *)
Definition start (ids : list jsstring) : Pool :=
  {| todo := ids; inFlight := 0; flying := []; results := [];
     resolved := false; events := [] |}.

Definition poolRun (ids : list jsstring) (concurrency : number) : Await Pool :=
  drive (length ids) concurrency (launch concurrency (start ids)).

(** ** The cursor file *)

Definition NEWLINE : N := 10.

(** [file] is the text of [logs/ebay-ygo.cursor], [None] when it cannot
    be read. *)
Definition loadCursor (f : Flags) (file : option jsstring)
  : option jsstring :=
  match START_AFTER f with
  | Some v => Some v
  | None =>
      match file with
      | Some text =>
          match trim text with
          | [] => None
          | c => Some c
          end
      | None => None
      end
  end.

(** [writeFileSync(CURSOR_FILE, id + '\n')]; the write is taken to go
    through. *)
Definition saveCursor (id : jsstring) : option jsstring :=
  Some (id ++ [NEWLINE]).

(** ** The main loop *)

Record State := {
  processed : nat;
  found : nat;
  errors : nat;
  cursor : option jsstring;
  file : option jsstring;
  queries : nat;
  trace : list Event
}.

(** The line the loop over [results] prints for an outcome. *)
Definition lineOf (outcome : Settled) : Line :=
  match outcome with
  | Rejected e => ERROR e
  | Fulfilled res =>
      match ok res, price res with
      | true, Some p => found_price p (itemWebUrl res)
      | true, None => not_found
      | false, _ => route_error
      end
  end.

(** One turn of [for (const [id, err, res] of results)]. *)
Definition tally (s : State) (r : jsstring * Settled) : State :=
  let '(id, outcome) := r in
  let line := lineOf outcome in
  {| processed := processed s;
     found := match line with found_price _ _ => S (found s) | _ => found s end;
     errors :=
       match line with
       | ERROR _ | route_error => S (errors s)
       | _ => errors s
       end;
     cursor := cursor s; file := file s; queries := queries s;
     trace := trace s ++ [Logged id line] |}.

Inductive Step :=
| Break (s : State)
| Continue (s : State)
| Stuck (s : State).

Definition log (e : list Event) (s : State) : State :=
  {| processed := processed s; found := found s; errors := errors s;
     cursor := cursor s; file := file s; queries := queries s;
     trace := trace s ++ e |}.

(** What follows the [if (!DRY_RUN)] block. *)
Definition advance (f : Flags) (ids : list jsstring) (s : State) : Step :=
  let last_id := last ids [] in
  let s :=
    {| processed := processed s + length ids;
       found := found s; errors := errors s;
       cursor := Some last_id;
       file := saveCursor last_id;
       queries := queries s;
       trace := trace s ++ [Saved last_id] |} in
  if (0 <? LIMIT f) && (LIMIT f <=? processed s) then Break s else Continue s.

(** The ids a turn of the loop works on: the page, cut to what the
    limit leaves. *)
Definition batchOf (f : Flags) (s : State) : list jsstring :=
  let toFetch := getIdsPage (queries s) (cursor s) (BATCH f) in
  let remainingCap :=
    if 0 <? LIMIT f then LIMIT f - processed s else length toFetch in
  firstn remainingCap toFetch.

(** The body of [while (true)]. *)
Definition iteration (f : Flags) (s : State) : Step :=
  let toFetch := getIdsPage (queries s) (cursor s) (BATCH f) in
  let s :=
    {| processed := processed s; found := found s; errors := errors s;
       cursor := cursor s; file := file s; queries := S (queries s);
       trace := trace s ++ [Queried (cursor s) toFetch] |} in
  match toFetch with
  | [] => Break s
  | _ :: _ =>
      let remainingCap :=
        if 0 <? LIMIT f then LIMIT f - processed s else length toFetch in
      let ids := firstn remainingCap toFetch in
      match ids with
      | [] => Break s
      | _ :: _ =>
          let s := log [Batch ids] s in
          if DRY_RUN f then advance f ids s
          else
            match poolRun ids (CONCURRENCY f) with
            | Resolved p =>
                advance f ids (fold_left tally (results p) (log (events p) s))
            | _ => Stuck s
            end
      end
  end.

Inductive Run :=
| Done (s : State)
| Hung (s : State)
| OutOfSteps.

Fixpoint loop (steps : nat) (f : Flags) (s : State) : Run :=
  match steps with
  | O => OutOfSteps
  | S steps =>
      match iteration f s with
      | Break s => Done s
      | Continue s => loop steps f s
      | Stuck s => Hung s
      end
  end.

(** A run of the script, once the credentials have been found: every
    turn of the loop but the last moves the cursor past a row of the
    table, so [S (length cards)] turns are enough. *)
Definition harvest (f : Flags) (file : option jsstring) : Run :=
  loop (S (length (cards w))) f
    {| processed := 0; found := 0; errors := 0;
       cursor := loadCursor f file; file := file; queries := 0;
       trace := [] |}.

End Run.

(** ** What a trace shows *)

(** The requests in flight after a trace: those dispatched and not yet
    settled. *)
Definition inFlightAfter (tr : list Event) : nat :=
  fold_left
    (fun n e =>
       match e with
       | Dispatched _ => S n
       | SettledOne _ => n - 1
       | _ => n
       end) tr 0.

(** At no point of a trace are more than [k] requests in flight. *)
Definition within (k : nat) (tr : list Event) : Prop :=
  forall q r, tr = q ++ r -> inFlightAfter q <= k.

(** The counter of the pool counts the requests in flight. *)
Definition counted (p : Pool) : Prop :=
  inFlight p = length (flying p) /\ inFlightAfter (events p) = inFlight p.

Definition bounded (k : nat) (p : Pool) : Prop :=
  counted p /\ inFlight p <= k /\ within k (events p).

Definition isPoolEvent (e : Event) : bool :=
  match e with
  | Dispatched _ | SettledOne _ => true
  | _ => false
  end.

(** Every id of the batch is waiting, in flight or settled; every
    result is what [fetchOne] gives for its id; and the pool has
    resolved only with nothing left to do. *)
Definition accounted (w : World) (ids : list jsstring) (p : Pool) : Prop :=
  Permutation ids (map fst (results p) ++ flying p ++ todo p)
  /\ Forall (fun r => snd r = fetchOne w (fst r)) (results p)
  /\ (forall id, In id (map fst (results p)) -> In (SettledOne id) (events p))
  /\ forallb isPoolEvent (events p) = true
  /\ (resolved p = true -> todo p = [] /\ inFlight p = 0).

(** A pool that has not resolved has a request in flight. *)
Definition live (p : Pool) : Prop :=
  counted p /\ (resolved p = true \/ flying p <> []).

(** The cursor file after a trace, from what it held before. *)
Definition fileAfter (before : option jsstring) (tr : list Event)
  : option jsstring :=
  fold_left
    (fun f e => match e with Saved id => saveCursor id | _ => f end)
    tr before.

Definition isSaved (e : Event) : bool :=
  match e with Saved _ => true | _ => false end.

Definition isDispatched (e : Event) : bool :=
  match e with Dispatched _ => true | _ => false end.

(** The ids of the batches of a trace. *)
Definition covered (tr : list Event) : list jsstring :=
  flat_map (fun e => match e with Batch ids => ids | _ => [] end) tr.

(** The ids the queries of a trace returned. *)
Definition queried (tr : list Event) : list jsstring :=
  flat_map (fun e => match e with Queried _ ids => ids | _ => [] end) tr.

Definition isErrorLine (l : Line) : bool :=
  match l with
  | ERROR _ | route_error => true
  | _ => false
  end.

Definition isFoundLine (l : Line) : bool :=
  match l with
  | found_price _ _ => true
  | _ => false
  end.

(** A fetch that ends in a transport failure, a status outside
    200..299, or a body that is not JSON. *)
Definition failed (r : Reply) : bool :=
  match r with
  | NetworkError => true
  | Answer res =>
      negb (res_ok res)
      || match body res with None => true | Some _ => false end
  end.

(** The ids written to the cursor file, and the batches, of a trace. *)
Definition saves (tr : list Event) : list jsstring :=
  flat_map (fun e => match e with Saved id => [id] | _ => [] end) tr.

Definition batches (tr : list Event) : list (list jsstring) :=
  flat_map (fun e => match e with Batch ids => [ids] | _ => [] end) tr.

(** The line a result is logged with, and the counts of a batch. *)
Definition logLine (r : jsstring * Settled) : Event :=
  Logged (fst r) (lineOf (snd r)).

Definition errorsIn (w : World) (ids : list jsstring) : nat :=
  length (filter (fun id => isErrorLine (lineOf (fetchOne w id))) ids).

Definition foundIn (w : World) (ids : list jsstring) : nat :=
  length (filter (fun id => isFoundLine (lineOf (fetchOne w id))) ids).

(** The state once the page has been queried. *)
Definition asked (w : World) (f : Flags) (s : State) : State :=
  {| processed := processed s; found := found s; errors := errors s;
     cursor := cursor s; file := file s; queries := S (queries s);
     trace :=
       trace s
       ++ [Queried (cursor s)
             (getIdsPage w (queries s) (cursor s) (BATCH f))] |}.

(** The rows of the table above the cursor: what a run may still have
    to go through. *)
Definition remaining (w : World) (s : State) : nat :=
  length (filter (above w (cursor s)) (cards w)).

(** The state a turn of the loop ends in. *)
Definition stateOf (st : Step) : State :=
  match st with
  | Break s | Continue s | Stuck s => s
  end.

(** The counters of a run are in step with its batches, and every id
    of a batch has settled and been logged. *)
Definition inStep (w : World) (s : State) : Prop :=
  processed s = length (covered (trace s))
  /\ errors s = errorsIn w (covered (trace s))
  /\ found s = foundIn w (covered (trace s))
  /\ forall id, In id (covered (trace s)) ->
       In (SettledOne id) (trace s)
       /\ In (Logged id (lineOf (fetchOne w id))) (trace s).

(** A run that started from the cursor [l]: its cursor is [l] or above
    it, and so is every id its queries have returned. *)
Definition startsAfter (w : World) (l : jsstring) (s : State) : Prop :=
  (exists c, cursor s = Some c /\ c <> []
             /\ (c = l \/ id_lt w l c = true))
  /\ forall id, In id (queried (trace s)) -> id_lt w l id = true.

(** What a dry run keeps: nothing is dispatched or counted, every batch
    is followed by one write of its last id, and the cursor and the
    file hold the id written last, which no id of a batch is above. *)
Definition dryKeeps (w : World) (f : Flags) (file0 : option jsstring)
  (s : State) : Prop :=
  existsb isDispatched (trace s) = false
  /\ found s = 0 /\ errors s = 0
  /\ processed s = length (covered (trace s))
  /\ saves (trace s) = map (fun ids => last ids []) (batches (trace s))
  /\ fileAfter file0 (trace s) = file s
  /\ match rev (saves (trace s)) with
     | [] =>
         cursor s = loadCursor f file0 /\ file s = file0
         /\ covered (trace s) = []
     | c :: _ =>
         cursor s = Some c /\ file s = saveCursor c /\ In c (cards w)
         /\ forall id, In id (covered (trace s)) -> id_lt w c id = false
     end.

(** An id with no white space at either end (and so not empty): what
    [trim] leaves alone. *)
Definition plainId (id : jsstring) : bool :=
  match id, rev id with
  | c :: _, d :: _ => negb (isWhiteSpace c) && negb (isWhiteSpace d)
  | _, _ => false
  end.

(** The order of an integer key on its decimal text (a text that is
    not a decimal numeral counts as [0]). *)
Definition rank (a : jsstring) : N :=
  match digitsValue 10 0 a with
  | Some x => x
  | None => 0
  end.

Definition numericOrder (a b : jsstring) : bool := (rank a <? rank b)%N.

(** What the facts below ask of the world: the order of the database
    is a strict weak order, and the ids of the table are plain. *)
Record goodWorld (w : World) : Prop := {
  id_lt_irrefl : forall a, id_lt w a a = false;
  id_lt_trans : forall a b c,
    id_lt w a b = true -> id_lt w b c = true -> id_lt w a c = true;
  id_lt_between : forall a b c,
    id_lt w a c = true -> id_lt w a b = true \/ id_lt w b c = true;
  cards_plain : Forall (fun id => plainId id = true) (cards w)
}.

Arguments id_lt_irrefl {w}.
Arguments id_lt_trans {w}.
Arguments id_lt_between {w}.
Arguments cards_plain {w}.

(** A page in ascending order: no id is below one that comes before
    it. *)
Definition ascending (w : World) (l : list jsstring) : Prop :=
  StronglySorted (fun a b => id_lt w b a = false) l.

(** The numbers 4 and 8 as binary64 values. *)
Definition n4 : number := S754_finite false 4503599627370496 (-50).
Definition n8 : number := S754_finite false 4503599627370496 (-49).

(** ** A small world

    Eleven cards in no particular order under the numeric order; the
    endpoint cannot be reached for card 2, answers 500 for card 3,
    answers 200 with a body that is not JSON for card 7, has a price
    for card 10, and finds nothing for the others.  Of the requests in
    flight, the second settles first. *)
Definition sampleReply (id : jsstring) : Reply :=
  if eqb id (lit "2") then NetworkError
  else if eqb id (lit "3") then
    Answer {| status := 500; isJson := true; body := None |}
  else if eqb id (lit "7") then
    Answer {| status := 200; isJson := false; body := None |}
  else if eqb id (lit "10") then
    Answer {| status := 200; isJson := true;
              body := Some {| ok := true; price := Some (lit "4.5");
                              itemWebUrl := true |} |}
  else
    Answer {| status := 200; isJson := true;
              body := Some {| ok := true; price := None;
                              itemWebUrl := false |} |}.

Definition sampleWorld : World :=
  {| id_lt := numericOrder;
     cards := map lit ["3"; "1"; "2"; "10"; "7"; "20"; "21"; "22"; "23";
                       "24"; "25"]%string;
     kept := fun _ _ => true;
     reply := sampleReply;
     next := fun flying => 1 |}.

Definition twentyIds : list jsstring :=
  map lit ["1"; "2"; "3"; "4"; "5"; "6"; "7"; "8"; "9"; "10"; "11"; "12";
           "13"; "14"; "15"; "16"; "17"; "18"; "19"; "20"]%string.

Definition flagsWith (limit : nat) (concurrency startAfter : option jsstring)
  (dryRun : bool) : Flags :=
  {| limit := limit; batch := 500; concurrency := concurrency;
     startAfter := startAfter; dryRun := dryRun |}.

(** The number 2.5 as a binary64 value. *)
Definition n2_5 : number := S754_finite false 5629499534213120 (-51).

(** ** The command line *)

Definition EQUALS : N := 61.
Definition HYPHEN : N := 45.
Definition SLASH : N := 47.

(** [s.replace(/^--/, '')] *)
Definition stripDashes (s : jsstring) : jsstring :=
  match s with
  | a :: b :: r => if (a =? HYPHEN)%N && (b =? HYPHEN)%N then r else s
  | _ => s
  end.

(** What an argument becomes: a key and a value. *)
Definition entry (s : jsstring) : jsstring * jsstring :=
  match indexOf EQUALS s with
  | None => (stripDashes s, lit "true")
  | Some i => (slice 2 i s, skipn (S i) s)
  end.

(** A [Map] with strings as keys, in the order the keys came in. *)
Definition Map := list (jsstring * jsstring).

Fixpoint Map_set (k v : jsstring) (m : Map) : Map :=
  match m with
  | [] => [(k, v)]
  | (k', v') :: r =>
      if eqb k' k then (k', v) :: r else (k', v') :: Map_set k v r
  end.

Definition Map_new (entries : list (jsstring * jsstring)) : Map :=
  fold_left (fun m e => Map_set (fst e) (snd e) m) entries [].

Fixpoint Map_get (k : jsstring) (m : Map) : option jsstring :=
  match m with
  | [] => None
  | (k', v) :: r => if eqb k' k then Some v else Map_get k r
  end.

Definition Map_has (k : jsstring) (m : Map) : bool :=
  match Map_get k m with Some _ => true | None => false end.

(** [flags], from [process.argv.slice(2)]. *)
Definition flagsOf (argv : list jsstring) : Map := Map_new (map entry argv).

(** The flags the run reads as texts, from the command line; [--limit]
    and [--batch] are taken as the whole numbers [limit] and [batch]. *)
Definition flagsFrom (limit batch : nat) (argv : list jsstring) : Flags :=
  let flags := flagsOf argv in
  {| limit := limit; batch := batch;
     concurrency := Map_get (lit "concurrency") flags;
     startAfter := Map_get (lit "startAfter") flags;
     dryRun := Map_has (lit "dry-run") flags |}.

(** [s.replace(/\/+$/, '')] *)
Fixpoint dropLeading (c : N) (s : jsstring) : jsstring :=
  match s with
  | x :: r => if (x =? c)%N then dropLeading c r else s
  | [] => []
  end.

Definition stripSlashes (s : jsstring) : jsstring :=
  rev (dropLeading SLASH (rev s)).

Definition BASE_URL (base EBAY_PRICE_BASE_URL : option jsstring)
  : jsstring :=
  stripSlashes
    (match orElse base EBAY_PRICE_BASE_URL with
     | Some ((_ :: _) as u) => u
     | _ => lit "https://legendary-collectibles.com"
     end).

(** ** More of what a trace shows *)

(** The ids in the order their requests were sent, and in the order
    they settled. *)
Definition dispatched (tr : list Event) : list jsstring :=
  flat_map (fun e => match e with Dispatched id => [id] | _ => [] end) tr.

Definition settled (tr : list Event) : list jsstring :=
  flat_map (fun e => match e with SettledOne id => [id] | _ => [] end) tr.

(** The state a run starts in. *)
Definition initial (f : Flags) (file : option jsstring) : State :=
  {| processed := 0; found := 0; errors := 0;
     cursor := loadCursor f file; file := file; queries := 0;
     trace := [] |}.

(** The state a run ends in, when it ends. *)
Definition endOf (r : Run) : option State :=
  match r with
  | Done s | Hung s => Some s
  | OutOfSteps => None
  end.

(** No two rows of the table have the same id, or ids the order does
    not tell apart: [card_id] is a key. *)
Definition keyed (w : World) : Prop :=
  NoDup (cards w)
  /\ forall a b, In a (cards w) -> In b (cards w) -> a <> b ->
       id_lt w a b = true \/ id_lt w b a = true.

(** Strictly ascending: every id is below those that follow it. *)
Definition rising (w : World) (l : list jsstring) : Prop :=
  StronglySorted (fun a b => id_lt w a b = true) l.

(** The ids of a run so far are in strictly ascending order, each is a
    row of the table above the cursor the run started from, and the
    cursor is the last of them, or the one the run started from when
    there is none yet. *)
Definition orderly (w : World) (from : option jsstring) (s : State) : Prop :=
  rising w (covered (trace s))
  /\ (forall y, In y (covered (trace s)) ->
        In y (cards w) /\ above w from y = true)
  /\ cursor s = match covered (trace s) with
                | [] => from
                | _ :: _ => Some (last (covered (trace s)) [])
                end.

(** Every row above the cursor the run started from has been in a
    batch, or was left out of a query by the freshness clause, or is
    still above the cursor. *)
Definition reached (w : World) (from : option jsstring) (s : State) : Prop :=
  forall x, In x (cards w) -> above w from x = true ->
    In x (covered (trace s))
    \/ (exists n, n < queries s /\ kept w n x = false)
    \/ above w (cursor s) x = true.

(** The flags of a run with [--dry-run] set or taken away. *)
Definition withDryRun (dry : bool) (f : Flags) : Flags :=
  {| limit := limit f; batch := batch f; concurrency := concurrency f;
     startAfter := startAfter f; dryRun := dry |}.

(** Two runs are at the same point: they have processed as many ids,
    hold the same cursor and the same cursor file, and have asked for
    the same pages, made the same batches and written the same
    cursors. *)
Definition sameProgress (a b : State) : Prop :=
  processed a = processed b /\ cursor a = cursor b /\ file a = file b
  /\ queries a = queries b
  /\ queried (trace a) = queried (trace b)
  /\ batches (trace a) = batches (trace b)
  /\ saves (trace a) = saves (trace b).

Definition isNotFoundLine (l : Line) : bool :=
  match l with
  | not_found => true
  | _ => false
  end.

Definition notFoundIn (w : World) (ids : list jsstring) : nat :=
  length (filter (fun id => isNotFoundLine (lineOf (fetchOne w id))) ids).

End Harvester.

(* ================================================================== *)
(** * The prices page of a card *)
(* ================================================================== *)

Module PricesPage.
Import JS.

Definition asNum (v : option jsstring) : option number :=
  match v with
  | None | Some [] => None
  | Some s => let n := Number s in if isFinite n then Some n else None
  end.

(** [conv(n, src)], a closure over the display currency of the page. *)
Definition conv (env : Pricing.Env) (display : Pricing.DisplayCurrency)
  (n : option number) (src : Pricing.Currency) : option number :=
  match n with
  | None => None
  | Some n =>
      match display with
      | Pricing.NATIVE => Some n
      | Pricing.Display d =>
          match Pricing.convert env n src d with
          | None => Some n
          | Some out => Some out
          end
      end
  end.

End PricesPage.

(* ================================================================== *)
(** * The page that compares prices *)
(* ================================================================== *)

Module ComparePage.
Import JS.

(** The class [[\s,]]. *)
Definition separator (c : N) : bool := isWhiteSpace c || (c =? COMMA)%N.

(** [.filter(Boolean)] on strings. *)
Definition nonEmpty (s : jsstring) : bool :=
  match s with
  | [] => false
  | _ :: _ => true
  end.

(** The loop that removes duplicates and stops at a hundred ids. *)
Fixpoint dedupe (parts seen out : list jsstring) : list jsstring :=
  match parts with
  | [] => out
  | p :: rest =>
      if negb (has p seen) then
        let out := out ++ [p] in
        let seen := p :: seen in
        if 100 <=? length out then out else dedupe rest seen out
      else dedupe rest seen out
  end.

Definition parseIds (raw : option jsstring) : list jsstring :=
  match raw with
  | None | Some [] => []
  | Some raw =>
      let parts := filter nonEmpty (map trim (split separator raw)) in
      dedupe parts [] []
  end.

End ComparePage.

(* ================================================================== *)
(** * Facts about numbers *)
(* ================================================================== *)

Import JS.

Lemma SFcompare_refl (x : number) :
  SFcompare x x = Some Eq \/ SFcompare x x = None.
Proof.
  destruct x as [s|s| |s m e]; simpl; auto.
  - destruct s; auto.
  - left; destruct s; rewrite Z.compare_refl, Pos.compare_cont_refl; reflexivity.
Qed.

Lemma lt_irrefl (x : number) : lt x x = false.
Proof.
  unfold lt, SFltb. destruct (SFcompare_refl x) as [H|H]; rewrite H; reflexivity.
Qed.

Lemma compare_cont_Eq_antisym (p q : positive) :
  Pos.compare_cont Eq q p = CompOpp (Pos.compare_cont Eq p q).
Proof.
  change (Pos.compare_cont Eq q p) with (Pos.compare_cont (CompOpp Eq) q p).
  symmetry. apply Pos.compare_cont_antisym.
Qed.

Lemma SFcompare_antisym (x y : number) :
  SFcompare y x = option_map CompOpp (SFcompare x y).
Proof.
  destruct x as [sx|sx| |sx mx ex], y as [sy|sy| |sy my ey]; simpl;
    try reflexivity;
    try (destruct sx; reflexivity); try (destruct sy; reflexivity);
    try (destruct sx, sy; reflexivity).
  f_equal.
  destruct sx, sy; try reflexivity;
    rewrite (Z.compare_antisym ex ey), (compare_cont_Eq_antisym mx my);
    destruct (ex ?= ey)%Z; simpl; try reflexivity;
    destruct (Pos.compare_cont Eq mx my); reflexivity.
Qed.

Lemma lt_le (x y : number) : lt x y = true -> le x y = true.
Proof.
  unfold lt, le, SFltb, SFleb.
  destruct (SFcompare x y) as [[| |]|]; congruence.
Qed.

Lemma lt_not_le (x y : number) : lt x y = true -> le y x = false.
Proof.
  unfold lt, le, SFltb, SFleb. rewrite (SFcompare_antisym x y).
  destruct (SFcompare x y) as [[| |]|]; simpl; congruence.
Qed.

(* ================================================================== *)
(** * The money parser *)
(* ================================================================== *)

Import Pricing.

Lemma removeAll_trimStart (cls : N -> bool) (s : jsstring) :
  (forall c, isWhiteSpace c = true -> cls c = true) ->
  removeAll cls (trimStart s) = removeAll cls s.
Proof.
  intros H. induction s as [|c s IH]; simpl; [reflexivity|].
  destruct (isWhiteSpace c) eqn:W; [|reflexivity].
  rewrite IH. unfold removeAll at 2. simpl. rewrite (H c W). reflexivity.
Qed.

Lemma removeAll_rev (cls : N -> bool) (s : jsstring) :
  removeAll cls (rev s) = rev (removeAll cls s).
Proof.
  unfold removeAll. induction s as [|c s IH]; simpl; [reflexivity|].
  rewrite filter_app, IH. simpl. destruct (cls c); simpl;
    [rewrite app_nil_r|]; reflexivity.
Qed.

Lemma removeAll_trim (cls : N -> bool) (s : jsstring) :
  (forall c, isWhiteSpace c = true -> cls c = true) ->
  removeAll cls (trim s) = removeAll cls s.
Proof.
  intros H. unfold trim, trimEnd.
  rewrite removeAll_rev, (removeAll_trimStart _ _ H), removeAll_rev,
    rev_involutive.
  apply (removeAll_trimStart _ _ H).
Qed.

Lemma symbolClass_white (c : N) : isWhiteSpace c = true -> symbolClass c = true.
Proof. intros H. unfold symbolClass. rewrite H. reflexivity. Qed.

Lemma symbolClass_comma : symbolClass COMMA = true.
Proof. reflexivity. Qed.

Lemma includes_removeAll (c : N) (cls : N -> bool) (s : jsstring) :
  cls c = true -> includes c (removeAll cls s) = false.
Proof.
  intros H. unfold includes, removeAll.
  induction s as [|x s IH]; simpl; [reflexivity|].
  destruct (cls x) eqn:X; simpl; [exact IH|].
  rewrite IH, orb_false_r. apply N.eqb_neq. intros ->. congruence.
Qed.

Lemma removeAll_none (cls : N -> bool) (s : jsstring) :
  (forall c, In c s -> cls c = false) -> removeAll cls s = s.
Proof.
  intros H. unfold removeAll. induction s as [|x s IH]; simpl; [reflexivity|].
  rewrite (H x (or_introl eq_refl)). simpl. f_equal.
  apply IH. intros c Hc. apply H. right. exact Hc.
Qed.

Lemma removeAll_comma_after (s : jsstring) :
  removeAll (N.eqb COMMA) (removeAll symbolClass s) = removeAll symbolClass s.
Proof.
  apply removeAll_none. intros c Hc.
  unfold removeAll in Hc. apply filter_In in Hc. destruct Hc as [_ Hc].
  apply N.eqb_neq. intros <-. rewrite symbolClass_comma in Hc. discriminate.
Qed.

(** The test of line 23 never holds: the class of line 20 has taken the
    commas out already, so the parser comes to one [Number] call on the
    text without white space, currency signs and commas. *)
Lemma parseMoneyToNumber_unfold (raw : jsstring) :
  parseMoneyToNumber (Some raw) =
  match trim raw with
  | [] => None
  | _ => finiteOrNull (Number (removeAll symbolClass raw))
  end.
Proof.
  unfold parseMoneyToNumber.
  destruct raw as [|c r]; [reflexivity|].
  destruct (trim (c :: r)) as [|t ts] eqn:T; [reflexivity|].
  cbv zeta. rewrite <- T, (removeAll_trim _ _ symbolClass_white).
  rewrite (includes_removeAll _ _ _ symbolClass_comma).
  cbn [andb]. rewrite removeAll_comma_after. reflexivity.
Qed.

Lemma trimStart_keeps (c : N) (s : jsstring) :
  In c s -> isWhiteSpace c = false -> In c (trimStart s).
Proof.
  induction s as [|x s IH]; simpl; [tauto|].
  intros [->|H] W.
  - rewrite W. left. reflexivity.
  - destruct (isWhiteSpace x); [apply IH; assumption|right; exact H].
Qed.

Lemma trim_keeps (c : N) (s : jsstring) :
  In c s -> isWhiteSpace c = false -> In c (trim s).
Proof.
  intros H W. unfold trim, trimEnd. apply in_rev.
  rewrite rev_involutive.
  apply trimStart_keeps; [|exact W]. apply -> in_rev.
  apply trimStart_keeps; assumption.
Qed.

Lemma includes_In (c : N) (s : jsstring) : includes c s = true -> In c s.
Proof.
  unfold includes. intros H. apply existsb_exists in H.
  destruct H as [x [Hx E]]. apply N.eqb_eq in E. subst. exact Hx.
Qed.

Lemma n1234_56_nearest : nearest n1234_56 123456 100 = true.
Proof. reflexivity. Qed.

Lemma n1_23456_nearest : nearest n1_23456 123456 100000 = true.
Proof. reflexivity. Qed.

(** C8: [parseMoneyToNumber] returns a finite number or [null], never
    [NaN] or an infinity, whatever it is given ([null], the empty
    string, white space, any text); ["$1,234.56"] gives the number
    1234.56, and [""] and ["abc"] give [null]. *)
Theorem parseMoneyToNumber_finite_or_null :
  (forall raw : option jsstring,
     match parseMoneyToNumber raw with
     | Some n => isFinite n = true /\ n <> NaN /\ n <> S754_infinity false
                 /\ n <> S754_infinity true
     | None => True
     end)
  /\ parseMoneyToNumber (Some (lit "$1,234.56")) = Some n1234_56
  /\ nearest n1234_56 123456 100 = true
  /\ parseMoneyToNumber (Some (lit "")) = None
  /\ parseMoneyToNumber (Some (lit "abc")) = None
  /\ parseMoneyToNumber None = None
  /\ parseMoneyToNumber (Some (lit "   ")) = None
  /\ parseMoneyToNumber (Some (lit "Infinity")) = None.
Proof.
  split; [|repeat split; reflexivity].
  intros [raw|]; [|exact I].
  rewrite parseMoneyToNumber_unfold.
  destruct (trim raw); [exact I|].
  unfold finiteOrNull.
  destruct (isFinite (Number _)) eqn:F; [|exact I].
  repeat split; [exact F| | |]; intros E; rewrite E in F; discriminate.
Qed.

(** What the parser makes of the spec's European example, and of a
    text with a comma and no period. *)
Lemma parseMoneyToNumber_european :
  parseMoneyToNumber (Some (lit "1.234,56 " ++ [EURO])) = Some n1_23456.
Proof. reflexivity. Qed.

Lemma parseMoneyToNumber_decimal_comma :
  parseMoneyToNumber (Some (lit "1,5")) = Some n15
  /\ nearest n15 15 1 = true.
Proof. split; reflexivity. Qed.

(** C1, as the claim has it, fails: ["1.234,56 €"] does not give
    1234.56 but 1.23456. *)
Lemma parseMoneyToNumber_european_not_1234_56 :
  parseMoneyToNumber (Some (lit "1.234,56 " ++ [EURO])) <> Some n1234_56.
Proof. rewrite parseMoneyToNumber_european. discriminate. Qed.

(** C1, amended: in a text that has a period, the period is the decimal
    separator and every comma is dropped with the white space and the
    currency signs before the text goes to [Number]; ["1.234,56 €"]
    gives 1.23456. *)
Theorem parseMoneyToNumber_period_is_decimal :
  (forall raw : jsstring,
     includes PERIOD raw = true ->
     parseMoneyToNumber (Some raw)
     = finiteOrNull (Number (removeAll symbolClass raw))
     /\ includes COMMA (removeAll symbolClass raw) = false)
  /\ parseMoneyToNumber (Some (lit "1.234,56 " ++ [EURO])) = Some n1_23456
  /\ nearest n1_23456 123456 100000 = true.
Proof.
  split; [|split; reflexivity].
  intros raw H. split; [|apply includes_removeAll; reflexivity].
  rewrite parseMoneyToNumber_unfold.
  pose proof (trim_keeps PERIOD raw (includes_In _ _ H) eq_refl) as K.
  destruct (trim raw); [destruct K|reflexivity].
Qed.

Lemma parseMoneyToNumber_period_is_decimal_witness :
  parseMoneyToNumber (Some (lit "1.234,56 " ++ [EURO]))
  = finiteOrNull (Number (removeAll symbolClass (lit "1.234,56 " ++ [EURO])))
  /\ includes COMMA (removeAll symbolClass (lit "1.234,56 " ++ [EURO])) = false.
Proof.
  apply (proj1 parseMoneyToNumber_period_is_decimal). reflexivity.
Defined.

(* ================================================================== *)
(** * FX rates *)
(* ================================================================== *)

(** With one text valid (it parses to a finite number above zero) and
    the other not, the valid one gives its direction and its quotient
    gives the other. *)
Lemma getFx_only_usd_eur (env : Env) :
  let p := parseRate (FX_USD_EUR env) in
  let q := parseRate (FX_EUR_USD env) in
  isFinite p && lt (of_Z 0) p = true ->
  isFinite q && lt (of_Z 0) q = false ->
  getFx env = {| usdToEur := Some p; eurToUsd := Some (div (of_Z 1) p) |}.
Proof. intros p q Hp Hq. unfold getFx. fold p q. rewrite Hp, Hq. reflexivity. Qed.

Lemma getFx_only_eur_usd (env : Env) :
  let p := parseRate (FX_USD_EUR env) in
  let q := parseRate (FX_EUR_USD env) in
  isFinite p && lt (of_Z 0) p = false ->
  isFinite q && lt (of_Z 0) q = true ->
  getFx env = {| usdToEur := Some (div (of_Z 1) q); eurToUsd := Some q |}.
Proof. intros p q Hp Hq. unfold getFx. fold p q. rewrite Hp, Hq. reflexivity. Qed.

(** With both texts valid the second block overwrites what the first
    one set: [usdToEur] is the quotient [1 / FX_EUR_USD], whatever
    [FX_USD_EUR] says. *)
Lemma getFx_both (env : Env) :
  let p := parseRate (FX_USD_EUR env) in
  let q := parseRate (FX_EUR_USD env) in
  isFinite p && lt (of_Z 0) p = true ->
  isFinite q && lt (of_Z 0) q = true ->
  getFx env = {| usdToEur := Some (div (of_Z 1) q); eurToUsd := Some q |}.
Proof. intros p q Hp Hq. unfold getFx. fold p q. rewrite Hp, Hq. reflexivity. Qed.

Lemma getFx_usd_eur_0_92 :
  getFx {| FX_USD_EUR := Some (lit "0.92"); FX_EUR_USD := None |}
  = {| usdToEur := Some n0_92; eurToUsd := Some inv0_92 |}
  /\ inv0_92 = div (of_Z 1) n0_92
  /\ nearest n0_92 92 100 = true.
Proof. repeat split; reflexivity. Qed.

(** C2 at [FX_USD_EUR=0.92], [FX_EUR_USD=1.2]: [eurToUsd] is the
    configured 1.2, but [usdToEur] is not the configured 0.92: it is
    the quotient 1/1.2. *)
Theorem getFx_both_configured_overwrites :
  let fx := getFx {| FX_USD_EUR := Some (lit "0.92");
                     FX_EUR_USD := Some (lit "1.2") |} in
  Number (lit "0.92") = n0_92 /\ nearest n0_92 92 100 = true
  /\ Number (lit "1.2") = n1_2 /\ nearest n1_2 12 10 = true
  /\ eurToUsd fx = Some n1_2
  /\ usdToEur fx = Some inv1_2
  /\ inv1_2 = div (of_Z 1) n1_2
  /\ usdToEur fx <> Some n0_92.
Proof. repeat split; try reflexivity. discriminate. Qed.

(* ================================================================== *)
(** * Conversion and formatting *)
(* ================================================================== *)

Lemma Currency_eqb_eq (a b : Currency) : Currency_eqb a b = true <-> a = b.
Proof. destruct a, b; simpl; split; congruence. Qed.

Lemma Currency_eqb_neq (a b : Currency) : Currency_eqb a b = false <-> a <> b.
Proof. destruct a, b; simpl; split; congruence. Qed.

(** [convert] gives [null] exactly when the currencies differ and the
    rate of that direction is not usable. *)
Lemma convert_null (env : Env) (n : number) (from to : Currency) :
  convert env n from to = None
  <-> from <> to /\ usable (rateFor (getFx env) from to) = None.
Proof.
  unfold convert, rateFor.
  destruct from, to; simpl;
    destruct (usable (usdToEur (getFx env)));
    destruct (usable (eurToUsd (getFx env)));
    split; try congruence; try (intros [H _]; congruence);
    try (intros [_ H]; congruence); try (intros _; split; congruence).
Qed.

Lemma convert_some (env : Env) (n v : number) (from to : Currency) :
  from <> to ->
  convert env n from to = Some v ->
  exists r, usable (rateFor (getFx env) from to) = Some r /\ v = mul n r.
Proof.
  unfold convert, rateFor.
  destruct from, to; simpl; try congruence; intros _;
    destruct (usable (usdToEur (getFx env)));
    destruct (usable (eurToUsd (getFx env)));
    intros H; inversion H; eexists; split; reflexivity.
Qed.

Section Formatting.

Variable formatMoney : number -> Currency -> jsstring.

(** C7: [maybeFormat] gives [null] exactly when the text does not parse;
    a parsed amount is always formatted: in the source currency when the
    display is [NATIVE] or the source, in the display currency when the
    conversion gives a number, and in the source currency again when
    the conversion has no usable rate. *)
Theorem maybeFormat_never_hides (env : Env) (valueText : option jsstring)
  (source : Currency) (display : DisplayCurrency) :
  (maybeFormat formatMoney env valueText source display = None
   <-> parseMoneyToNumber valueText = None)
  /\ (forall n, parseMoneyToNumber valueText = Some n ->
        (display = NATIVE \/ display = Display source ->
         maybeFormat formatMoney env valueText source display
         = Some (formatMoney n source))
        /\ (forall d converted,
              display = Display d -> d <> source ->
              convert env n source d = Some converted ->
              maybeFormat formatMoney env valueText source display
              = Some (formatMoney converted d))
        /\ (forall d,
              display = Display d -> d <> source ->
              usable (rateFor (getFx env) source d) = None ->
              convert env n source d = None
              /\ maybeFormat formatMoney env valueText source display
                 = Some (formatMoney n source))).
Proof.
  unfold maybeFormat. split.
  - destruct (parseMoneyToNumber valueText) as [n|]; [|tauto].
    split; [|discriminate].
    destruct display as [|d]; [discriminate|].
    destruct (Currency_eqb d source); [discriminate|].
    destruct (convert env n source d); discriminate.
  - intros n ->. repeat split.
    + intros [->| ->]; [reflexivity|].
      rewrite (proj2 (Currency_eqb_eq source source) eq_refl). reflexivity.
    + intros d converted -> Hd Hc.
      rewrite (proj2 (Currency_eqb_neq d source) Hd), Hc. reflexivity.
    + apply convert_null. split; [congruence|assumption].
    + subst display.
      rewrite (proj2 (Currency_eqb_neq d source) H0).
      rewrite (proj2 (convert_null env n source d)); [reflexivity|].
      split; [congruence|assumption].
Qed.

End Formatting.

Lemma maybeFormat_never_hides_witness :
  maybeFormat (fun _ c => match c with USD => lit "USD" | EUR => lit "EUR" end)
    {| FX_USD_EUR := None; FX_EUR_USD := None |}
    (Some (lit "$3.50")) USD (Display EUR)
  = Some (lit "USD").
Proof.
  pose proof (maybeFormat_never_hides
    (fun _ c => match c with USD => lit "USD" | EUR => lit "EUR" end)
    {| FX_USD_EUR := None; FX_EUR_USD := None |}
    (Some (lit "$3.50")) USD (Display EUR)) as [_ H].
  destruct (H (S754_finite false 7881299347898368 (-51)) eq_refl) as [_ [_ H3]].
  apply (H3 EUR eq_refl); [discriminate|reflexivity].
Defined.

(* ================================================================== *)
(** * The lookback window *)
(* ================================================================== *)

Import History.

Lemma Math_max_1 (y : number) :
  y <> NaN -> Math_max n1 y = n1 \/ (Math_max n1 y = y /\ lt n1 y = true).
Proof.
  intros H. unfold Math_max, n1, lt.
  destruct y as [s|s| |s m e]; try congruence;
    match goal with |- context [SFltb ?a ?b] => destruct (SFltb a b) eqn:L end;
    auto.
Qed.

Lemma Math_min_bound (b y : number) :
  isFinite b = true -> b <> S754_zero false -> b <> S754_zero true ->
  y <> NaN ->
  Math_min b y = b \/ (Math_min b y = y /\ lt y b = true).
Proof.
  intros Hf H0 H1 H. unfold Math_min, lt.
  destruct b as [sb|sb| |sb mb eb]; try discriminate;
    [destruct sb; congruence|].
  destruct y as [s|s| |s m e]; try congruence;
    match goal with |- context [SFltb ?a ?b] => destruct (SFltb a b) eqn:L end;
    auto.
Qed.

(** Rounding a non-negative mantissa never gives [NaN]. *)
Lemma shr_1_nonneg (mrs : shr_record) :
  (0 <= shr_m mrs)%Z -> (0 <= shr_m (shr_1 mrs))%Z.
Proof.
  destruct mrs as [m r s]. simpl.
  destruct m as [|[p|p|]|p]; simpl; lia.
Qed.

Lemma iter_pos_shr_1_nonneg (p : positive) (mrs : shr_record) :
  (0 <= shr_m mrs)%Z -> (0 <= shr_m (iter_pos shr_1 p mrs))%Z.
Proof.
  revert mrs. induction p as [p IH|p IH|]; intros mrs H; simpl.
  - apply IH, IH, shr_1_nonneg, H.
  - apply IH, IH, H.
  - apply shr_1_nonneg, H.
Qed.

Lemma shr_fexp_nonneg (m e : Z) (l : location) :
  (0 <= m)%Z -> (0 <= shr_m (fst (shr_fexp prec emax m e l)))%Z.
Proof.
  intros H. unfold shr_fexp, shr.
  assert (K : (0 <= shr_m (shr_record_of_loc m l))%Z)
    by (destruct l as [|[| |]]; exact H).
  destruct (fexp prec emax (Zdigits2 m + e) - e)%Z; simpl;
    [exact K|apply iter_pos_shr_1_nonneg, K|exact K].
Qed.

Lemma round_nearest_even_nonneg (m : Z) (l : location) :
  (0 <= m)%Z -> (0 <= round_nearest_even m l)%Z.
Proof.
  intros H. destruct l as [|[| |]]; simpl; try lia.
  destruct (Z.even m); lia.
Qed.

Lemma binary_round_aux_not_NaN (s : bool) (m e : Z) (l : location) :
  (0 <= m)%Z -> binary_round_aux prec emax s m e l <> NaN.
Proof.
  intros H. unfold binary_round_aux.
  pose proof (shr_fexp_nonneg m e l H) as H1.
  destruct (shr_fexp prec emax m e l) as [mrs' e']. simpl in H1.
  pose proof (shr_fexp_nonneg _ e' loc_Exact
                (round_nearest_even_nonneg _ (loc_of_shr_record mrs') H1)) as H2.
  destruct (shr_fexp prec emax _ e' loc_Exact) as [mrs'' e'']. simpl in H2.
  destruct (shr_m mrs'') as [|q|q]; [discriminate| |lia].
  destruct (e'' <=? emax - prec)%Z; discriminate.
Qed.

Lemma binary_normalize_not_NaN (m e : Z) (s : bool) :
  binary_normalize prec emax m e s <> NaN.
Proof.
  unfold binary_normalize, binary_round.
  destruct m as [|p|p]; [discriminate| |];
    destruct (shl_align _ _ _) as [mz ez]; apply binary_round_aux_not_NaN; lia.
Qed.

Lemma Math_floor_not_NaN (x : number) : isFinite x = true -> Math_floor x <> NaN.
Proof.
  destruct x as [s|s| |s m e]; try discriminate; intros _; unfold Math_floor.
  destruct (0 <=? e)%Z; [discriminate|].
  destruct (Z.shiftr (cond_Zopp s (Z.pos m)) (- e)) as [|q|q]; [discriminate| |];
    apply binary_normalize_not_NaN.
Qed.

(** C9: [clampDays(x)] lies between 1 and 365 for every number [x];
    [clampDays(-5)] is 1 and [clampDays(9999)] is 365; and a number
    that is not finite ([NaN] and the infinities) gives 90. *)
Theorem clampDays_range :
  (forall x : number,
     le n1 (clampDays x) = true /\ le (clampDays x) n365 = true)
  /\ clampDays (Number (lit "-5")) = n1
  /\ clampDays (Number (lit "9999")) = n365
  /\ (forall x : number, isFinite x = false -> clampDays x = n90)
  /\ clampDays NaN = n90
  /\ nearest n1 1 1 = true /\ nearest n90 90 1 = true
  /\ nearest n365 365 1 = true.
Proof.
  split; [|repeat split; try reflexivity;
            intros x H; unfold clampDays; rewrite H; reflexivity].
  intros x. unfold clampDays.
  destruct (isFinite x) eqn:F; cbn [negb]; [|split; reflexivity].
  change (of_Z 1) with n1. change (of_Z 365) with n365.
  pose proof (Math_floor_not_NaN x F) as N.
  destruct (Math_max_1 (Math_floor x) N) as [E|[E L]]; rewrite E.
  - split; reflexivity.
  - assert (Z0 : n365 <> S754_zero false) by discriminate.
    assert (Z1 : n365 <> S754_zero true) by discriminate.
    destruct (Math_min_bound n365 (Math_floor x) eq_refl Z0 Z1 N)
      as [E2|[E2 L2]]; rewrite E2.
    + split; reflexivity.
    + split; apply lt_le; assumption.
Qed.

Lemma clampDays_range_witness : clampDays (S754_infinity false) = n90.
Proof.
  apply (proj1 (proj2 (proj2 (proj2 clampDays_range)))). reflexivity.
Defined.

(* ================================================================== *)
(** * The snapshot transaction *)
(* ================================================================== *)

Module SnapshotFacts.
Import Snapshot.

Section Run.

Variable refuses : HistoryTable -> HistoryRow -> bool.
Variable parseTs : option jsstring -> option jsstring.

(** Inside a transaction, a loop of inserts either throws at the first
    refused row or counts every row; what is stored does not change
    either way. *)
Lemma insertEach_open {A} (h : HistoryTable) (params : A -> HistoryRow)
  (rows : list A) (count : nat) (s t : Tables) :
  let run := insertEach refuses h params rows count
               {| stored := s; open := Some t |} in
  if existsb (fun r => refuses h (params r)) rows
  then exists t', run = (Threw, {| stored := s; open := Some t' |})
  else run = (Ok (count + length rows),
              {| stored := s; open := Some (appendAll h (map params rows) t) |}).
Proof.
  revert count t. induction rows as [|r rows IH]; intros count t; simpl.
  - unfold ret. rewrite Nat.add_0_r. reflexivity.
  - unfold bind, INSERT. cbn [open stored].
    destruct (refuses h (params r)) eqn:R; cbn [orb]; [eexists; reflexivity|].
    specialize (IH (S count) (append h (params r) t)). cbv zeta in IH.
    destruct (existsb _ rows); [exact IH|].
    rewrite IH, Nat.add_succ_r. reflexivity.
Qed.

Lemma appendAll_history (h h' : HistoryTable) (rs : list HistoryRow)
  (t : Tables) :
  history (appendAll h rs t) h'
  = if match h, h' with
       | tcg_card_prices_tcgplayer_history, tcg_card_prices_tcgplayer_history
       | tcg_card_prices_cardmarket_history, tcg_card_prices_cardmarket_history
       | ygo_card_prices_history, ygo_card_prices_history => true
       | _, _ => false
       end
    then history t h' ++ rs else history t h'.
Proof.
  revert t. unfold appendAll.
  induction rs as [|r rs IH]; intros t; simpl.
  - destruct h, h'; simpl; rewrite ?app_nil_r; reflexivity.
  - rewrite IH. destruct h, h'; simpl; rewrite <- ?app_assoc; reflexivity.
Qed.

Lemma appendAll_current (h : HistoryTable) (rs : list HistoryRow) (t : Tables) :
  tcg_card_prices_tcgplayer (appendAll h rs t) = tcg_card_prices_tcgplayer t
  /\ tcg_card_prices_cardmarket (appendAll h rs t) = tcg_card_prices_cardmarket t
  /\ ygo_card_prices (appendAll h rs t) = ygo_card_prices t.
Proof.
  revert t. unfold appendAll.
  induction rs as [|r rs IH]; intros t; simpl; [auto|].
  destruct (IH (append h r t)) as [H1 [H2 H3]].
  rewrite H1, H2, H3. destruct h; simpl; auto.
Qed.

Ltac run_snapshot :=
  cbv beta iota zeta
    delta [snapshotAll bind BEGIN COMMIT SELECT ret snapshotPokemonTcgplayer
           snapshotPokemonCardmarket snapshotYgo view open stored].

Lemma snapshotAll_run (db : Tables) :
  let run := snapshotAll refuses parseTs {| stored := db; open := None |} in
  if someRefused refuses parseTs db
  then exists t', run = (Threw, {| stored := db; open := Some t' |})
  else run = (Ok (length (tcg_card_prices_tcgplayer db),
                  length (tcg_card_prices_cardmarket db),
                  length (ygo_card_prices db)),
              {| stored := snapshotOf parseTs db; open := None |}).
Proof.
  intros run. subst run. unfold someRefused, snapshotOf.
  set (t1 := appendAll tcg_card_prices_tcgplayer_history _ db).
  set (t2 := appendAll tcg_card_prices_cardmarket_history _ t1).
  destruct (appendAll_current tcg_card_prices_tcgplayer_history
              (map (tcgplayerParams parseTs) (tcg_card_prices_tcgplayer db)) db)
    as [_ [C1 C1']]. fold t1 in C1, C1'.
  destruct (appendAll_current tcg_card_prices_cardmarket_history
              (map (cardmarketParams parseTs) (tcg_card_prices_cardmarket db)) t1)
    as [_ [_ C2]]. fold t2 in C2.
  pose proof (insertEach_open tcg_card_prices_tcgplayer_history
                (tcgplayerParams parseTs) (tcg_card_prices_tcgplayer db) 0 db db)
    as H1.
  pose proof (insertEach_open tcg_card_prices_cardmarket_history
                (cardmarketParams parseTs) (tcg_card_prices_cardmarket db) 0 db t1)
    as H2.
  pose proof (insertEach_open ygo_card_prices_history
                ygoParams (ygo_card_prices db) 0 db t2)
    as H3.
  cbv zeta in H1, H2, H3. fold t1 in H1. fold t2 in H2.
  destruct (existsb _ (tcg_card_prices_tcgplayer db)); cbn [orb].
  { destruct H1 as [t' H1]. exists t'. run_snapshot. rewrite H1. reflexivity. }
  destruct (existsb _ (tcg_card_prices_cardmarket db)); cbn [orb].
  { destruct H2 as [t' H2]. exists t'. run_snapshot. rewrite H1.
    cbv beta iota. rewrite C1, H2. reflexivity. }
  destruct (existsb _ (ygo_card_prices db)).
  { destruct H3 as [t' H3]. exists t'. run_snapshot. rewrite H1.
    cbv beta iota. rewrite C1, H2. cbv beta iota. rewrite C2, C1', H3.
    reflexivity. }
  run_snapshot. rewrite H1.
  cbv beta iota. rewrite C1, H2. cbv beta iota. rewrite C2, C1', H3.
  reflexivity.
Qed.

(** C3: the inserts of a run take place in one transaction.  If the
    database refuses a single row, the run leaves every table as it
    found it and the process exits with code 1; if no row is refused,
    the process exits with code 0, reports the number of rows of each
    current-price table, and each history table has gained one row for
    each of them. *)
Theorem snapshot_all_or_nothing (url : jsstring) (db : Tables) :
  url <> [] ->
  let out := main refuses parseTs (Some url) db in
  (someRefused refuses parseTs db = true ->
   database out = db /\ exitCode out = 1 /\ inserted out = None)
  /\ (someRefused refuses parseTs db = false ->
      exitCode out = 0
      /\ inserted out = Some (length (tcg_card_prices_tcgplayer db),
                              length (tcg_card_prices_cardmarket db),
                              length (ygo_card_prices db))
      /\ tcgplayer_history (database out)
         = tcgplayer_history db
           ++ map (tcgplayerParams parseTs) (tcg_card_prices_tcgplayer db)
      /\ cardmarket_history (database out)
         = cardmarket_history db
           ++ map (cardmarketParams parseTs) (tcg_card_prices_cardmarket db)
      /\ ygo_history (database out)
         = ygo_history db ++ map ygoParams (ygo_card_prices db)
      /\ tcg_card_prices_tcgplayer (database out) = tcg_card_prices_tcgplayer db
      /\ tcg_card_prices_cardmarket (database out) = tcg_card_prices_cardmarket db
      /\ ygo_card_prices (database out) = ygo_card_prices db).
Proof.
  intros Hurl out. subst out. unfold main.
  destruct url as [|u url]; [congruence|].
  pose proof (snapshotAll_run db) as H. cbv zeta in H.
  split; intros R; rewrite R in H.
  - destruct H as [t' ->]. simpl. auto.
  - rewrite H. cbn [database exitCode inserted stored].
    split; [reflexivity|]. split; [reflexivity|].
    unfold snapshotOf.
    set (t1 := appendAll tcg_card_prices_tcgplayer_history _ db).
    set (t2 := appendAll tcg_card_prices_cardmarket_history _ t1).
    set (t3 := appendAll ygo_card_prices_history _ t2).
    pose proof (appendAll_history ygo_card_prices_history) as A3.
    pose proof (appendAll_history tcg_card_prices_cardmarket_history) as A2.
    pose proof (appendAll_history tcg_card_prices_tcgplayer_history) as A1.
    repeat split.
    + change (tcgplayer_history t3)
        with (history t3 tcg_card_prices_tcgplayer_history).
      unfold t3. rewrite A3. unfold t2. rewrite A2. unfold t1. rewrite A1.
      reflexivity.
    + change (cardmarket_history t3)
        with (history t3 tcg_card_prices_cardmarket_history).
      unfold t3. rewrite A3. unfold t2. rewrite A2. fold t1.
      unfold t1 at 1. rewrite A1. reflexivity.
    + change (ygo_history t3) with (history t3 ygo_card_prices_history).
      unfold t3. rewrite A3. fold t2. unfold t2 at 1. rewrite A2. fold t1.
      unfold t1 at 1. rewrite A1. reflexivity.
    + unfold t3, t2, t1.
      repeat rewrite (proj1 (appendAll_current _ _ _)). reflexivity.
    + unfold t3, t2, t1.
      repeat rewrite (proj1 (proj2 (appendAll_current _ _ _))). reflexivity.
    + unfold t3, t2, t1.
      repeat rewrite (proj2 (proj2 (appendAll_current _ _ _))). reflexivity.
Qed.

End Run.

Lemma snapshot_all_or_nothing_witness :
  (database (main refusesDup (fun t => t) (Some (lit "postgres://db")) sampleDb)
   = sampleDb
   /\ exitCode (main refusesDup (fun t => t) (Some (lit "postgres://db")) sampleDb)
      = 1
   /\ inserted (main refusesDup (fun t => t) (Some (lit "postgres://db")) sampleDb)
      = None)
  /\ exitCode (main (fun _ _ => false) (fun t => t) (Some (lit "postgres://db"))
                 sampleDb) = 0.
Proof.
  split.
  - apply (proj1 (snapshot_all_or_nothing refusesDup (fun t => t)
                    (lit "postgres://db") sampleDb ltac:(discriminate))).
    reflexivity.
  - apply (proj2 (snapshot_all_or_nothing (fun _ _ => false) (fun t => t)
                    (lit "postgres://db") sampleDb ltac:(discriminate))).
    reflexivity.
Defined.

End SnapshotFacts.

(* ================================================================== *)
(** * The harvester: pages *)
(* ================================================================== *)

Module HarvesterFacts.
Import Harvester.

Section Pages.

Variable w : World.
Hypothesis good : goodWorld w.

Lemma id_lt_asym (a b : jsstring) : id_lt w a b = true -> id_lt w b a = false.
Proof.
  intros H. destruct (id_lt w b a) eqn:E; [|reflexivity].
  rewrite <- (id_lt_irrefl good a). symmetry.
  exact (id_lt_trans good a b a H E).
Qed.

(** An id that is not below [b], when [b] is not below [c], is not
    below [c]. *)
Lemma not_below_trans (a b c : jsstring) :
  id_lt w b a = false -> id_lt w c b = false -> id_lt w c a = false.
Proof.
  intros H1 H2. destruct (id_lt w c a) eqn:E; [|reflexivity].
  destruct (id_lt_between good c b a E); congruence.
Qed.

Lemma In_insert (x y : jsstring) (l : list jsstring) :
  In x (insert w y l) <-> x = y \/ In x l.
Proof.
  induction l as [|z l IH]; simpl.
  - intuition.
  - destruct (id_lt w z y); simpl; rewrite ?IH; intuition.
Qed.

Lemma In_orderBy (x : jsstring) (l : list jsstring) :
  In x (orderBy w l) <-> In x l.
Proof.
  induction l as [|z l IH]; simpl; [tauto|].
  rewrite In_insert, IH. intuition.
Qed.

Lemma insert_ascending (x : jsstring) (l : list jsstring) :
  ascending w l -> ascending w (insert w x l).
Proof.
  unfold ascending. induction 1 as [|y l S IH F]; simpl.
  - constructor; constructor.
  - destruct (id_lt w y x) eqn:E.
    + constructor; [exact IH|].
      apply Forall_forall. intros z Hz. apply In_insert in Hz.
      destruct Hz as [->|Hz]; [apply id_lt_asym, E|].
      rewrite Forall_forall in F. apply F, Hz.
    + constructor; [constructor; assumption|].
      constructor; [exact E|].
      apply Forall_forall. intros z Hz. rewrite Forall_forall in F.
      apply (not_below_trans x y z); [exact E|apply F, Hz].
Qed.

Lemma orderBy_ascending (l : list jsstring) : ascending w (orderBy w l).
Proof.
  induction l as [|x l IH]; simpl; [constructor|].
  apply insert_ascending, IH.
Qed.

Lemma firstn_ascending (n : nat) (l : list jsstring) :
  ascending w l -> ascending w (firstn n l).
Proof.
  unfold ascending. intros H. revert n.
  induction H as [|y l S IH F]; intros [|n]; simpl; try constructor.
  - apply IH.
  - apply Forall_forall. intros z Hz. rewrite Forall_forall in F.
    apply F. revert Hz. clear. revert n.
    induction l as [|a l IHl]; intros [|n]; simpl; try tauto.
    intros [->|H]; [left; reflexivity|right; apply (IHl n), H].
Qed.

Lemma In_firstn (x : jsstring) (n : nat) (l : list jsstring) :
  In x (firstn n l) -> In x l.
Proof.
  revert n. induction l as [|a l IH]; intros [|n]; simpl; try tauto.
  intros [->|H]; [left; reflexivity|right; apply (IH n), H].
Qed.

(** Nothing of an ascending list is above its last element. *)
Lemma last_ascending (l : list jsstring) (d x : jsstring) :
  ascending w l -> In x l -> id_lt w (last l d) x = false.
Proof.
  unfold ascending. induction 1 as [|y l S IH F]; [intros []|].
  intros Hx. destruct l as [|z l].
  - destruct Hx as [->|[]]. simpl. apply (id_lt_irrefl good).
  - change (last (y :: z :: l) d) with (last (z :: l) d).
    destruct Hx as [->|Hx]; [|apply IH, Hx].
    rewrite Forall_forall in F. apply F.
    clear. revert z. induction l as [|a l IHl]; intros z; simpl; [auto|].
    right. apply IHl.
Qed.

Lemma last_In (l : list jsstring) (d : jsstring) : l <> [] -> In (last l d) l.
Proof.
  induction l as [|a [|b l] IH]; [congruence| |]; intros _.
  - left. reflexivity.
  - right. apply IH. discriminate.
Qed.

(** What a page holds: rows of the table, above the cursor, that the
    freshness clause keeps, in ascending order. *)
Lemma getIdsPage_spec (n : nat) (after : option jsstring) (limit : nat) :
  ascending w (getIdsPage w n after limit)
  /\ forall id, In id (getIdsPage w n after limit) ->
       In id (cards w) /\ above w after id = true /\ kept w n id = true.
Proof.
  unfold getIdsPage. split.
  - apply firstn_ascending, orderBy_ascending.
  - intros id H. apply In_firstn, In_orderBy, filter_In in H.
    destruct H as [H1 H2]. apply andb_true_iff in H2. tauto.
Qed.

Lemma batchOf_page (f : Flags) (s : State) (id : jsstring) :
  In id (batchOf w f s) ->
  In id (getIdsPage w (queries s) (cursor s) (BATCH f)).
Proof. unfold batchOf. apply In_firstn. Qed.

Lemma batchOf_ascending (f : Flags) (s : State) : ascending w (batchOf w f s).
Proof.
  unfold batchOf. apply firstn_ascending, getIdsPage_spec.
Qed.

Lemma plainId_nonempty (id : jsstring) : plainId id = true -> id <> [].
Proof. destruct id; [discriminate|discriminate]. Qed.

Lemma cards_plainId (id : jsstring) : In id (cards w) -> plainId id = true.
Proof.
  pose proof (cards_plain good) as H. rewrite Forall_forall in H. apply H.
Qed.

Lemma above_Some (c id : jsstring) :
  c <> [] -> above w (Some c) id = id_lt w c id.
Proof. destruct c; [congruence|reflexivity]. Qed.

End Pages.

(* ================================================================== *)
(** * The harvester: the pool *)
(* ================================================================== *)

Section Pool.

Variable w : World.
Variable c : number.

Lemma inFlightAfter_snoc (tr : list Event) (e : Event) :
  inFlightAfter (tr ++ [e])
  = match e with
    | Dispatched _ => S (inFlightAfter tr)
    | SettledOne _ => inFlightAfter tr - 1
    | _ => inFlightAfter tr
    end.
Proof. unfold inFlightAfter. rewrite fold_left_app. reflexivity. Qed.

Lemma snoc_split {A} (q r tr : list A) (e : A) :
  tr ++ [e] = q ++ r ->
  (r = [] /\ q = tr ++ [e]) \/ exists r', r = r' ++ [e] /\ tr = q ++ r'.
Proof.
  intros H. destruct r as [|y r0].
  - left. rewrite app_nil_r in H. split; [reflexivity|congruence].
  - right. assert (N : y :: r0 <> []) by discriminate.
    destruct (exists_last N) as [r' [x E]]. rewrite E in *.
    rewrite app_assoc in H. apply app_inj_tail in H.
    destruct H as [H ->]. exists r'. split; [reflexivity|exact H].
Qed.

(** The drive of the pool keeps what [launch] and [land] keep. *)
Lemma drive_keeps (P : Pool -> Prop) :
  (forall p, P p -> P (launch c p)) ->
  (forall p i id, P p -> nth_error (flying p) i = Some id -> P (land w id i p)) ->
  forall steps p p', P p -> drive w steps c p = Resolved p' -> P p'.
Proof.
  intros HL HS. induction steps as [|steps IH]; intros p p' HP; simpl.
  - destruct (resolved p); [intros E; inversion E; subst; exact HP|].
    destruct (flying p); discriminate.
  - destruct (resolved p); [intros E; inversion E; subst; exact HP|].
    destruct (flying p) as [|x fl] eqn:F; [discriminate|].
    intros E. refine (IH _ p' _ E). unfold settle.
    destruct (nth_error (flying p) _) as [id|] eqn:N; [|exact HP].
    apply HL, (HS p _ id HP N).
Qed.

Lemma poolRun_start (ids : list jsstring) :
  poolRun w ids c = drive w (length ids) c (launch c (start ids)).
Proof. reflexivity. Qed.

(** ** The counter counts the requests in flight *)

Lemma launchLoop_counted (td fl : list jsstring) (n : nat) (ev : list Event) :
  n = length fl -> inFlightAfter ev = n ->
  let '(_, n', fl', ev') := launchLoop c td n fl ev in
  n' = length fl' /\ inFlightAfter ev' = n'.
Proof.
  revert fl n ev. induction td as [|id td IH]; intros fl n ev H1 H2; simpl.
  - auto.
  - destruct (lt (of_nat n) c); [|auto].
    apply IH.
    + rewrite length_app. simpl. lia.
    + rewrite inFlightAfter_snoc. congruence.
Qed.

Lemma launch_counted (p : Pool) : counted p -> counted (launch c p).
Proof.
  unfold counted, launch. intros [H1 H2].
  pose proof (launchLoop_counted (todo p) (flying p) (inFlight p) (events p) H1 H2) as L.
  destruct (launchLoop c (todo p) (inFlight p) (flying p) (events p))
    as [[[t n] fl] ev].
  destruct (todo p), (inFlight p); simpl; auto.
Qed.

Lemma removeNth_length (i : nat) (l : list jsstring) (id : jsstring) :
  nth_error l i = Some id -> S (length (removeNth i l)) = length l.
Proof.
  revert i. induction l as [|x l IH]; intros [|i]; simpl; try discriminate.
  - reflexivity.
  - intros H. rewrite (IH i H). reflexivity.
Qed.

Lemma land_counted (p : Pool) (i : nat) (id : jsstring) :
  counted p -> nth_error (flying p) i = Some id -> counted (land w id i p).
Proof.
  unfold counted, land. intros [H1 H2] N. simpl.
  pose proof (removeNth_length i (flying p) id N) as L.
  rewrite inFlightAfter_snoc. split; lia.
Qed.

(** ** The bound on the requests in flight *)

Section Bound.

Variable k : nat.

(** A request is only dispatched while the counter is below the bound. *)
Hypothesis room : forall n, n <= k -> lt (of_nat n) c = true -> n < k.

Lemma within_snoc (tr : list Event) (e : Event) :
  within k tr -> inFlightAfter (tr ++ [e]) <= k -> within k (tr ++ [e]).
Proof.
  intros H1 H2 q r E. destruct (snoc_split q r tr e E) as [[_ ->]|[r' [_ ->]]].
  - exact H2.
  - apply (H1 q r'). reflexivity.
Qed.

Lemma launchLoop_bounded (td fl : list jsstring) (n : nat) (ev : list Event) :
  inFlightAfter ev = n -> n <= k -> within k ev ->
  let '(_, n', _, ev') := launchLoop c td n fl ev in
  n' <= k /\ within k ev'.
Proof.
  revert fl n ev. induction td as [|id td IH]; intros fl n ev H1 H2 H3; simpl.
  - auto.
  - destruct (lt (of_nat n) c) eqn:L; [|auto].
    pose proof (room n H2 L) as R.
    assert (E : inFlightAfter (ev ++ [Dispatched id]) = S n)
      by (rewrite inFlightAfter_snoc; congruence).
    apply IH; [exact E|lia|].
    apply within_snoc; [exact H3|lia].
Qed.

Lemma launch_bounded (p : Pool) : bounded k p -> bounded k (launch c p).
Proof.
  intros [H1 [H2 H3]]. split; [apply launch_counted, H1|].
  destruct H1 as [_ H1]. unfold launch.
  pose proof (launchLoop_bounded (todo p) (flying p) (inFlight p) (events p) H1 H2 H3) as L.
  destruct (launchLoop c (todo p) (inFlight p) (flying p) (events p))
    as [[[t n] fl] ev].
  destruct (todo p), (inFlight p); simpl; auto.
Qed.

Lemma land_bounded (p : Pool) (i : nat) (id : jsstring) :
  bounded k p -> nth_error (flying p) i = Some id -> bounded k (land w id i p).
Proof.
  intros [H1 [H2 H3]] N. split; [apply land_counted; assumption|].
  destruct H1 as [_ H1]. unfold land. simpl. split; [lia|].
  apply within_snoc; [exact H3|]. rewrite inFlightAfter_snoc. lia.
Qed.

Lemma start_bounded (ids : list jsstring) : bounded k (start ids).
Proof.
  split; [split; reflexivity|]. split; [apply Nat.le_0_l|].
  intros q r E. simpl in E.
  symmetry in E. apply app_eq_nil in E. destruct E as [-> _]. apply Nat.le_0_l.
Qed.

(** At every point of a run of the pool at most [k] requests are in
    flight. *)
Lemma poolRun_within (ids : list jsstring) (p : Pool) :
  poolRun w ids c = Resolved p -> within k (events p).
Proof.
  rewrite poolRun_start. intros H.
  apply (drive_keeps (bounded k) launch_bounded land_bounded (length ids)
           (launch c (start ids)) p (launch_bounded _ (start_bounded ids)) H).
Qed.

End Bound.

End Pool.

(* ================================================================== *)
(** * The harvester: every request of a batch settles *)
(* ================================================================== *)

Section Settling.

Variable w : World.
Variable c : number.

Lemma launchLoop_moves (td fl : list jsstring) (n : nat) (ev : list Event) :
  let '(td', _, fl', ev') := launchLoop c td n fl ev in
  exists moved,
    td = moved ++ td' /\ fl' = fl ++ moved
    /\ ev' = ev ++ map Dispatched moved
    /\ (lt (of_nat n) c = true -> td <> [] -> moved <> []).
Proof.
  revert fl n ev. induction td as [|id td IH]; intros fl n ev; simpl.
  - exists []. rewrite !app_nil_r. repeat split. congruence.
  - destruct (lt (of_nat n) c) eqn:L.
    + specialize (IH (fl ++ [id]) (S n) (ev ++ [Dispatched id])).
      destruct (launchLoop c td (S n) (fl ++ [id]) (ev ++ [Dispatched id]))
        as [[[t n'] f] e].
      destruct IH as [moved [H1 [H2 [H3 _]]]].
      exists (id :: moved). simpl. rewrite H1 at 1.
      rewrite H2, H3, <- !app_assoc. repeat split. discriminate.
    + exists []. rewrite !app_nil_r. repeat split. congruence.
Qed.

Ltac absurd_resolved H :=
  match goal with
  | R : resolved _ = true |- _ => simpl in R; destruct (H R); discriminate
  end.

Section Batch.

Variable ids : list jsstring.

Lemma launch_accounted (p : Pool) :
  counted p -> accounted w ids p -> accounted w ids (launch c p).
Proof.
  intros [C1 _] [H1 [H2 [H3 [H4 H5]]]]. unfold launch.
  pose proof (launchLoop_moves (todo p) (flying p) (inFlight p) (events p)) as L.
  destruct (launchLoop c (todo p) (inFlight p) (flying p) (events p))
    as [[[t n] fl] ev].
  destruct L as [moved [L1 [L2 [L3 _]]]].
  destruct (todo p) as [|x td] eqn:T, (inFlight p) as [|m] eqn:I.
  - repeat split; simpl; auto; try (rewrite T; exact H1).
  - symmetry in L1. apply app_eq_nil in L1. destruct L1 as [-> ->].
    simpl in L3. rewrite app_nil_r in L2, L3. subst fl ev.
    repeat split; simpl; auto; absurd_resolved H5.
  - subst fl ev. repeat split; simpl; auto.
    + rewrite L1 in H1. rewrite <- app_assoc. exact H1.
    + intros id Hid. apply in_or_app. left. apply H3, Hid.
    + rewrite forallb_app, H4. simpl. clear. induction moved; auto.
    + absurd_resolved H5.
    + absurd_resolved H5.
  - subst fl ev. repeat split; simpl; auto.
    + rewrite L1 in H1. rewrite <- app_assoc. exact H1.
    + intros id Hid. apply in_or_app. left. apply H3, Hid.
    + rewrite forallb_app, H4. simpl. clear. induction moved; auto.
    + absurd_resolved H5.
    + absurd_resolved H5.
Qed.

Lemma removeNth_perm (i : nat) (l : list jsstring) (id : jsstring) :
  nth_error l i = Some id -> Permutation l (id :: removeNth i l).
Proof.
  revert i. induction l as [|x l IH]; intros [|i]; simpl; try discriminate.
  - intros E. inversion E. reflexivity.
  - intros H. rewrite (IH i H) at 1. apply perm_swap.
Qed.

Lemma land_accounted (p : Pool) (i : nat) (id : jsstring) :
  accounted w ids p -> nth_error (flying p) i = Some id ->
  accounted w ids (land w id i p).
Proof.
  intros [H1 [H2 [H3 [H4 H5]]]] N. unfold land.
  repeat split; simpl;
    try match goal with
        | H : resolved _ = true |- _ =>
            simpl in H; destruct (H5 H) as [E1 E2]; rewrite ?E1, ?E2;
            reflexivity
        end.
  - rewrite map_app. simpl. rewrite <- app_assoc. simpl.
    eapply Permutation_trans; [exact H1|]. apply Permutation_app_head.
    apply (Permutation_app_tail (todo p) (removeNth_perm i (flying p) id N)).
  - apply Forall_app. split; [exact H2|]. constructor; [reflexivity|constructor].
  - intros x Hx. rewrite map_app in Hx. apply in_app_or in Hx.
    apply in_or_app. destruct Hx as [Hx|[<-|[]]]; [left; apply H3, Hx|].
    right. left. reflexivity.
  - rewrite forallb_app, H4. reflexivity.
Qed.

End Batch.

(** With room for a first request, a pool that has not resolved after
    [launch] has a request in flight. *)
Hypothesis positive : lt (of_nat 0) c = true.

Lemma launch_live (p : Pool) : counted p -> live (launch c p).
Proof.
  intros C. split; [apply launch_counted, C|].
  destruct C as [C1 _]. unfold launch.
  pose proof (launchLoop_moves (todo p) (flying p) (inFlight p) (events p)) as L.
  destruct (launchLoop c (todo p) (inFlight p) (flying p) (events p))
    as [[[t n] fl] ev].
  destruct L as [moved [L1 [L2 [L3 L4]]]].
  destruct (todo p) as [|x td] eqn:T, (inFlight p) as [|m] eqn:I; simpl.
  - left. reflexivity.
  - right. subst fl. destruct (flying p); [discriminate|discriminate].
  - right. subst fl. intros E. apply app_eq_nil in E. destruct E as [_ E].
    apply L4; [exact positive|discriminate|exact E].
  - right. subst fl. destruct (flying p); [discriminate|discriminate].
Qed.

Lemma launch_measure (p : Pool) :
  length (todo (launch c p)) + length (flying (launch c p))
  = length (todo p) + length (flying p).
Proof.
  unfold launch.
  pose proof (launchLoop_moves (todo p) (flying p) (inFlight p) (events p)) as L.
  destruct (launchLoop c (todo p) (inFlight p) (flying p) (events p))
    as [[[t n] fl] ev].
  destruct L as [moved [L1 [L2 _]]].
  apply (f_equal (@length _)) in L1. rewrite length_app in L1.
  destruct (todo p) as [|x td] eqn:T, (inFlight p) as [|m] eqn:I; simpl;
    try reflexivity; rewrite L2, length_app; simpl in L1; lia.
Qed.

Lemma drive_resolves (steps : nat) (p : Pool) :
  live p -> length (todo p) + length (flying p) <= steps ->
  exists p', drive w steps c p = Resolved p'.
Proof.
  revert p. induction steps as [|steps IH]; intros p [C L] M; simpl.
  - destruct (resolved p) eqn:R; [eexists; reflexivity|].
    destruct L as [L|L]; [discriminate|].
    destruct (flying p); [congruence|simpl in M; lia].
  - destruct (resolved p) eqn:R; [eexists; reflexivity|].
    destruct L as [L|L]; [discriminate|].
    destruct (flying p) as [|x fl] eqn:F; [congruence|].
    apply IH; unfold settle; rewrite <- F;
      assert (I : Nat.modulo (next w (flying p)) (length (flying p))
                  < length (flying p))
        by (apply Nat.mod_upper_bound; rewrite F; discriminate);
      destruct (nth_error (flying p) _) as [id|] eqn:N;
      try (apply nth_error_None in N; lia).
    + apply launch_live, land_counted; assumption.
    + rewrite launch_measure. unfold land. simpl.
      pose proof (removeNth_length _ _ _ N). rewrite F in *. simpl in *. lia.
Qed.

Lemma poolRun_resolves (ids : list jsstring) :
  exists p, poolRun w ids c = Resolved p.
Proof.
  rewrite poolRun_start. apply drive_resolves.
  - apply launch_live. split; reflexivity.
  - rewrite launch_measure. simpl. lia.
Qed.

End Settling.

(* ================================================================== *)
(** * The harvester: a turn of the loop *)
(* ================================================================== *)

Section Turn.

Variable w : World.

Lemma drive_resolved (steps : nat) (c : number) (p p' : Pool) :
  drive w steps c p = Resolved p' -> resolved p' = true.
Proof.
  revert p. induction steps as [|steps IH]; intros p; simpl;
    destruct (resolved p) eqn:R;
    try (intros E; inversion E; subst; exact R);
    destruct (flying p); try discriminate.
  apply IH.
Qed.

(** What a resolved pool holds: a result for every id of the batch,
    each of them what [fetchOne] gives, every request settled, and
    nothing in flight. *)
Lemma poolRun_settles (ids : list jsstring) (c : number) (p : Pool) :
  poolRun w ids c = Resolved p ->
  Permutation ids (map fst (results p))
  /\ results p = map (fun id => (id, fetchOne w id)) (map fst (results p))
  /\ (forall id, In id ids -> In (SettledOne id) (events p))
  /\ forallb isPoolEvent (events p) = true
  /\ inFlightAfter (events p) = 0.
Proof.
  intros H. pose proof (drive_resolved _ _ _ _ H) as R.
  rewrite poolRun_start in H.
  assert (K : counted p /\ accounted w ids p).
  { refine (drive_keeps w c (fun p => counted p /\ accounted w ids p)
              _ _ _ _ p _ H).
    - intros q [Q1 Q2]. split; [apply launch_counted, Q1|].
      apply launch_accounted; assumption.
    - intros q i id [Q1 Q2] N. split; [apply land_counted; assumption|].
      apply land_accounted; assumption.
    - split; [apply launch_counted; split; reflexivity|].
      apply launch_accounted; [split; reflexivity|].
      repeat split; simpl; try discriminate; auto;
        try (rewrite app_nil_r; reflexivity). }
  destruct K as [[C1 C2] [H1 [H2 [H3 [H4 H5]]]]].
  destruct (H5 R) as [T I]. rewrite I in C1.
  destruct (flying p) as [|x fl] eqn:F; [|discriminate].
  rewrite T, !app_nil_r in H1.
  repeat split; try assumption.
  - clear - H2. induction (results p) as [|[id o] rs IH]; [reflexivity|].
    inversion H2; subst. simpl in *. rewrite <- IH by assumption. congruence.
  - intros id Hid. apply H3. apply (Permutation_in id H1 Hid).
  - congruence.
Qed.

Lemma poolRun_pending (ids : list jsstring) (c : number) :
  lt (of_nat 0) c = false -> ids <> [] -> poolRun w ids c = Pending.
Proof.
  intros L N. destruct ids as [|id ids]; [congruence|].
  unfold poolRun, start, launch. cbn [todo inFlight flying events launchLoop].
  rewrite L. reflexivity.
Qed.

Lemma poolRun_cases (ids : list jsstring) (c : number) :
  ids <> [] ->
  (lt (of_nat 0) c = true /\ exists p, poolRun w ids c = Resolved p)
  \/ (lt (of_nat 0) c = false /\ poolRun w ids c = Pending).
Proof.
  intros N. destruct (lt (of_nat 0) c) eqn:L.
  - left. split; [reflexivity|]. apply poolRun_resolves, L.
  - right. split; [reflexivity|]. apply poolRun_pending; assumption.
Qed.

Lemma Permutation_filter_length {A} (p : A -> bool) (l l' : list A) :
  Permutation l l' -> length (filter p l) = length (filter p l').
Proof.
  induction 1 as [|x l l' _ IH|x y l|l l' l'' _ IH1 _ IH2]; simpl.
  - reflexivity.
  - destruct (p x); simpl; congruence.
  - destruct (p x), (p y); reflexivity.
  - congruence.
Qed.

(** The loop over the results. *)
Lemma tally_all (rs : list (jsstring * Settled)) (s : State) :
  let s' := fold_left tally rs s in
  processed s' = processed s
  /\ found s'
     = found s + length (filter (fun r => isFoundLine (lineOf (snd r))) rs)
  /\ errors s'
     = errors s + length (filter (fun r => isErrorLine (lineOf (snd r))) rs)
  /\ cursor s' = cursor s /\ file s' = file s /\ queries s' = queries s
  /\ trace s' = trace s ++ map logLine rs.
Proof.
  revert s. induction rs as [|[id o] rs IH]; intros s.
  - simpl. rewrite !Nat.add_0_r, app_nil_r. repeat split; reflexivity.
  - cbn [fold_left]. specialize (IH (tally s (id, o))). cbv zeta in IH.
    destruct IH as [H1 [H2 [H3 [H4 [H5 [H6 H7]]]]]].
    cbv zeta. rewrite H1, H2, H3, H4, H5, H6, H7. unfold tally.
    cbn [processed found errors cursor file queries trace map filter snd
         logLine fst].
    rewrite <- app_assoc.
    repeat split; try reflexivity; destruct (lineOf o); simpl; lia.
Qed.

Lemma filter_map_length {A B} (g : A -> B) (p : B -> bool) (l : list A) :
  length (filter p (map g l)) = length (filter (fun a => p (g a)) l).
Proof.
  induction l as [|a l IH]; simpl; [reflexivity|].
  destruct (p (g a)); simpl; congruence.
Qed.

(** The three ways a turn of the loop can go. *)
Lemma iteration_cases (f : Flags) (s : State) :
  let ids := batchOf w f s in
  let s1 := asked w f s in
  iteration w f s
  = match ids with
    | [] => Break s1
    | _ :: _ =>
        if DRY_RUN f then advance f ids (log [Batch ids] s1)
        else
          match poolRun w ids (CONCURRENCY f) with
          | Resolved p =>
              advance f ids
                (fold_left tally (results p)
                   (log (events p) (log [Batch ids] s1)))
          | _ => Stuck (log [Batch ids] s1)
          end
    end.
Proof.
  unfold iteration, batchOf, asked. cbv zeta.
  destruct (getIdsPage w (queries s) (cursor s) (BATCH f)) as [|x page] eqn:P.
  - rewrite firstn_nil. reflexivity.
  - cbn [processed]. destruct (firstn _ (x :: page)); reflexivity.
Qed.

End Turn.

(* ================================================================== *)
(** * The harvester: the loop comes to an end *)
(* ================================================================== *)

Section Loop.

Variable w : World.
Hypothesis good : goodWorld w.
Variable f : Flags.

Lemma filter_length_lt {A} (p q : A -> bool) (a : A) (l : list A) :
  (forall x, p x = true -> q x = true) ->
  In a l -> q a = true -> p a = false ->
  length (filter p l) < length (filter q l).
Proof.
  intros Hpq. induction l as [|x l IH]; [intros []|].
  assert (Le : forall l', length (filter p l') <= length (filter q l')).
  { induction l' as [|y l' IH']; simpl; [lia|].
    destruct (p y) eqn:P; [rewrite (Hpq y P); simpl; lia|].
    destruct (q y); simpl; lia. }
  intros [->|Hin] Hq Hp; simpl.
  - rewrite Hq, Hp. simpl. specialize (Le l). lia.
  - specialize (IH Hin Hq Hp).
    destruct (p x) eqn:P; [rewrite (Hpq x P); simpl; lia|].
    destruct (q x); simpl; lia.
Qed.

(** What [advance] leaves. *)
Lemma advance_state (ids : list jsstring) (s : State) :
  let s' := stateOf (advance f ids s) in
  processed s' = processed s + length ids
  /\ found s' = found s /\ errors s' = errors s
  /\ cursor s' = Some (last ids [])
  /\ file s' = saveCursor (last ids [])
  /\ queries s' = queries s
  /\ trace s' = trace s ++ [Saved (last ids [])]
  /\ (advance f ids s = Continue s'
      \/ (advance f ids s = Break s'
          /\ 0 < LIMIT f /\ LIMIT f <= processed s')).
Proof.
  unfold advance. cbv zeta. cbn [processed].
  destruct (0 <? LIMIT f) eqn:L0; cbn [andb].
  - destruct (LIMIT f <=? processed s + length ids) eqn:L1; simpl;
      repeat split; auto.
    right. repeat split.
    + apply Nat.ltb_lt, L0.
    + apply Nat.leb_le, L1.
  - simpl. repeat split; auto.
Qed.

(** The last id of a batch is a row above the cursor, and a plain
    one. *)
Lemma last_batch (s : State) :
  batchOf w f s <> [] ->
  let l := last (batchOf w f s) [] in
  In l (batchOf w f s) /\ In l (cards w)
  /\ above w (cursor s) l = true /\ plainId l = true.
Proof.
  intros N l. pose proof (last_In (batchOf w f s) [] N) as H.
  fold l in H. split; [exact H|].
  apply batchOf_page, (getIdsPage_spec w good) in H.
  destruct H as [H1 [H2 _]]. repeat split; try assumption.
  apply (cards_plainId w good), H1.
Qed.

(** A turn that goes on has moved the cursor past a row. *)
Lemma remaining_decreases (s s' : State) :
  batchOf w f s <> [] ->
  cursor s' = Some (last (batchOf w f s) []) ->
  remaining w s' < remaining w s.
Proof.
  intros N C. unfold remaining. rewrite C.
  destruct (last_batch s N) as [_ [H1 [H2 H3]]].
  set (l := last (batchOf w f s) []) in *.
  pose proof (plainId_nonempty l H3) as Hl.
  apply (filter_length_lt _ _ l); try assumption.
  - intros x Hx. rewrite (above_Some w l x Hl) in Hx.
    unfold above in *. destruct (cursor s) as [[|c0 c]|]; try reflexivity.
    apply (id_lt_trans good _ l); assumption.
  - rewrite (above_Some w l l Hl). apply (id_lt_irrefl good).
Qed.

Lemma iteration_Continue (s s' : State) :
  iteration w f s = Continue s' ->
  batchOf w f s <> [] /\ cursor s' = Some (last (batchOf w f s) []).
Proof.
  rewrite iteration_cases. cbv zeta.
  destruct (batchOf w f s) as [|x ids] eqn:B; [discriminate|].
  intros H. split; [discriminate|].
  assert (K : forall s0, advance f (x :: ids) s0 = Continue s' ->
                         cursor s' = Some (last (x :: ids) [])).
  { intros s0 E. pose proof (advance_state (x :: ids) s0) as A.
    cbv zeta in A. rewrite E in A. simpl in A. tauto. }
  destruct (DRY_RUN f); [exact (K _ H)|].
  destruct (poolRun w (x :: ids) (CONCURRENCY f)); try discriminate.
  exact (K _ H).
Qed.

(** The loop ends, in a turn that breaks or one that is stuck, and
    what every turn keeps holds of the state that turn starts from. *)
Lemma loop_ends (P : State -> Prop) :
  (forall s s', P s -> iteration w f s = Continue s' -> P s') ->
  forall steps s, P s -> remaining w s < steps ->
    exists s0, P s0
      /\ ((exists s', iteration w f s0 = Break s'
                      /\ loop w steps f s = Done s')
          \/ (exists s', iteration w f s0 = Stuck s'
                         /\ loop w steps f s = Hung s')).
Proof.
  intros HP. induction steps as [|steps IH]; intros s Ps M; [lia|].
  simpl. destruct (iteration w f s) as [s'|s'|s'] eqn:I.
  - exists s. split; [exact Ps|]. left. exists s'. rewrite I. auto.
  - destruct (iteration_Continue s s' I) as [N C].
    pose proof (remaining_decreases s s' N C) as D.
    apply (IH s' (HP s s' Ps I)). lia.
  - exists s. split; [exact Ps|]. right. exists s'. rewrite I. auto.
Qed.

Lemma remaining_le (s : State) : remaining w s <= length (cards w).
Proof. apply filter_length_le. Qed.

End Loop.

(* ================================================================== *)
(** * The harvester: concurrency *)
(* ================================================================== *)

(** C5, as the claim has it, fails: with [--concurrency=abc] the
    concurrency is [NaN], which is not between 1 and 8 (and a pool run
    with it never dispatches a request: its promise stays pending). *)
Lemma concurrency_not_a_number :
  let f := flagsWith 0 (Some (lit "abc")) None false in
  CONCURRENCY f = NaN
  /\ ~ (le n1 (CONCURRENCY f) = true /\ le (CONCURRENCY f) n8 = true)
  /\ poolRun sampleWorld twentyIds (CONCURRENCY f) = Pending.
Proof.
  repeat split; try reflexivity. intros [H _]. discriminate.
Qed.

(** With [--concurrency=2.5] the concurrency is 2.5, and three requests
    are in flight at once. *)
Lemma concurrency_fraction :
  let f := flagsWith 0 (Some (lit "2.5")) None false in
  CONCURRENCY f = n2_5
  /\ nearest n2_5 25 10 = true
  /\ exists p q r,
       poolRun sampleWorld twentyIds (CONCURRENCY f) = Resolved p
       /\ events p = q ++ r /\ inFlightAfter q = 3.
Proof.
  repeat split; try reflexivity.
  destruct (poolRun sampleWorld twentyIds n2_5) as [p| |] eqn:E;
    try (vm_compute in E; discriminate).
  exists p, (firstn 3 (events p)), (skipn 3 (events p)).
  split; [exact E|]. split; [symmetry; apply firstn_skipn|].
  vm_compute in E. inversion E. reflexivity.
Qed.

Lemma room_whole (k n : nat) :
  n <= k -> lt (of_nat n) (of_nat k) = true -> n < k.
Proof.
  intros H L. destruct (Nat.eq_dec n k) as [->|N]; [|lia].
  rewrite lt_irrefl in L. discriminate.
Qed.

Lemma room_capped (c : number) (C : le c n8 = true) (n : nat) :
  n <= 8 -> lt (of_nat n) c = true -> n < 8.
Proof.
  intros H L. destruct (Nat.eq_dec n 8) as [->|N]; [|lia].
  apply lt_not_le in L. change (of_nat 8) with n8 in L. congruence.
Qed.

(** C5, amended: for every [--concurrency] text that [Number] reads as
    a number (anything but [NaN]) the concurrency lies between 1 and 8,
    and it is 4 when the flag is not given; a pool run with a whole
    number [k] as concurrency has at most [k] requests in flight at
    every point, a pool run with any concurrency up to 8 has at most 8,
    and a pool run with a concurrency above 0 settles every request. *)
Theorem concurrency_bounds_requests_in_flight :
  (forall f : Flags,
     Number (match concurrency f with Some v => v | None => lit "4" end)
     <> NaN ->
     le n1 (CONCURRENCY f) = true /\ le (CONCURRENCY f) n8 = true)
  /\ (forall f : Flags, concurrency f = None -> CONCURRENCY f = n4)
  /\ n4 = of_nat 4
  /\ (forall (w : World) (ids : list jsstring) (k : nat) (p : Pool),
        poolRun w ids (of_nat k) = Resolved p -> within k (events p))
  /\ (forall (w : World) (ids : list jsstring) (c : number) (p : Pool),
        le c n8 = true ->
        poolRun w ids c = Resolved p -> within 8 (events p))
  /\ (forall (w : World) (ids : list jsstring) (c : number),
        lt (of_nat 0) c = true ->
        exists p, poolRun w ids c = Resolved p
                  /\ forall id, In id ids -> In (SettledOne id) (events p)).
Proof.
  repeat split.
  - unfold CONCURRENCY. change (of_Z 1) with n1. change (of_Z 8) with n8.
    destruct (Math_max_1 _ H) as [E|[E L]]; rewrite E; [reflexivity|].
    assert (Z0 : n8 <> S754_zero false) by discriminate.
    assert (Z1 : n8 <> S754_zero true) by discriminate.
    destruct (Math_min_bound n8 _ eq_refl Z0 Z1 H) as [E2|[E2 L2]]; rewrite E2;
      [reflexivity|apply lt_le, L].
  - unfold CONCURRENCY. change (of_Z 1) with n1. change (of_Z 8) with n8.
    destruct (Math_max_1 _ H) as [E|[E L]]; rewrite E; [reflexivity|].
    assert (Z0 : n8 <> S754_zero false) by discriminate.
    assert (Z1 : n8 <> S754_zero true) by discriminate.
    destruct (Math_min_bound n8 _ eq_refl Z0 Z1 H) as [E2|[E2 L2]]; rewrite E2;
      [reflexivity|apply lt_le, L2].
  - intros f H. unfold CONCURRENCY. rewrite H. reflexivity.
  - intros w ids k p H.
    apply (poolRun_within w (of_nat k) k (room_whole k) ids p H).
  - intros w ids c p C H.
    apply (poolRun_within w c 8 (room_capped c C) ids p H).
  - intros w ids c L. destruct (poolRun_resolves w c L ids) as [p H].
    exists p. split; [exact H|]. apply (poolRun_settles w ids c p H).
Qed.

(** With [--concurrency=4] and a batch of 20 ids, at most 4 requests
    are in flight at any point, and 4 are at some point. *)
Lemma concurrency_bounds_requests_in_flight_witness :
  exists p,
    poolRun sampleWorld twentyIds
      (CONCURRENCY (flagsWith 0 (Some (lit "4")) None false)) = Resolved p
    /\ within 4 (events p)
    /\ inFlightAfter (firstn 4 (events p)) = 4
    /\ le n1 (CONCURRENCY (flagsWith 0 (Some (lit "4")) None false)) = true.
Proof.
  destruct concurrency_bounds_requests_in_flight
    as [H1 [_ [_ [H4 [_ H6]]]]].
  destruct (H6 sampleWorld twentyIds (of_nat 4) eq_refl) as [p [E _]].
  exists p. split; [exact E|]. split; [apply (H4 sampleWorld twentyIds 4 p E)|].
  split.
  - vm_compute in E. inversion E. reflexivity.
  - apply (H1 (flagsWith 0 (Some (lit "4")) None false)). discriminate.
Defined.

(* ================================================================== *)
(** * The harvester: what a turn of the loop leaves *)
(* ================================================================== *)

Section Outcome.

Variable w : World.
Variable f : Flags.

Lemma pool_events_quiet (tr : list Event) :
  forallb isPoolEvent tr = true ->
  covered tr = [] /\ saves tr = [] /\ batches tr = [] /\ queried tr = [].
Proof.
  induction tr as [|e tr IH]; simpl; [auto|].
  intros H. apply andb_true_iff in H. destruct H as [H1 H2].
  destruct (IH H2) as [E1 [E2 [E3 E4]]].
  destruct e; try discriminate; simpl; auto.
Qed.

Lemma log_lines_quiet (rs : list (jsstring * Settled)) :
  covered (map logLine rs) = [] /\ saves (map logLine rs) = []
  /\ batches (map logLine rs) = [] /\ queried (map logLine rs) = []
  /\ inFlightAfter (map logLine rs) = 0
  /\ existsb isDispatched (map logLine rs) = false.
Proof.
  unfold inFlightAfter.
  induction rs as [|r rs IH]; simpl; [repeat split|exact IH].
Qed.

Lemma inFlightAfter_app_quiet (tr tr' : list Event) :
  inFlightAfter tr = 0 -> inFlightAfter tr' = 0 ->
  inFlightAfter (tr ++ tr') = 0.
Proof.
  unfold inFlightAfter. intros H1 H2. rewrite fold_left_app, H1. exact H2.
Qed.

(** What a turn of the loop that has a batch leaves: unless the pool
    never resolves (no request can be dispatched), the trace grows by
    the query, the batch, the events [mid] of the pool and of the loop
    over the results, and one write of the cursor file, the last id of
    the batch. *)
Lemma iteration_turn (s : State) :
  let ids := batchOf w f s in
  let page := getIdsPage w (queries s) (cursor s) (BATCH f) in
  let l := last ids [] in
  ids <> [] ->
  (DRY_RUN f = false /\ lt (of_nat 0) (CONCURRENCY f) = false
   /\ iteration w f s = Stuck (log [Batch ids] (asked w f s)))
  \/ exists mid s',
       stateOf (iteration w f s) = s'
       /\ (iteration w f s = Continue s'
           \/ (iteration w f s = Break s'
               /\ 0 < LIMIT f /\ LIMIT f <= processed s'))
       /\ trace s'
          = trace s ++ [Queried (cursor s) page] ++ [Batch ids] ++ mid
            ++ [Saved l]
       /\ covered mid = [] /\ saves mid = [] /\ batches mid = []
       /\ queried mid = []
       /\ inFlightAfter mid = 0
       /\ processed s' = processed s + length ids
       /\ cursor s' = Some l /\ file s' = saveCursor l
       /\ queries s' = S (queries s)
       /\ (DRY_RUN f = true ->
           mid = [] /\ found s' = found s /\ errors s' = errors s)
       /\ (DRY_RUN f = false ->
           lt (of_nat 0) (CONCURRENCY f) = true
           /\ found s' = found s + foundIn w ids
           /\ errors s' = errors s + errorsIn w ids
           /\ forall id, In id ids ->
                In (SettledOne id) mid
                /\ In (Logged id (lineOf (fetchOne w id))) mid).
Proof.
  intros ids page l N. subst l page. rewrite iteration_cases. cbv zeta.
  fold ids. clearbody ids.
  destruct ids as [|x ids'] eqn:E; [congruence|]. rewrite <- E in *.
  clear E x ids'.
  set (s1 := asked w f s).
  destruct (DRY_RUN f) eqn:D.
  - right. exists [], (stateOf (advance f ids (log [Batch ids] s1))).
    pose proof (advance_state f ids (log [Batch ids] s1)) as A.
    cbv zeta in A. destruct A as [A1 [A2 [A3 [A4 [A5 [A6 [A7 A8]]]]]]].
    split; [reflexivity|]. split; [exact A8|].
    rewrite A1, A2, A3, A4, A5, A6, A7. unfold log, s1, asked. simpl.
    rewrite <- !app_assoc. simpl.
    repeat split; try reflexivity; try discriminate.
  - destruct (poolRun_cases w ids (CONCURRENCY f) N) as [[L [p P]]|[L P]];
      rewrite P; [right|left; auto].
    set (s2 := fold_left tally (results p)
                 (log (events p) (log [Batch ids] s1))).
    exists (events p ++ map logLine (results p)), (stateOf (advance f ids s2)).
    pose proof (advance_state f ids s2) as A.
    cbv zeta in A. destruct A as [A1 [A2 [A3 [A4 [A5 [A6 [A7 A8]]]]]]].
    pose proof (tally_all (results p) (log (events p) (log [Batch ids] s1)))
      as T. cbv zeta in T. fold s2 in T.
    destruct T as [T1 [T2 [T3 [T4 [T5 [T6 T7]]]]]].
    destruct (poolRun_settles w ids _ p P) as [S1 [S2 [S3 [S4 S5]]]].
    destruct (pool_events_quiet _ S4) as [Q1 [Q2 [Q3 Q4]]].
    destruct (log_lines_quiet (results p)) as [G1 [G2 [G3 [G5 [G4 _]]]]].
    split; [reflexivity|]. split; [exact A8|].
    rewrite A1, A2, A3, A4, A5, A6, A7, T1, T2, T3, T6, T7.
    unfold log, s1, asked. simpl. rewrite <- !app_assoc. simpl.
    unfold covered, saves, batches, queried in *. rewrite !flat_map_app.
    rewrite Q1, Q2, Q3, Q4, G1, G2, G3, G5.
    split; [reflexivity|]. split; [reflexivity|]. split; [reflexivity|].
    split; [reflexivity|]. split; [reflexivity|].
    split; [apply inFlightAfter_app_quiet; assumption|].
    split; [reflexivity|]. split; [reflexivity|]. split; [reflexivity|].
    split; [reflexivity|]. split; [discriminate|]. intros _.
    split; [exact L|].
    assert (C : forall q : Line -> bool,
              length (filter (fun r => q (lineOf (snd r))) (results p))
              = length (filter (fun id => q (lineOf (fetchOne w id))) ids)).
    { intros q. rewrite S2 at 1.
      rewrite (filter_map_length (fun id => (id, fetchOne w id))
                 (fun r => q (lineOf (snd r)))). simpl.
      symmetry. apply Permutation_filter_length, S1. }
    split; [unfold foundIn; rewrite (C isFoundLine); reflexivity|].
    split; [unfold errorsIn; rewrite (C isErrorLine); reflexivity|].
    intros id Hid. split.
    + apply in_or_app. left. apply S3, Hid.
    + apply in_or_app. right. rewrite S2, map_map. unfold logLine. simpl.
      apply in_map_iff. exists id. split; [reflexivity|].
      apply (Permutation_in id S1 Hid).
Qed.

End Outcome.

(* ================================================================== *)
(** * The harvester: failures *)
(* ================================================================== *)

Lemma covered_app (tr tr' : list Event) :
  covered (tr ++ tr') = covered tr ++ covered tr'.
Proof. apply flat_map_app. Qed.

Lemma errorsIn_app (w : World) (a b : list jsstring) :
  errorsIn w (a ++ b) = errorsIn w a + errorsIn w b.
Proof. unfold errorsIn. rewrite filter_app, length_app. reflexivity. Qed.

Lemma foundIn_app (w : World) (a b : list jsstring) :
  foundIn w (a ++ b) = foundIn w a + foundIn w b.
Proof. unfold foundIn. rewrite filter_app, length_app. reflexivity. Qed.

(** A fetch that fails is logged as an error: a rejected promise gives
    the [ERROR] line, a 2xx answer that is not JSON under a content
    type that is not JSON gives the [route error] line. *)
Lemma failed_is_error (w : World) (id : jsstring) :
  failed (reply w id) = true ->
  isErrorLine (lineOf (fetchOne w id)) = true.
Proof.
  unfold failed, fetchOne. destruct (reply w id) as [|res]; [reflexivity|].
  destruct (res_ok res); simpl; [|reflexivity].
  destruct (body res); [discriminate|]. intros _.
  destruct (isJson res); reflexivity.
Qed.

Lemma turn_inStep (w : World) (f : Flags) (s : State) :
  DRY_RUN f = false ->
  inStep w s ->
  match iteration w f s with
  | Stuck _ => lt (of_nat 0) (CONCURRENCY f) = false
  | Break s' | Continue s' => inStep w s'
  end.
Proof.
  intros D [P1 [P2 [P3 P4]]].
  destruct (batchOf w f s) as [|x ids] eqn:B.
  - pose proof (iteration_cases w f s) as I. cbv zeta in I.
    rewrite B in I. rewrite I. unfold inStep, asked. simpl.
    rewrite covered_app. simpl. rewrite app_nil_r.
    repeat split; try assumption; apply in_or_app; left; apply P4; assumption.
  - assert (N : batchOf w f s <> []) by (rewrite B; discriminate).
    destruct (iteration_turn w f s N) as [[_ [L I]]|[mid [s' H]]].
    { rewrite I. exact L. }
    destruct H as [H0 [H1 [H2 [H3 [_ [_ [_ [_ [H7 [_ [_ [_ [_ H12]]]]]]]]]]]]].
    destruct (H12 D) as [_ [F1 [F2 F3]]].
    assert (K : inStep w s').
    { unfold inStep. rewrite H2, !covered_app, H3, H7, F1, F2. simpl.
      rewrite !app_nil_r, length_app, errorsIn_app, foundIn_app.
      split; [lia|]. split; [lia|]. split; [lia|].
      intros id Hid. apply in_app_or in Hid. destruct Hid as [Hid|Hid].
      - destruct (P4 id Hid). split; apply in_or_app; left; assumption.
      - destruct (F3 id Hid).
        split; apply in_or_app; right; right; right; apply in_or_app; left;
          assumption. }
    destruct H1 as [H1|[H1 _]]; rewrite H1; exact K.
Qed.

(** C6: an id whose fetch ends in a transport failure, a status outside
    200..299 or a body that is not JSON is logged as an error and
    counted; the other ids of its batch settle and are logged all the
    same, and the turn ends with the cursor moved and the loop going on
    (or the limit reached); a whole run comes to its end with every id
    of every batch logged and the error counter at the number of ids
    with an error line. *)
Theorem failures_are_counted_and_the_run_goes_on (w : World) (f : Flags) :
  DRY_RUN f = false ->
  lt (of_nat 0) (CONCURRENCY f) = true ->
  (forall id, failed (reply w id) = true ->
     isErrorLine (lineOf (fetchOne w id)) = true)
  /\ (forall s, batchOf w f s <> [] ->
        exists s',
          (iteration w f s = Continue s'
           \/ (iteration w f s = Break s'
               /\ 0 < LIMIT f /\ LIMIT f <= processed s'))
          /\ processed s' = processed s + length (batchOf w f s)
          /\ errors s' = errors s + errorsIn w (batchOf w f s)
          /\ found s' = found s + foundIn w (batchOf w f s)
          /\ cursor s' = Some (last (batchOf w f s) [])
          /\ forall id, In id (batchOf w f s) ->
               In (SettledOne id) (trace s')
               /\ In (Logged id (lineOf (fetchOne w id))) (trace s'))
  /\ (goodWorld w ->
      forall file, exists s',
        harvest w f file = Done s'
        /\ processed s' = length (covered (trace s'))
        /\ errors s' = errorsIn w (covered (trace s'))
        /\ found s' = foundIn w (covered (trace s'))
        /\ forall id, In id (covered (trace s')) ->
             In (SettledOne id) (trace s')
             /\ In (Logged id (lineOf (fetchOne w id))) (trace s')).
Proof.
  intros D L. split; [apply failed_is_error|]. split.
  - intros s N.
    destruct (iteration_turn w f s N) as [[_ [L' _]]|[mid [s' H]]];
      [congruence|].
    destruct H as [H0 [H1 [H2 [_ [_ [_ [_ [_ [H7 [H8 [_ [_ [_ H12]]]]]]]]]]]]].
    destruct (H12 D) as [_ [F1 [F2 F3]]].
    exists s'. split; [exact H1|]. split; [exact H7|]. split; [exact F2|].
    split; [exact F1|]. split; [exact H8|].
    intros id Hid. destruct (F3 id Hid) as [A B]. rewrite H2.
    split; apply in_or_app; right;
      apply in_or_app; right; apply in_or_app; right;
      apply in_or_app; left; assumption.
  - intros good file0. unfold harvest.
    set (s0 := {| processed := 0; found := 0; errors := 0;
                  cursor := loadCursor f file0; file := file0; queries := 0;
                  trace := [] |}).
    assert (P0 : inStep w s0).
    { split; [reflexivity|]. split; [reflexivity|]. split; [reflexivity|].
      intros id []. }
    destruct (loop_ends w good f (inStep w)) with (steps := S (length (cards w)))
      (s := s0) as [s1 [P1 E]].
    + intros s s' Ps I. pose proof (turn_inStep w f s D Ps) as T.
      rewrite I in T. exact T.
    + exact P0.
    + pose proof (remaining_le w s0). lia.
    + pose proof (turn_inStep w f s1 D P1) as T.
      destruct E as [[s' [I E]]|[s' [I E]]]; rewrite I in T.
      * exists s'. split; [exact E|]. exact T.
      * congruence.
Qed.

Lemma numericOrder_strict :
  (forall a, numericOrder a a = false)
  /\ (forall a b c, numericOrder a b = true -> numericOrder b c = true ->
                    numericOrder a c = true)
  /\ (forall a b c, numericOrder a c = true ->
                    numericOrder a b = true \/ numericOrder b c = true).
Proof.
  unfold numericOrder. repeat split.
  - intros a. apply N.ltb_irrefl.
  - intros a b c H1 H2. apply N.ltb_lt in H1, H2. apply N.ltb_lt. lia.
  - intros a b c H. apply N.ltb_lt in H.
    destruct (N.ltb_spec (rank a) (rank b)); [left; reflexivity|].
    right. apply N.ltb_lt. lia.
Qed.

Lemma sampleWorld_good : goodWorld sampleWorld.
Proof.
  destruct numericOrder_strict as [H1 [H2 H3]].
  constructor; try assumption.
  repeat constructor.
Qed.

Lemma failures_are_counted_and_the_run_goes_on_witness :
  exists s',
    harvest sampleWorld (flagsWith 0 (Some (lit "3")) None false) None
    = Done s'
    /\ errors s' = errorsIn sampleWorld (covered (trace s'))
    /\ isErrorLine (lineOf (fetchOne sampleWorld (lit "7"))) = true.
Proof.
  destruct (failures_are_counted_and_the_run_goes_on sampleWorld
              (flagsWith 0 (Some (lit "3")) None false) eq_refl eq_refl)
    as [H1 [_ H3]].
  destruct (H3 sampleWorld_good None) as [s' [E [_ [E2 _]]]].
  exists s'. split; [exact E|]. split; [exact E2|].
  apply H1. reflexivity.
Defined.

(** The run of the small world: eleven ids, three errors (cards 2, 3
    and 7), one price. *)
Lemma harvest_sample :
  exists s',
    harvest sampleWorld (flagsWith 0 (Some (lit "3")) None false) None
    = Done s'
    /\ processed s' = 11 /\ errors s' = 3 /\ found s' = 1
    /\ file s' = Some (lit "25" ++ [NEWLINE]).
Proof. eexists. vm_compute. repeat split. Qed.

(* ================================================================== *)
(** * The harvester: the cursor file *)
(* ================================================================== *)

Lemma trim_saved (c : jsstring) :
  plainId c = true -> trim (c ++ [NEWLINE]) = c.
Proof.
  unfold plainId. destruct c as [|x r]; [discriminate|].
  destruct (rev (x :: r)) as [|d r'] eqn:R; [discriminate|].
  intros H. apply andb_true_iff in H. destruct H as [Hx Hd].
  apply negb_true_iff in Hx, Hd.
  unfold trim, trimEnd. cbn [app trimStart]. rewrite Hx.
  change (x :: r ++ [NEWLINE]) with ((x :: r) ++ [NEWLINE]).
  rewrite rev_app_distr, R. cbn [rev app trimStart].
  change (isWhiteSpace NEWLINE) with true. cbn iota.
  rewrite Hd, <- R. apply rev_involutive.
Qed.

Lemma loadCursor_saved (f2 : Flags) (c : jsstring) :
  START_AFTER f2 = None -> plainId c = true ->
  loadCursor f2 (saveCursor c) = Some c.
Proof.
  intros S P. unfold loadCursor, saveCursor. rewrite S, (trim_saved c P).
  destruct c; [discriminate|reflexivity].
Qed.

Lemma fileAfter_app (f0 : option jsstring) (tr tr' : list Event) :
  fileAfter f0 (tr ++ tr') = fileAfter (fileAfter f0 tr) tr'.
Proof. apply fold_left_app. Qed.

Lemma fileAfter_quiet (f0 : option jsstring) (tr : list Event) :
  saves tr = [] -> fileAfter f0 tr = f0.
Proof.
  revert f0. induction tr as [|e tr IH]; intros f0; [reflexivity|].
  destruct e; simpl; try discriminate; apply IH.
Qed.

Lemma saves_app (tr tr' : list Event) : saves (tr ++ tr') = saves tr ++ saves tr'.
Proof. apply flat_map_app. Qed.

Lemma batches_app (tr tr' : list Event) :
  batches (tr ++ tr') = batches tr ++ batches tr'.
Proof. apply flat_map_app. Qed.

Lemma queried_app (tr tr' : list Event) :
  queried (tr ++ tr') = queried tr ++ queried tr'.
Proof. apply flat_map_app. Qed.

Section Cursor.

Variable w : World.
Hypothesis good : goodWorld w.

(** A turn of the loop adds the page of its query to the ids queried,
    and leaves the cursor alone or moves it to the last id of its
    batch. *)
Lemma turn_queried (f : Flags) (s : State) :
  let s' := stateOf (iteration w f s) in
  queried (trace s')
  = queried (trace s) ++ getIdsPage w (queries s) (cursor s) (BATCH f)
  /\ (cursor s' = cursor s
      \/ (batchOf w f s <> []
          /\ cursor s' = Some (last (batchOf w f s) []))).
Proof.
  cbv zeta. destruct (batchOf w f s) as [|x ids] eqn:B.
  - pose proof (iteration_cases w f s) as I. cbv zeta in I.
    rewrite B in I. rewrite I. unfold asked. simpl.
    rewrite queried_app. simpl. rewrite app_nil_r. auto.
  - assert (N : batchOf w f s <> []) by (rewrite B; discriminate).
    rewrite <- B.
    destruct (iteration_turn w f s N) as [[_ [_ I]]|[mid [s' H]]].
    + rewrite I. unfold log, asked. simpl.
      rewrite !queried_app. simpl. rewrite !app_nil_r. auto.
    + destruct H as [H0 [_ [H2 [_ [_ [_ [H6 [_ [_ [H9 _]]]]]]]]]].
      rewrite H0, H2, H9, !queried_app, H6. simpl. rewrite !app_nil_r. auto.
Qed.

Lemma turn_startsAfter (f : Flags) (l : jsstring) (s : State) :
  startsAfter w l s -> startsAfter w l (stateOf (iteration w f s)).
Proof.
  intros [[c [C1 [C2 C3]]] Q].
  destruct (turn_queried f s) as [T1 T2]. cbv zeta in T1, T2.
  assert (A : forall id,
            In id (getIdsPage w (queries s) (cursor s) (BATCH f)) ->
            id_lt w l id = true).
  { intros id Hid. apply (getIdsPage_spec w good) in Hid.
    destruct Hid as [_ [Hid _]]. rewrite C1, (above_Some w c id C2) in Hid.
    destruct C3 as [->|C3]; [exact Hid|].
    apply (id_lt_trans good _ c); assumption. }
  split.
  - destruct T2 as [T2|[N T2]]; rewrite T2.
    + exists c. auto.
    + destruct (last_batch w good f s N) as [H1 [_ [_ H4]]].
      exists (last (batchOf w f s) []). split; [reflexivity|].
      split; [apply plainId_nonempty, H4|]. right.
      apply A, batchOf_page, H1.
  - intros id Hid. rewrite T1 in Hid. apply in_app_or in Hid.
    destruct Hid as [Hid|Hid]; [apply Q, Hid|apply A, Hid].
Qed.

(** A run ends, in a break or stuck, in at most [S (length cards)]
    turns, and what every turn keeps holds of its last state. *)
Lemma harvest_ends (f : Flags) (file0 : option jsstring) (P : State -> Prop) :
  (forall s, P s -> P (stateOf (iteration w f s))) ->
  P {| processed := 0; found := 0; errors := 0;
       cursor := loadCursor f file0; file := file0; queries := 0;
       trace := [] |} ->
  exists s', (harvest w f file0 = Done s' \/ harvest w f file0 = Hung s')
             /\ P s'.
Proof.
  intros HP P0. unfold harvest.
  set (s0 := {| processed := 0; found := 0; errors := 0;
                cursor := loadCursor f file0; file := file0; queries := 0;
                trace := [] |}) in *.
  destruct (loop_ends w good f P) with (steps := S (length (cards w)))
    (s := s0) as [s1 [P1 E]].
  - intros s s' Ps I. pose proof (HP s Ps) as K. rewrite I in K. exact K.
  - exact P0.
  - pose proof (remaining_le w s0). lia.
  - pose proof (HP s1 P1) as K.
    destruct E as [[s' [I E]]|[s' [I E]]]; rewrite I in K; exists s'; auto.
Qed.

(** A run that loads the cursor [l] queries ids above [l] only. *)
Lemma later_run_above (f2 : Flags) (file2 : option jsstring) (l : jsstring) :
  l <> [] -> loadCursor f2 file2 = Some l ->
  exists s2,
    (harvest w f2 file2 = Done s2 \/ harvest w f2 file2 = Hung s2)
    /\ forall id, In id (queried (trace s2)) -> id_lt w l id = true.
Proof.
  intros N L.
  destruct (harvest_ends f2 file2 (startsAfter w l)) as [s2 [E [_ Q]]].
  - intros s. apply turn_startsAfter.
  - split; [|intros id []]. exists l. simpl. auto.
  - exists s2. auto.
Qed.

End Cursor.

(* ================================================================== *)
(** * The harvester: a dry run *)
(* ================================================================== *)

Section DryRun.

Variable w : World.
Hypothesis good : goodWorld w.
Variable f : Flags.
Hypothesis dry : DRY_RUN f = true.

Lemma turn_dryKeeps (file0 : option jsstring) (s : State) :
  dryKeeps w f file0 s ->
  exists s', iteration w f s <> Stuck s'
             /\ stateOf (iteration w f s) = s' /\ dryKeeps w f file0 s'.
Proof.
  intros [K1 [K2 [K3 [K4 [K5 [K6 K7]]]]]].
  destruct (batchOf w f s) as [|x ids] eqn:B.
  - pose proof (iteration_cases w f s) as I. cbv zeta in I.
    rewrite B in I. rewrite I. exists (asked w f s).
    split; [discriminate|]. split; [reflexivity|].
    unfold dryKeeps, asked. simpl.
    rewrite existsb_app, covered_app, saves_app, batches_app, fileAfter_app.
    simpl. rewrite ?app_nil_r, ?orb_false_r. auto 10.
  - assert (N : batchOf w f s <> []) by (rewrite B; discriminate).
    clear B x ids.
    destruct (iteration_turn w f s N) as [[D _]|[mid [s' H]]]; [congruence|].
    destruct H as [H0 [H1 [H2 [_ [_ [_ [_ [_ [H7 [H8 [H9 [_ [H11 _]]]]]]]]]]]]].
    destruct (H11 dry) as [-> [F1 F2]].
    exists s'. split; [destruct H1 as [H1|[H1 _]]; rewrite H1; discriminate|].
    split; [exact H0|].
    destruct (last_batch w good f s N) as [L1 [L2 [L3 L4]]].
    unfold dryKeeps.
    rewrite H2, !existsb_app, !covered_app, !saves_app, !batches_app,
      !fileAfter_app, H7, H8, H9, F1, F2, K1, K2, K3, K4, K5.
    simpl. rewrite !app_nil_r, length_app, map_app, rev_app_distr. simpl.
    repeat split; try reflexivity; try assumption.
    intros id Hid. apply in_app_or in Hid. destruct Hid as [Hid|Hid].
    + destruct (rev (saves (trace s))) as [|c r] eqn:R.
      * destruct K7 as [_ [_ K7]]. rewrite K7 in Hid. destruct Hid.
      * destruct K7 as [C1 [_ [C3 C4]]].
        pose proof (plainId_nonempty c (cards_plainId w good c C3)) as Nc.
        rewrite C1, (above_Some w c _ Nc) in L3.
        destruct (id_lt w (last (batchOf w f s) []) id) eqn:E; [|reflexivity].
        rewrite <- (C4 id Hid). symmetry.
        apply (id_lt_trans good _ _ _ L3 E).
    + apply (last_ascending w good); [apply batchOf_ascending, good|exact Hid].
Qed.

(** A turn of a dry run that has a batch: the page is asked for, the
    batch is announced, and the last id of the batch is written to the
    cursor file, with no request in between. *)
Lemma dry_turn (s : State) :
  batchOf w f s <> [] ->
  exists s',
    (iteration w f s = Continue s'
     \/ (iteration w f s = Break s'
         /\ 0 < LIMIT f /\ LIMIT f <= processed s'))
    /\ trace s'
       = trace s
         ++ [Queried (cursor s)
               (getIdsPage w (queries s) (cursor s) (BATCH f));
             Batch (batchOf w f s);
             Saved (last (batchOf w f s) [])]
    /\ processed s' = processed s + length (batchOf w f s)
    /\ found s' = found s /\ errors s' = errors s
    /\ cursor s' = Some (last (batchOf w f s) [])
    /\ file s' = saveCursor (last (batchOf w f s) [])
    /\ In (last (batchOf w f s) []) (batchOf w f s).
Proof.
  intros N.
  destruct (iteration_turn w f s N) as [[D _]|[mid [s' H]]]; [congruence|].
  destruct H as [H0 [H1 [H2 [_ [_ [_ [_ [_ [H7 [H8 [H9 [_ [H11 _]]]]]]]]]]]]].
  destruct (H11 dry) as [-> [F1 F2]].
  exists s'. split; [exact H1|]. split; [rewrite H2; reflexivity|].
  split; [exact H7|]. split; [exact F1|]. split; [exact F2|].
  split; [exact H8|]. split; [exact H9|]. apply last_In, N.
Qed.

(** The trace of a turn of a dry run begins with the trace before the
    turn. *)
Lemma dry_turn_extends (s : State) :
  exists more, trace (stateOf (iteration w f s)) = trace s ++ more.
Proof.
  destruct (batchOf w f s) as [|x ids] eqn:B.
  - pose proof (iteration_cases w f s) as I. cbv zeta in I.
    rewrite B in I. rewrite I. eexists. reflexivity.
  - assert (N : batchOf w f s <> []) by (rewrite B; discriminate).
    destruct (dry_turn s N) as [s' [I [T _]]].
    assert (E : stateOf (iteration w f s) = s').
    { destruct I as [I|[I _]]; rewrite I; reflexivity. }
    rewrite E, T. eexists. reflexivity.
Qed.

(** C10: a dry run dispatches no request and counts nothing, yet after
    each batch it writes the last id of the batch to the cursor file.
    Every turn that has a batch, the ids of the page cut to the limit,
    announces it and writes its last id, with no request in between,
    and the cursor and the file then hold this id.  The run ends; when
    its first page has a batch, this batch is the first of the run and
    the file is written; and a later run without [--startAfter] loads
    the id written last and queries only ids above every id the dry
    run covered. *)
Theorem dry_run_moves_the_cursor (file0 : option jsstring) :
  (forall s, batchOf w f s <> [] ->
     exists s',
       (iteration w f s = Continue s'
        \/ (iteration w f s = Break s'
            /\ 0 < LIMIT f /\ LIMIT f <= processed s'))
       /\ trace s'
          = trace s
            ++ [Queried (cursor s)
                  (getIdsPage w (queries s) (cursor s) (BATCH f));
                Batch (batchOf w f s);
                Saved (last (batchOf w f s) [])]
       /\ processed s' = processed s + length (batchOf w f s)
       /\ found s' = found s /\ errors s' = errors s
       /\ cursor s' = Some (last (batchOf w f s) [])
       /\ file s' = saveCursor (last (batchOf w f s) [])
       /\ In (last (batchOf w f s) []) (batchOf w f s))
  /\ exists s',
    harvest w f file0 = Done s'
    /\ existsb isDispatched (trace s') = false
    /\ found s' = 0 /\ errors s' = 0
    /\ processed s' = length (covered (trace s'))
    /\ saves (trace s') = map (fun ids => last ids []) (batches (trace s'))
    /\ fileAfter file0 (trace s') = file s'
    /\ (saves (trace s') = [] -> file s' = file0 /\ covered (trace s') = [])
    /\ (batchOf w f (initial f file0) <> [] ->
        saves (trace s') <> []
        /\ exists rest,
             batches (trace s') = batchOf w f (initial f file0) :: rest)
    /\ forall c, last (saves (trace s')) [] = c -> saves (trace s') <> [] ->
         cursor s' = Some c /\ file s' = saveCursor c
         /\ (forall id, In id (covered (trace s')) -> id_lt w c id = false)
         /\ forall f2, START_AFTER f2 = None ->
              loadCursor f2 (file s') = Some c
              /\ exists s2,
                   (harvest w f2 (file s') = Done s2
                    \/ harvest w f2 (file s') = Hung s2)
                   /\ forall id', In id' (queried (trace s2)) ->
                        forall id, In id (covered (trace s')) ->
                          id_lt w id id' = true.
Proof.
  split; [exact dry_turn|].
  unfold harvest. fold (initial f file0).
  set (s0 := initial f file0).
  set (b0 := batchOf w f s0).
  assert (K0 : dryKeeps w f file0 s0)
    by (unfold dryKeeps, s0, initial; simpl; auto 10).
  assert (First : forall s,
            s = s0 \/ (b0 <> [] -> exists rest, batches (trace s) = b0 :: rest) ->
            b0 <> [] ->
            exists rest,
              batches (trace (stateOf (iteration w f s))) = b0 :: rest).
  { intros s [->|Q] N.
    - destruct (dry_turn s0 N) as [s' [I [T _]]].
      assert (E : stateOf (iteration w f s0) = s').
      { destruct I as [I|[I _]]; rewrite I; reflexivity. }
      rewrite E, T. exists []. reflexivity.
    - destruct (Q N) as [rest R].
      destruct (dry_turn_extends s) as [more M].
      rewrite M, batches_app, R. eexists. reflexivity. }
  destruct (loop_ends w good f
              (fun s => dryKeeps w f file0 s
                        /\ (s = s0
                            \/ (b0 <> [] ->
                                exists rest, batches (trace s) = b0 :: rest))))
    with (steps := S (length (cards w))) (s := s0) as [s1 [[K1 Q1] E]].
  - intros s s' [Ks Qs] I.
    destruct (turn_dryKeeps file0 s Ks) as [s2 [_ [E K]]].
    rewrite I in E. simpl in E. subst s2. split; [exact K|].
    right. intros N. pose proof (First s Qs N) as F.
    rewrite I in F. exact F.
  - split; [exact K0|left; reflexivity].
  - pose proof (remaining_le w s0). lia.
  - destruct (turn_dryKeeps file0 s1 K1) as [s2 [NS [E2 K]]].
    destruct E as [[s' [I D]]|[s' [I _]]];
      [|rewrite I in E2; simpl in E2; subst s2; congruence].
    rewrite I in E2. simpl in E2. subst s2.
    pose proof (First s1 Q1) as F. rewrite I in F. cbn [stateOf] in F.
    clear K0 K1. exists s'. destruct K as [K1 [K2 [K3 [K4 [K5 [K6 K7]]]]]].
    split; [exact D|]. repeat (split; [assumption|]).
    split.
    + intros S. rewrite S in K7. simpl in K7. tauto.
    + split.
      * intros N. destruct (F N) as [rest R]. split; [|exists rest; exact R].
        rewrite K5, R. discriminate.
      * intros c C S.
        assert (R : exists r, rev (saves (trace s')) = c :: r).
        { destruct (exists_last S) as [r [c' R]]. rewrite R in C |- *.
          rewrite last_last in C. subst c'. rewrite rev_app_distr.
          eexists. reflexivity. }
        destruct R as [r R]. rewrite R in K7.
        destruct K7 as [C1 [C2 [C3 C4]]].
        pose proof (cards_plainId w good c C3) as Pc.
        repeat (split; [assumption|]).
        intros f2 S2. split; [rewrite C2; apply loadCursor_saved; assumption|].
        destruct (later_run_above w good f2 (file s') c) as [s2 [E2 Q]].
        -- apply plainId_nonempty, Pc.
        -- rewrite C2. apply loadCursor_saved; assumption.
        -- exists s2. split; [exact E2|]. intros id' Hid' id Hid.
           destruct (id_lt_between good c id id' (Q id' Hid')) as [B|B];
             [rewrite (C4 id Hid) in B; discriminate|exact B].
Qed.

End DryRun.

(** The dry run of the small world: it ends with no request sent and
    nothing counted, its first batch is the eleven ids of the table in
    ascending order, and the cursor file, which did not exist, holds
    the last of them. *)
Lemma dry_run_moves_the_cursor_witness :
  exists s',
    harvest sampleWorld (flagsWith 0 None None true) None = Done s'
    /\ existsb isDispatched (trace s') = false
    /\ found s' = 0 /\ errors s' = 0
    /\ saves (trace s') <> []
    /\ (exists rest,
          batches (trace s')
          = map lit ["1"; "2"; "3"; "7"; "10"; "20"; "21"; "22"; "23"; "24";
                     "25"]%string :: rest)
    /\ cursor s' = Some (lit "25")
    /\ file s' = Some (lit "25" ++ [NEWLINE]).
Proof.
  destruct (dry_run_moves_the_cursor sampleWorld sampleWorld_good
              (flagsWith 0 None None true) eq_refl None)
    as [_ [s' [E [H1 [H2 [H3 [_ [H5 [_ [_ [H8 H9]]]]]]]]]]].
  destruct H8 as [S [rest R]]; [vm_compute; discriminate|].
  assert (B : batchOf sampleWorld (flagsWith 0 None None true)
                (initial (flagsWith 0 None None true) None)
              = map lit ["1"; "2"; "3"; "7"; "10"; "20"; "21"; "22"; "23";
                         "24"; "25"]%string) by (vm_compute; reflexivity).
  rewrite B in R.
  assert (L : last (saves (trace s')) [] = lit "25").
  { assert (X : harvest sampleWorld (flagsWith 0 None None true) None
                = Done s') by exact E.
    vm_compute in X. inversion X. vm_compute. reflexivity. }
  destruct (H9 (lit "25") L S) as [C [F _]].
  exists s'. split; [exact E|]. split; [exact H1|]. split; [exact H2|].
  split; [exact H3|]. split; [exact S|]. split; [exists rest; exact R|].
  split; [exact C|exact F].
Defined.

(** The dry run of the small world: one batch of eleven ids, and the
    file holds the last of them. *)
Lemma harvest_sample_dry :
  exists s',
    harvest sampleWorld (flagsWith 0 None None true) None = Done s'
    /\ processed s' = 11 /\ saves (trace s') = [lit "25"]
    /\ file s' = Some (lit "25" ++ [NEWLINE]).
Proof. eexists. vm_compute. repeat split. Qed.

(* ================================================================== *)
(** * The harvester: the cursor and the batch *)
(* ================================================================== *)

(** C4, as the claim has it, fails: a later run given [--startAfter=1]
    while the file holds the cursor 3 queries the ids 2 and 3, which
    are not above the persisted cursor. *)
Lemma startAfter_overrides_the_cursor :
  let f2 := flagsWith 0 None (Some (lit "1")) false in
  loadCursor f2 (saveCursor (lit "3")) = Some (lit "1")
  /\ exists s2,
       harvest sampleWorld f2 (saveCursor (lit "3")) = Done s2
       /\ In (lit "2") (queried (trace s2))
       /\ ~ (forall id, In id (queried (trace s2)) ->
               id_lt sampleWorld (lit "3") id = true).
Proof.
  split; [reflexivity|]. eexists. split; [vm_compute; reflexivity|].
  assert (I : In (lit "2")
                (queried
                   (trace
                      (match harvest sampleWorld
                               (flagsWith 0 None (Some (lit "1")) false)
                               (saveCursor (lit "3")) with
                       | Done s | Hung s => s
                       | OutOfSteps =>
                           {| processed := 0; found := 0; errors := 0;
                              cursor := None; file := None; queries := 0;
                              trace := [] |}
                       end)))).
  { vm_compute. left. reflexivity. }
  vm_compute in I. split; [exact I|].
  intros H. specialize (H _ I). vm_compute in H. discriminate.
Qed.

Section Batches.

Variable w : World.
Hypothesis good : goodWorld w.
Variable f : Flags.

(** C4, amended: a turn of the loop that has a batch writes the cursor
    file once, as its last step, with the last id of the batch, when
    every request of the batch has settled and none is in flight (a
    turn whose pool never resolves writes nothing), so the file holds
    what it held before at every earlier point of the turn; and a later
    run that is not given [--startAfter] loads that id and queries,
    page after page in ascending order, only ids above it. *)
Theorem cursor_written_once_after_the_batch (s : State) :
  batchOf w f s <> [] ->
  ((iteration w f s = Stuck (stateOf (iteration w f s))
    /\ file (stateOf (iteration w f s)) = file s
    /\ exists new, trace (stateOf (iteration w f s)) = trace s ++ new
                   /\ saves new = [])
   \/ exists pre s',
        stateOf (iteration w f s) = s'
        /\ (iteration w f s = Continue s' \/ iteration w f s = Break s')
        /\ trace s' = trace s ++ pre ++ [Saved (last (batchOf w f s) [])]
        /\ saves pre = []
        /\ inFlightAfter pre = 0
        /\ (DRY_RUN f = false ->
            forall id, In id (batchOf w f s) -> In (SettledOne id) pre)
        /\ cursor s' = Some (last (batchOf w f s) [])
        /\ file s' = saveCursor (last (batchOf w f s) [])
        /\ (forall q r,
              pre ++ [Saved (last (batchOf w f s) [])] = q ++ r -> r <> [] ->
              fileAfter (file s) q = file s)
        /\ fileAfter (file s) (pre ++ [Saved (last (batchOf w f s) [])])
           = file s')
  /\ forall f2, START_AFTER f2 = None ->
       loadCursor f2 (saveCursor (last (batchOf w f s) []))
       = Some (last (batchOf w f s) [])
       /\ (forall n after limit, ascending w (getIdsPage w n after limit))
       /\ exists s2,
            (harvest w f2 (saveCursor (last (batchOf w f s) [])) = Done s2
             \/ harvest w f2 (saveCursor (last (batchOf w f s) [])) = Hung s2)
            /\ forall id, In id (queried (trace s2)) ->
                 id_lt w (last (batchOf w f s) []) id = true.
Proof.
  intros N. set (l := last (batchOf w f s) []).
  destruct (last_batch w good f s N) as [_ [_ [_ Pl]]]. fold l in Pl.
  split.
  - destruct (iteration_turn w f s N) as [[_ [_ I]]|[mid [s' H]]].
    + left. rewrite I. simpl. split; [reflexivity|]. split; [reflexivity|].
      eexists. rewrite <- app_assoc. split; reflexivity.
    + right.
      destruct H as [H0 [H1 [H2 [_ [H4 [_ [_ [H7 [_ [H9 [H10 [_ [_ H13]]]]]]]]]]]]].
      fold l in H2, H9, H10.
      set (page := getIdsPage w (queries s) (cursor s) (BATCH f)) in *.
      exists ([Queried (cursor s) page] ++ [Batch (batchOf w f s)] ++ mid), s'.
      assert (S : saves ([Queried (cursor s) page]
                         ++ [Batch (batchOf w f s)] ++ mid) = [])
        by (rewrite !saves_app, H4; reflexivity).
      split; [exact H0|]. split; [tauto|].
      split; [rewrite H2, <- !app_assoc; reflexivity|].
      split; [exact S|]. split; [exact H7|].
      split; [intros D id Hid; right; right; apply (H13 D), Hid|].
      split; [exact H9|]. split; [exact H10|]. split.
      * intros q r E R.
        destruct (snoc_split q r _ _ E) as [[R' _]|[r' [_ E']]]; [congruence|].
        rewrite E', saves_app in S. apply app_eq_nil in S.
        apply fileAfter_quiet, S.
      * rewrite fileAfter_app, (fileAfter_quiet _ _ S), H10. reflexivity.
  - intros f2 S2. split; [apply loadCursor_saved; assumption|].
    split; [intros n after limit; apply (getIdsPage_spec w good)|].
    apply (later_run_above w good).
    + apply plainId_nonempty, Pl.
    + apply loadCursor_saved; assumption.
Qed.

End Batches.

Lemma cursor_written_once_after_the_batch_witness :
  exists s2,
    (harvest sampleWorld (flagsWith 0 None None false)
       (saveCursor (lit "25")) = Done s2
     \/ harvest sampleWorld (flagsWith 0 None None false)
          (saveCursor (lit "25")) = Hung s2)
    /\ forall id, In id (queried (trace s2)) ->
         id_lt sampleWorld (lit "25") id = true.
Proof.
  assert (N : batchOf sampleWorld (flagsWith 0 None None false)
                {| processed := 0; found := 0; errors := 0; cursor := None;
                   file := None; queries := 0; trace := [] |} <> [])
    by discriminate.
  destruct (cursor_written_once_after_the_batch sampleWorld sampleWorld_good
              (flagsWith 0 None None false) _ N) as [_ H].
  destruct (H (flagsWith 0 None None false) eq_refl) as [_ [_ H3]].
  exact H3.
Defined.
End HarvesterFacts.

(* ================================================================== *)
(** * More about the money parser and the rates *)
(* ================================================================== *)

Module PricingMore.

(** X1: the parser of the snapshot script and the parser of
    [pricing.ts] give the same answer on every input, [null] and the
    empty string included. *)
Theorem parsers_agree (raw : option jsstring) :
  Snapshot.parseMoneyToNumber raw = Pricing.parseMoneyToNumber raw.
Proof.
  destruct raw as [[|c r]|]; reflexivity.
Qed.

(** X2: white space, commas and the currency signs carry no meaning:
    two texts that are not blank and are the same once these characters
    are left out parse to the same number. *)
Theorem parseMoneyToNumber_ignores_symbols (raw1 raw2 : jsstring) :
  trim raw1 <> [] -> trim raw2 <> [] ->
  removeAll symbolClass raw1 = removeAll symbolClass raw2 ->
  parseMoneyToNumber (Some raw1) = parseMoneyToNumber (Some raw2).
Proof.
  intros T1 T2 E. rewrite !parseMoneyToNumber_unfold, E.
  destruct (trim raw1); [congruence|].
  destruct (trim raw2); [congruence|]. reflexivity.
Qed.

Lemma parseMoneyToNumber_ignores_symbols_witness :
  parseMoneyToNumber (Some (lit "$ 1,5")) = parseMoneyToNumber (Some (lit "15")).
Proof.
  apply (parseMoneyToNumber_ignores_symbols (lit "$ 1,5") (lit "15"));
    [discriminate|discriminate|reflexivity].
Defined.

(** X3: a text that is not blank and holds nothing but commas and
    currency signs is read as the price 0, not as a missing price. *)
Theorem parseMoneyToNumber_symbols_only (raw : jsstring) :
  trim raw <> [] -> removeAll symbolClass raw = [] ->
  parseMoneyToNumber (Some raw) = Some (S754_zero false).
Proof.
  intros T E. rewrite parseMoneyToNumber_unfold, E.
  destruct (trim raw); [congruence|]. reflexivity.
Qed.

Lemma parseMoneyToNumber_symbols_only_witness :
  parseMoneyToNumber (Some [DOLLAR]) = Some (S754_zero false).
Proof.
  apply (parseMoneyToNumber_symbols_only [DOLLAR]);
    [discriminate|reflexivity].
Defined.

(** X4: [getFx] gives both rates or neither: one rate is [null] exactly
    when the other is, and that is exactly when neither variable holds
    a finite number above 0. *)
Theorem getFx_both_or_neither (env : Env) :
  let valid raw := isFinite (parseRate raw) && lt (of_Z 0) (parseRate raw) in
  (usdToEur (getFx env) = None <-> eurToUsd (getFx env) = None)
  /\ (usdToEur (getFx env) = None
      <-> valid (FX_USD_EUR env) || valid (FX_EUR_USD env) = false).
Proof.
  cbv zeta. unfold getFx.
  destruct (isFinite (parseRate (FX_USD_EUR env))
            && lt (of_Z 0) (parseRate (FX_USD_EUR env)));
    destruct (isFinite (parseRate (FX_EUR_USD env))
              && lt (of_Z 0) (parseRate (FX_EUR_USD env)));
    cbn [usdToEur eurToUsd orb]; repeat split; intros; congruence.
Qed.

Lemma getFx_both_or_neither_witness :
  eurToUsd (getFx {| FX_USD_EUR := Some (lit "abc"); FX_EUR_USD := None |})
  = None.
Proof.
  apply (proj1 (proj1 (getFx_both_or_neither
                         {| FX_USD_EUR := Some (lit "abc");
                            FX_EUR_USD := None |}))).
  reflexivity.
Defined.

Section Latest.

Variable Date_parse : jsstring -> number.

Lemma ge_refl (x : number) : isFinite x = true -> ge x x = true.
Proof.
  unfold ge, SFleb. destruct x as [s|s| |s m e]; try discriminate; intros _.
  - reflexivity.
  - simpl. destruct s; rewrite Z.compare_refl, Pos.compare_cont_refl; reflexivity.
Qed.

Lemma ge_total (x y : number) :
  isFinite x = true -> isFinite y = true -> ge x y = false -> ge y x = true.
Proof.
  unfold ge, SFleb. intros Fx Fy. rewrite (SFcompare_antisym x y).
  destruct (SFcompare x y) as [[| |]|] eqn:C; simpl; try congruence.
  destruct x as [s|s| |s m e], y as [s'|s'| |s' m' e']; try discriminate;
    simpl in C; discriminate.
Qed.

Lemma timeOf_finite (a : option jsstring) :
  isFinite (timeOf Date_parse a) = true -> truthyText a = true.
Proof. destruct a as [[|c r]|]; simpl; congruence. Qed.

(** X5: [pickLatestTimestamp] answers [null] only when both texts are
    missing or empty; otherwise it answers one of the two texts, never
    an empty one, and when a text has a time that [Date.parse] can
    read, the answer has such a time too, at or after that of either
    text. *)
Theorem pickLatestTimestamp_latest (a b : option jsstring) :
  let r := pickLatestTimestamp Date_parse a b in
  (r = None <-> truthyText a = false /\ truthyText b = false)
  /\ (r <> None -> (r = a \/ r = b) /\ truthyText r = true)
  /\ (forall x, x = a \/ x = b ->
        isFinite (timeOf Date_parse x) = true ->
        isFinite (timeOf Date_parse r) = true
        /\ ge (timeOf Date_parse r) (timeOf Date_parse x) = true).
Proof.
  cbv zeta. unfold pickLatestTimestamp.
  destruct (isFinite (timeOf Date_parse a)) eqn:Fa;
    destruct (isFinite (timeOf Date_parse b)) eqn:Fb; cbn [andb].
  - pose proof (timeOf_finite a Fa) as Ta.
    pose proof (timeOf_finite b Fb) as Tb.
    destruct (ge (timeOf Date_parse a) (timeOf Date_parse b)) eqn:G.
    + split; [|split].
      * split; [intros ->; discriminate|intros [H _]; congruence].
      * intros _. auto.
      * intros x [->| ->] _; split; auto using ge_refl.
    + split; [|split].
      * split; [intros ->; discriminate|intros [_ H]; congruence].
      * intros _. auto.
      * intros x [->| ->] _; split; auto using ge_refl, ge_total.
  - pose proof (timeOf_finite a Fa) as Ta.
    split; [|split].
    + split; [intros ->; discriminate|intros [H _]; congruence].
    + intros _. auto.
    + intros x [->| ->] F; [|congruence]. split; auto using ge_refl.
  - pose proof (timeOf_finite b Fb) as Tb.
    split; [|split].
    + split; [intros ->; discriminate|intros [_ H]; congruence].
    + intros _. auto.
    + intros x [->| ->] F; [congruence|]. split; auto using ge_refl.
  - unfold orElse.
    split; [|split].
    + destruct (truthyText a) eqn:Ta.
      * split; [intros ->; discriminate|intros [H _]; congruence].
      * destruct (truthyText b) eqn:Tb.
        -- split; [intros ->; discriminate|intros [_ H]; congruence].
        -- split; auto.
    + destruct (truthyText a) eqn:Ta; [auto|].
      destruct (truthyText b) eqn:Tb; [auto|]. congruence.
    + intros x [->| ->] F; congruence.
Qed.

End Latest.

Lemma pickLatestTimestamp_latest_witness :
  truthyText
    (pickLatestTimestamp (fun s => of_nat (length s)) (Some (lit "ab"))
       (Some (lit "abc"))) = true.
Proof.
  destruct (pickLatestTimestamp_latest (fun s => of_nat (length s))
              (Some (lit "ab")) (Some (lit "abc"))) as [_ [H _]].
  apply H. vm_compute. discriminate.
Defined.

Section YgoBlocks.

Variable formatMoney : number -> Currency -> jsstring.

Lemma maybeFormat_shown (env : Env) (v : option jsstring) (source : Currency)
  (d : DisplayCurrency) :
  match maybeFormat formatMoney env v source d with
  | Some _ => true
  | None => false
  end = parses v.
Proof.
  unfold maybeFormat, parses. destruct (parseMoneyToNumber v); [|reflexivity].
  destruct d as [|d]; [reflexivity|].
  destruct (Currency_eqb d source); [reflexivity|].
  destruct (convert env n source d); reflexivity.
Qed.

(** X6: the markets [loadYgoPrices] shows are those whose price text
    parses, in the fixed order of the five markets, whatever the
    display currency and the rates are; every block shown has one row,
    with a price in it; and [hasAnyPrice] tells whether some price text
    parses.  Without a row of the table nothing is shown. *)
Theorem loadYgoPrices_shows_what_parses (env : Env) (p : YgoPriceRow)
  (d : DisplayCurrency) :
  let out := loadYgoPrices formatMoney env (Some p) d in
  map Pricing.market (blocks out)
  = filter (fun m => parses (priceOf p m)) allMarkets
  /\ hasAnyPrice out = existsb (fun m => parses (priceOf p m)) allMarkets
  /\ Forall (fun b => exists v, rows b = [ {| label := lit "Price";
                                              value := Some v |} ])
       (blocks out)
  /\ Pricing.display out = d
  /\ blocks (loadYgoPrices formatMoney env None d) = []
  /\ hasAnyPrice (loadYgoPrices formatMoney env None d) = false.
Proof.
  cbv zeta. unfold loadYgoPrices, allMarkets.
  cbn [blocks hasAnyPrice Pricing.display filter existsb priceOf someValue rows
       value orb].
  pose proof (maybeFormat_shown env (Pricing.tcgplayer_price p) USD d) as H1.
  pose proof (maybeFormat_shown env (Pricing.cardmarket_price p) EUR d) as H2.
  pose proof (maybeFormat_shown env (Pricing.ebay_price p) USD d) as H3.
  pose proof (maybeFormat_shown env (Pricing.amazon_price p) USD d) as H4.
  pose proof (maybeFormat_shown env (Pricing.coolstuffinc_price p) USD d) as H5.
  destruct (maybeFormat formatMoney env (Pricing.tcgplayer_price p) USD d);
  destruct (maybeFormat formatMoney env (Pricing.cardmarket_price p) EUR d);
  destruct (maybeFormat formatMoney env (Pricing.ebay_price p) USD d);
  destruct (maybeFormat formatMoney env (Pricing.amazon_price p) USD d);
  destruct (maybeFormat formatMoney env (Pricing.coolstuffinc_price p) USD d);
  rewrite <- H1, <- H2, <- H3, <- H4, <- H5;
  cbn [map Pricing.market orb length Nat.eqb negb];
  (split; [reflexivity|]); (split; [reflexivity|]);
  (split; [repeat constructor; eexists; reflexivity|]); auto.
Qed.

End YgoBlocks.

End PricingMore.

(* ================================================================== *)
(** * More about the history route and the pages *)
(* ================================================================== *)

Module RouteFacts.

Lemma trimStart_plain (s : jsstring) :
  (forall c, In c s -> isWhiteSpace c = false) -> trimStart s = s.
Proof.
  destruct s as [|x s]; [reflexivity|]. intros H. simpl.
  rewrite (H x (or_introl eq_refl)). reflexivity.
Qed.

Lemma trim_plain (s : jsstring) :
  (forall c, In c s -> isWhiteSpace c = false) -> trim s = s.
Proof.
  intros H. unfold trim, trimEnd. rewrite (trimStart_plain s H).
  rewrite trimStart_plain; [apply rev_involutive|].
  intros c Hc. apply H, in_rev, Hc.
Qed.

Lemma symbolClass_not_white (c : N) :
  symbolClass c = false -> isWhiteSpace c = false.
Proof.
  unfold symbolClass. destruct (isWhiteSpace c); [discriminate|reflexivity].
Qed.

(** X7: the three readers of a price text, [parseMoneyToNumber] of
    [pricing.ts], [num] of the history route and [asNum] of the prices
    page, give the same answer on a text that is not empty and has no
    white space, comma or currency sign; [asNum] and [num] differ on
    the empty string only, which [num] reads as 0. *)
Theorem readers_agree :
  (forall s : jsstring,
     s <> [] -> (forall c, In c s -> symbolClass c = false) ->
     parseMoneyToNumber (Some s) = num (Some s)
     /\ PricesPage.asNum (Some s) = num (Some s))
  /\ (forall v, v <> Some [] -> PricesPage.asNum v = num v)
  /\ num (Some []) = Some (S754_zero false)
  /\ PricesPage.asNum (Some []) = None
  /\ parseMoneyToNumber (Some []) = None.
Proof.
  split; [|split; [|repeat split]].
  - intros s N H. split.
    + rewrite parseMoneyToNumber_unfold.
      rewrite trim_plain by (intros c Hc; apply symbolClass_not_white, H, Hc).
      rewrite (removeAll_none _ _ H).
      destruct s; [congruence|]. reflexivity.
    + destruct s; [congruence|]. reflexivity.
  - intros [[|c s]|] N; try reflexivity. congruence.
Qed.

Lemma readers_agree_witness :
  parseMoneyToNumber (Some (lit "12.5")) = num (Some (lit "12.5"))
  /\ PricesPage.asNum (Some (lit "12.5")) = num (Some (lit "12.5")).
Proof.
  apply (proj1 readers_agree (lit "12.5")); [discriminate|].
  intros c Hc. simpl in Hc.
  repeat (destruct Hc as [<-|Hc]; [reflexivity|]). destruct Hc.
Defined.

(** X8: converting for display never hides a value: [convMaybe] gives
    [null] for [null] only, gives the value itself for the native
    display and for the currency the value is in, and otherwise the
    converted value or, without a rate, the value itself; [conv] of the
    prices page is the same function. *)
Theorem convMaybe_keeps (env : Env) (n : option number) (from : Currency)
  (d : DisplayCurrency) :
  (convMaybe env n from d = None <-> n = None)
  /\ convMaybe env n from NATIVE = n
  /\ convMaybe env n from (Display from) = n
  /\ (forall x to, n = Some x -> d = Display to ->
        convMaybe env n from d
        = match convert env x from to with
          | Some y => Some y
          | None => Some x
          end)
  /\ PricesPage.conv env d n from = convMaybe env n from d.
Proof.
  unfold convMaybe, PricesPage.conv. repeat split.
  - destruct n as [x|]; [|reflexivity]. destruct d as [|to]; [discriminate|].
    destruct (convert env x from to); discriminate.
  - intros ->. reflexivity.
  - destruct n; reflexivity.
  - destruct n as [x|]; [|reflexivity]. unfold convert.
    rewrite (proj2 (Currency_eqb_eq from from) eq_refl). reflexivity.
  - intros x to -> ->. destruct (convert env x from to); reflexivity.
Qed.

Lemma convMaybe_keeps_witness :
  convMaybe {| FX_USD_EUR := None; FX_EUR_USD := None |} (Some n15)
    USD (Display EUR) = Some n15.
Proof.
  destruct (convMaybe_keeps {| FX_USD_EUR := None; FX_EUR_USD := None |}
              (Some n15) USD (Display EUR)) as [_ [_ [_ [H _]]]].
  rewrite (H n15 EUR eq_refl eq_refl). reflexivity.
Defined.

Section YgoSeries.

Variable Date_parse : jsstring -> number.
Variable toISOString : number -> jsstring.
Variable env : Env.
Variable rows : list YgoHistoryRow.
Variable d : DisplayCurrency.
Variable marketsFilter : option (list jsstring).
Variable keysFilter : option (list jsstring).

Lemma add_keys (out : list Series) (i m k : jsstring)
  (column : YgoHistoryRow -> option jsstring) (cur : Currency) :
  map (fun s => (History.key s, nativeCurrency s))
    (History.add Date_parse toISOString env rows d keysFilter out i m k
       column cur)
  = map (fun s => (History.key s, nativeCurrency s)) out
    ++ if match keysFilter with Some ks => has k ks | None => true end
       then [(k, cur)] else [].
Proof.
  unfold History.add. destruct keysFilter as [ks|].
  - destruct (has k ks); cbn [negb].
    + rewrite map_app. reflexivity.
    + rewrite app_nil_r. reflexivity.
  - rewrite map_app. reflexivity.
Qed.

Lemma convMaybe_kept (n : option number) (cur : Currency) :
  match n with Some x => isFinite x = true | None => True end ->
  pointKept {| History.t := None; native := n;
               History.display := convMaybe env n cur d |} = true.
Proof.
  unfold pointKept, convMaybe. cbn [native History.display].
  destruct n as [x|]; [|reflexivity]. intros F.
  destruct d as [|to]; [exact F|].
  destruct (convert env x cur to); exact F.
Qed.

Lemma num_finite (v : option jsstring) :
  match num v with Some x => isFinite x = true | None => True end.
Proof.
  unfold num. destruct v as [s|]; [|exact I].
  destruct (isFinite (Number s)) eqn:F; [exact F|exact I].
Qed.

Lemma add_shaped (out : list Series) (i m k : jsstring)
  (column : YgoHistoryRow -> option jsstring) (cur : Currency) :
  Forall (shaped Date_parse toISOString rows d) out ->
  Forall (shaped Date_parse toISOString rows d)
    (History.add Date_parse toISOString env rows d keysFilter out i m k
       column cur).
Proof.
  intros H. unfold History.add.
  destruct (match keysFilter with
            | Some ks => negb (has k ks)
            | None => false
            end); [exact H|].
  apply Forall_app. split; [exact H|]. constructor; [|constructor].
  unfold shaped. cbn [points]. rewrite !map_map, length_map. cbn [History.t].
  split; [reflexivity|]. split; [reflexivity|]. split.
  - apply forallb_forall. intros p Hp. apply in_map_iff in Hp.
    destruct Hp as [r [<- _]].
    pose proof (convMaybe_kept (num (column r)) cur (num_finite _)) as K.
    unfold pointKept in *. exact K.
  - intros ->. apply map_ext. intros r. cbn [History.display native].
    unfold convMaybe. destruct (num (column r)); reflexivity.
Qed.

(** X9: [loadYgoSeries] gives the series the two filters let through,
    in the fixed order of the five markets and each with the currency
    of its column; every series has one point for each row of the
    history, in the order of the rows; a point has a display value
    exactly when it has a native one, which is a finite number; and
    with the native display the two are the same. *)
Theorem loadYgoSeries_shape :
  let out :=
    loadYgoSeries Date_parse toISOString env rows d marketsFilter
      keysFilter in
  map (fun s => (History.key s, nativeCurrency s)) out
  = map (fun e => (snd (fst e), snd e))
      (filter (allowed marketsFilter keysFilter) ygoSeries)
  /\ Forall (shaped Date_parse toISOString rows d) out.
Proof.
  cbv zeta. split.
  - unfold loadYgoSeries, want, ygoSeries, allowed.
    cbn [filter].
    destruct marketsFilter as [ms|];
      repeat match goal with
             | |- context [has ?a ms] => destruct (has a ms)
             end;
      rewrite ?add_keys; cbn [map app andb];
      destruct keysFilter as [ks|];
      repeat match goal with
             | |- context [has ?a ks] => destruct (has a ks)
             end;
      reflexivity.
  - unfold loadYgoSeries.
    repeat first
      [ apply add_shaped
      | match goal with
        | |- Forall _ (if ?c then _ else _) => destruct c
        end ];
      constructor.
Qed.

End YgoSeries.

Lemma loadYgoSeries_shape_witness :
  map (fun s => (History.key s, nativeCurrency s))
    (loadYgoSeries (fun _ => NaN) (fun _ => [])
       {| FX_USD_EUR := None; FX_EUR_USD := None |} [] NATIVE
       (Some [lit "ebay"; lit "amazon"]) (Some [lit "ebay_price"]))
  = [(lit "ebay_price", USD)].
Proof.
  rewrite (proj1 (loadYgoSeries_shape (fun _ => NaN) (fun _ => [])
                    {| FX_USD_EUR := None; FX_EUR_USD := None |} [] NATIVE
                    (Some [lit "ebay"; lit "amazon"])
                    (Some [lit "ebay_price"]))).
  reflexivity.
Defined.

End RouteFacts.

(* ================================================================== *)
(** * The ids of the compare page *)
(* ================================================================== *)

Module CompareFacts.
Import ComparePage.

Lemma eqb_eq (a b : jsstring) : eqb a b = true <-> a = b.
Proof.
  unfold eqb. destruct (list_eq_dec N.eq_dec a b); split; congruence.
Qed.

Lemma has_In (x : jsstring) (l : list jsstring) : has x l = true <-> In x l.
Proof.
  unfold has. rewrite existsb_exists. split.
  - intros [y [Hy E]]. apply eqb_eq in E. subst. exact Hy.
  - intros H. exists x. split; [exact H|apply eqb_eq; reflexivity].
Qed.

Lemma splitRuns_clean (sep : N -> bool) (s cur : jsstring) (inRun : bool)
  (piece : jsstring) :
  (forall c, In c cur -> sep c = false) ->
  In piece (splitRuns sep s cur inRun) ->
  forall c, In c piece -> sep c = false.
Proof.
  revert cur inRun. induction s as [|x s IH]; intros cur inRun H; simpl.
  - intros [<-|[]] c Hc. apply H, in_rev, Hc.
  - destruct (sep x) eqn:X.
    + destruct inRun.
      * apply IH, H.
      * intros [<-|Hp].
        -- intros c Hc. apply H, in_rev, Hc.
        -- revert Hp. apply IH. intros c [].
    + apply IH. intros c [<-|Hc]; [exact X|apply H, Hc].
Qed.

Lemma separator_white (c : N) : separator c = false -> isWhiteSpace c = false.
Proof.
  unfold separator. destruct (isWhiteSpace c); [discriminate|reflexivity].
Qed.

Lemma trimStart_clean (s : jsstring) :
  (forall c, In c s -> isWhiteSpace c = false) -> trimStart s = s.
Proof.
  destruct s as [|x s]; [reflexivity|]. intros H. simpl.
  rewrite (H x (or_introl eq_refl)). reflexivity.
Qed.

Lemma trim_clean (s : jsstring) :
  (forall c, In c s -> isWhiteSpace c = false) -> trim s = s.
Proof.
  intros H. unfold trim, trimEnd. rewrite (trimStart_clean s H).
  rewrite trimStart_clean; [apply rev_involutive|].
  intros c Hc. apply H, in_rev, Hc.
Qed.

(** The loop keeps the ids it has, adds each new part once, in the
    order of the parts, and stops at a hundred. *)
Lemma dedupe_spec (parts seen out : list jsstring) :
  (forall x, In x seen <-> In x out) -> NoDup out -> length out < 100 ->
  let r := dedupe parts seen out in
  NoDup r /\ length r <= 100
  /\ (forall x, In x out -> In x r)
  /\ (forall x, In x r -> In x out \/ In x parts)
  /\ (length r < 100 -> forall x, In x parts -> In x r).
Proof.
  revert seen out. induction parts as [|p parts IH]; intros seen out S N L.
  - simpl. repeat split; auto with arith. intros _ x [].
  - cbn [dedupe]. destruct (has p seen) eqn:Hp; cbn [negb].
    + destruct (IH seen out S N L) as [A [B [M [C D]]]].
      split; [exact A|]. split; [exact B|]. split; [exact M|]. split.
      * intros x Hx. destruct (C x Hx); [left|right; right]; assumption.
      * intros Lr x [<-|Hx]; [|apply D; assumption].
        apply M, S, has_In, Hp.
    + assert (Np : ~ In p out).
      { intros H. apply S, has_In in H. congruence. }
      assert (N' : NoDup (out ++ [p])).
      { apply NoDup_app; [exact N|repeat constructor; intros []|].
        intros x Hx [<-|[]]. exact (Np Hx). }
      destruct (100 <=? length (out ++ [p])) eqn:T.
      * split; [exact N'|]. split.
        { rewrite length_app. simpl. lia. }
        split.
        { intros x Hx. apply in_or_app. left. exact Hx. }
        split.
        { intros x Hx. apply in_app_or in Hx.
          destruct Hx as [Hx|[<-|[]]]; [left; exact Hx|right; left; reflexivity]. }
        { intros Lr. apply Nat.leb_le in T. lia. }
      * apply Nat.leb_gt in T.
        destruct (IH (p :: seen) (out ++ [p])) as [A [B [M [C D]]]].
        { intros x. simpl. rewrite in_app_iff, S. simpl. tauto. }
        { exact N'. }
        { exact T. }
        split; [exact A|]. split; [exact B|]. split.
        { intros x Hx. apply M, in_or_app. left. exact Hx. }
        split.
        { intros x Hx. destruct (C x Hx) as [H|H].
          - apply in_app_or in H.
            destruct H as [H|[<-|[]]]; [left; exact H|right; left; reflexivity].
          - right; right; exact H. }
        { intros Lr x [<-|Hx]; [|apply D; assumption].
          apply M, in_or_app. right. left. reflexivity. }
Qed.

(** X10: the ids [parseIds] gives are distinct and at most a hundred;
    each is a piece of the text between runs of white space and commas,
    is not empty and has no white space or comma in it; and when fewer
    than a hundred come out, every such piece is among them.  A missing
    or empty text gives no id. *)
Theorem parseIds_ids (raw : option jsstring) :
  let ids := parseIds raw in
  NoDup ids /\ length ids <= 100
  /\ (forall id, In id ids ->
        id <> [] /\ (forall c, In c id -> separator c = false)
        /\ exists s, raw = Some s /\ In id (split separator s))
  /\ (length ids < 100 ->
      forall s id, raw = Some s -> In id (split separator s) -> id <> [] ->
        In id ids)
  /\ (truthyText raw = false -> ids = []).
Proof.
  cbv zeta. destruct raw as [[|c0 r0]|].
  1, 3: simpl; split; [constructor|]; split; [auto with arith|];
        (split; [intros ? []|]); (split; [|reflexivity]);
        intros _ s id E; inversion E; subst; simpl; intros [<-|[]]; congruence.
  set (s := c0 :: r0). unfold parseIds. fold s. cbv zeta.
  assert (P : filter nonEmpty (map trim (split separator s))
              = filter nonEmpty (split separator s)).
  { f_equal. rewrite <- (map_id (split separator s)) at 2.
    apply map_ext_in. intros piece Hp. apply trim_clean.
    intros c Hc. apply separator_white.
    apply (splitRuns_clean separator s [] false piece); auto.
    intros ? []. }
  rewrite P.
  destruct (dedupe_spec (filter nonEmpty (split separator s)) [] [])
    as [A [B [_ [C D]]]].
  { tauto. } { constructor. } { simpl. lia. }
  split; [exact A|]. split; [exact B|]. split; [|split].
  - intros id Hid. destruct (C id Hid) as [[]|H].
    apply filter_In in H. destruct H as [H E].
    split; [destruct id; [discriminate|discriminate]|].
    split.
    + apply (splitRuns_clean separator s [] false id); auto. intros ? [].
    + exists s. split; [reflexivity|exact H].
  - intros Lr s' id E Hid Ne. inversion E; subst s'.
    apply D; [exact Lr|]. apply filter_In. split; [exact Hid|].
    destruct id; [congruence|reflexivity].
  - discriminate.
Qed.

Lemma parseIds_ids_witness :
  In (lit "b") (parseIds (Some (lit " a,b ,, a"))).
Proof.
  destruct (parseIds_ids (Some (lit " a,b ,, a"))) as [_ [_ [_ [H _]]]].
  apply (H ltac:(vm_compute; lia) (lit " a,b ,, a") (lit "b") eq_refl).
  - vm_compute. right. right. left. reflexivity.
  - discriminate.
Defined.

End CompareFacts.

(* ================================================================== *)
(** * More about the harvester *)
(* ================================================================== *)

Module HarvesterMore.
Import Harvester HarvesterFacts.

(** ** The command line *)

Lemma indexOf_app (c : N) (k v : jsstring) :
  indexOf c k = None -> indexOf c (k ++ c :: v) = Some (length k).
Proof.
  induction k as [|x k IH]; simpl.
  - rewrite N.eqb_refl. reflexivity.
  - destruct (x =? c)%N; [discriminate|].
    destruct (indexOf c k); [discriminate|]. intros _. rewrite IH; reflexivity.
Qed.

Lemma indexOf_None (c : N) (s : jsstring) :
  indexOf c s = None <-> ~ In c s.
Proof.
  induction s as [|x s IH]; simpl; [tauto|].
  destruct (x =? c)%N eqn:E.
  - apply N.eqb_eq in E. split; [discriminate|]. intros H. destruct H. auto.
  - apply N.eqb_neq in E. destruct (indexOf c s).
    + split; [discriminate|]. intros H. exfalso.
      destruct IH as [_ IH].
      assert (X : ~ In c s) by tauto. specialize (IH X). discriminate.
    + split; [|reflexivity]. intros _ [H|H]; [congruence|].
      apply (proj1 IH eq_refl H).
Qed.

(** X11: how an argument is read.  With an equals sign in it, the key
    is what stands between the first two characters, whatever they
    are, and the first equals sign, and the value is all that follows;
    without one, the value is the text ["true"] and the key is the
    argument less its two leading hyphens, if it has them. *)
Theorem entry_reads :
  (forall (a b : N) (k v : jsstring),
     a <> EQUALS -> b <> EQUALS -> indexOf EQUALS k = None ->
     entry (a :: b :: k ++ EQUALS :: v) = (k, v))
  /\ (forall k : jsstring,
        indexOf EQUALS k = None ->
        entry (HYPHEN :: HYPHEN :: k) = (k, lit "true"))
  /\ (forall s : jsstring,
        indexOf EQUALS s = None -> stripDashes s = s ->
        entry s = (s, lit "true")).
Proof.
  split; [|split].
  - intros a b k v Ha Hb Hk. unfold entry.
    change (a :: b :: k ++ EQUALS :: v) with ([a; b] ++ k ++ EQUALS :: v).
    rewrite app_assoc, indexOf_app.
    + unfold slice. set (L := [a; b] ++ k). f_equal.
      * rewrite firstn_app, Nat.sub_diag, firstn_all. simpl firstn.
        rewrite app_nil_r. reflexivity.
      * rewrite skipn_app, skipn_all2 by lia.
        replace (S (length L) - length L) with 1 by lia. reflexivity.
    + apply indexOf_None. rewrite indexOf_None in Hk.
      simpl. intros [H|[H|H]]; auto.
  - intros k Hk. unfold entry.
    assert (E : indexOf EQUALS (HYPHEN :: HYPHEN :: k) = None).
    { apply indexOf_None. rewrite indexOf_None in Hk.
      simpl. intros [H|[H|H]]; [discriminate|discriminate|auto]. }
    rewrite E. reflexivity.
  - intros s Hs E. unfold entry. rewrite Hs, E. reflexivity.
Qed.

Lemma entry_reads_witness :
  entry (lit "--concurrency=4") = (lit "concurrency", lit "4").
Proof.
  apply (proj1 entry_reads 45%N 45%N (lit "concurrency") (lit "4"));
    [discriminate|discriminate|reflexivity].
Defined.

Lemma eqb_refl (a : jsstring) : eqb a a = true.
Proof. unfold eqb. destruct (list_eq_dec N.eq_dec a a); congruence. Qed.

Lemma eqb_true (a b : jsstring) : eqb a b = true -> a = b.
Proof. unfold eqb. destruct (list_eq_dec N.eq_dec a b); congruence. Qed.

Lemma eqb_false (a b : jsstring) : eqb a b = false -> a <> b.
Proof. unfold eqb. destruct (list_eq_dec N.eq_dec a b); congruence. Qed.

Lemma Map_get_set (k k' v : jsstring) (m : Map) :
  Map_get k' (Map_set k v m) = if eqb k k' then Some v else Map_get k' m.
Proof.
  induction m as [|[k0 v0] m IH]; simpl.
  - reflexivity.
  - destruct (eqb k0 k) eqn:E0; simpl.
    + apply eqb_true in E0. subst k0. destruct (eqb k k'); reflexivity.
    + destruct (eqb k0 k') eqn:E1.
      * apply eqb_true in E1. subst k0.
        destruct (eqb k k') eqn:E2; [|reflexivity].
        apply eqb_true in E2. subst. rewrite eqb_refl in E0. discriminate.
      * exact IH.
Qed.

Lemma Map_get_new (k : jsstring) (es : list (jsstring * jsstring)) :
  Map_get k (Map_new es)
  = option_map snd (find (fun e => eqb (fst e) k) (rev es)).
Proof.
  induction es as [|e es IH] using rev_ind; [reflexivity|].
  unfold Map_new in *. rewrite fold_left_app, rev_app_distr. simpl.
  rewrite Map_get_set. destruct (eqb (fst e) k); [reflexivity|exact IH].
Qed.

(** X12: a flag given more than once has the value of its last
    occurrence: what the flag map gives for a key is the value of the
    last argument that is read with this key, and nothing when there
    is none. *)
Theorem flags_last_wins (argv : list jsstring) (k : jsstring) :
  Map_get k (flagsOf argv)
  = option_map snd (find (fun e => eqb (fst e) k) (rev (map entry argv)))
  /\ (forall s v, entry s = (k, v) ->
        Map_get k (flagsOf (argv ++ [s])) = Some v)
  /\ ((forall s, In s argv -> fst (entry s) <> k) ->
      Map_get k (flagsOf argv) = None /\ Map_has k (flagsOf argv) = false).
Proof.
  unfold flagsOf. split; [apply Map_get_new|]. split.
  - intros s v E. rewrite Map_get_new, map_app, rev_app_distr. simpl.
    rewrite E. simpl. rewrite eqb_refl. reflexivity.
  - intros H.
    assert (G : Map_get k (Map_new (map entry argv)) = None).
    { rewrite Map_get_new.
      destruct (find _ _) as [e|] eqn:F; [|reflexivity].
      apply find_some in F. destruct F as [F1 F2].
      apply in_rev, in_map_iff in F1. destruct F1 as [s [<- Hs]].
      apply eqb_true in F2. destruct (H s Hs F2). }
    unfold Map_has. rewrite G. split; reflexivity.
Qed.

Lemma flags_last_wins_witness :
  concurrency
    (flagsFrom 0 500 (map lit ["--concurrency=2"; "--dry-run"]%string
                      ++ [lit "--concurrency=8"]))
  = Some (lit "8").
Proof.
  apply (proj1 (proj2 (flags_last_wins
                         (map lit ["--concurrency=2"; "--dry-run"]%string)
                         (lit "concurrency")))
           (lit "--concurrency=8") (lit "8")).
  reflexivity.
Defined.

(** ** The address of the site *)

Lemma dropLeading_spec (c : N) (s : jsstring) :
  (exists n, s = repeat c n ++ dropLeading c s)
  /\ forall r, dropLeading c s <> c :: r.
Proof.
  induction s as [|x s [[n IH1] IH2]]; simpl.
  - split; [exists 0; reflexivity|discriminate].
  - destruct (x =? c)%N eqn:E.
    + apply N.eqb_eq in E. subst x. split; [|exact IH2].
      exists (S n). simpl. f_equal. exact IH1.
    + apply N.eqb_neq in E. split; [exists 0; reflexivity|].
      intros r H. congruence.
Qed.

Lemma repeat_rev (c : N) (n : nat) : rev (repeat c n) = repeat c n.
Proof.
  induction n as [|n IH]; [reflexivity|].
  simpl. rewrite IH. symmetry. apply repeat_cons.
Qed.

(** X13: [BASE_URL] is the address chosen, the flag before the
    variable of the environment before the address of the site, with an
    empty or missing text passed over, less the slashes at its end: it
    never ends in a slash, and only slashes have been taken off. *)
Theorem BASE_URL_no_trailing_slash (base env : option jsstring) :
  let chosen :=
    if truthyText base then base
    else if truthyText env then env
    else Some (lit "https://legendary-collectibles.com") in
  (exists n, chosen = Some (BASE_URL base env ++ repeat SLASH n))
  /\ forall s, BASE_URL base env <> s ++ [SLASH].
Proof.
  cbv zeta. unfold BASE_URL, stripSlashes.
  set (u := match orElse base env with
            | Some ((_ :: _) as u) => u
            | _ => lit "https://legendary-collectibles.com"
            end).
  assert (U : (if truthyText base then base
               else if truthyText env then env
               else Some (lit "https://legendary-collectibles.com"))
              = Some u).
  { unfold u, orElse. destruct base as [[|c r]|]; simpl; try reflexivity;
      destruct env as [[|c' r']|]; reflexivity. }
  rewrite U. destruct (dropLeading_spec SLASH (rev u)) as [[n E] F].
  split.
  - exists n. f_equal.
    rewrite <- (rev_involutive u), E at 1.
    rewrite rev_app_distr, repeat_rev. reflexivity.
  - intros s H. apply (F (rev s)).
    rewrite <- (rev_involutive (dropLeading SLASH (rev u))), H.
    rewrite rev_app_distr. reflexivity.
Qed.

(** ** The cursor file *)

Lemma trimStart_head (s : jsstring) (c : N) (r : jsstring) :
  trimStart s = c :: r -> isWhiteSpace c = false.
Proof.
  induction s as [|x s IH]; simpl; [discriminate|].
  destruct (isWhiteSpace x) eqn:W; [exact IH|].
  intros H. inversion H; subst. exact W.
Qed.

Lemma trimStart_suffix (s : jsstring) : exists p, s = p ++ trimStart s.
Proof.
  induction s as [|x s [p IH]]; simpl; [exists []; reflexivity|].
  destruct (isWhiteSpace x).
  - exists (x :: p). simpl. f_equal. exact IH.
  - exists []. reflexivity.
Qed.

(** What [trim] leaves is empty or has no white space at either end. *)
Lemma trim_plainId (s : jsstring) : trim s = [] \/ plainId (trim s) = true.
Proof.
  unfold trim, trimEnd.
  destruct (trimStart (rev (trimStart s))) as [|d v] eqn:V;
    [left; reflexivity|right].
  pose proof (trimStart_head _ _ _ V) as Wd.
  destruct (trimStart_suffix (rev (trimStart s))) as [p P].
  rewrite V in P.
  assert (Q : trimStart s = rev (d :: v) ++ rev p).
  { rewrite <- (rev_involutive (trimStart s)), P, rev_app_distr. reflexivity. }
  assert (R : rev (rev (d :: v)) = d :: v) by apply rev_involutive.
  revert Q R. generalize (rev (d :: v)). intros t Q R.
  unfold plainId. destruct t as [|c t]; [discriminate|].
  rewrite R, (trimStart_head _ _ _ Q), Wd. reflexivity.
Qed.

(** X14: the cursor written by [saveCursor] is read back by
    [loadCursor] as it was written exactly when it is not empty and has
    no white space at either end; and whatever the file holds, a cursor
    read from it is such a text. *)
Theorem cursor_round_trip (f : Flags) :
  START_AFTER f = None ->
  (forall c, loadCursor f (saveCursor c) = Some c <-> plainId c = true)
  /\ (forall file c, loadCursor f file = Some c -> plainId c = true).
Proof.
  intros SA.
  assert (G : forall file c, loadCursor f file = Some c -> plainId c = true).
  { intros file c. unfold loadCursor. rewrite SA.
    destruct file as [text|]; [|discriminate].
    destruct (trim_plainId text) as [E|E].
    - rewrite E. discriminate.
    - destruct (trim text) eqn:T; [discriminate|].
      intros H. inversion H; subst. exact E. }
  split; [|exact G].
  intros c. split; [apply G|].
  apply loadCursor_saved, SA.
Qed.

Lemma cursor_round_trip_witness :
  loadCursor (flagsWith 0 None None false) (saveCursor (lit "10"))
  = Some (lit "10").
Proof.
  apply (proj1 (cursor_round_trip (flagsWith 0 None None false) eq_refl)
           (lit "10")).
  reflexivity.
Defined.

(** ** What a fetch comes to *)

(** X15: the line of an id.  A price is reported exactly when the
    answer has a status from 200 to 299 and a body that parses, with
    [ok] and a price in it; nothing found exactly when it has such a
    status and body, with [ok] and no price; and an error in every
    other case: a failed fetch, or a body whose [ok] is not set.  The
    content type of the answer does not come into it. *)
Theorem outcome_lines (w : World) (id : jsstring) :
  (forall p u,
     lineOf (fetchOne w id) = found_price p u
     <-> exists res b,
           reply w id = Answer res /\ res_ok res = true
           /\ body res = Some b /\ ok b = true /\ price b = Some p
           /\ itemWebUrl b = u)
  /\ (lineOf (fetchOne w id) = not_found
      <-> exists res b,
            reply w id = Answer res /\ res_ok res = true
            /\ body res = Some b /\ ok b = true /\ price b = None)
  /\ (isErrorLine (lineOf (fetchOne w id)) = true
      <-> failed (reply w id) = true
          \/ exists res b,
               reply w id = Answer res /\ body res = Some b /\ ok b = false).
Proof.
  unfold fetchOne, failed.
  destruct (reply w id) as [|res].
  { simpl. split; [|split].
    - intros p u. split; [discriminate|]. intros [res [b [H _]]]. discriminate.
    - split; [discriminate|]. intros [res [b [H _]]]. discriminate.
    - split; auto. }
  destruct (res_ok res) eqn:RO; cbn [negb orb].
  2: { simpl. split; [|split].
       - intros p u. split; [discriminate|].
         intros [res' [b [H [H' _]]]]. inversion H; subst. congruence.
       - split; [discriminate|].
         intros [res' [b [H [H' _]]]]. inversion H; subst. congruence.
       - split; auto. }
  assert (L : lineOf
                (if negb (isJson res)
                 then match body res with
                      | Some parsed => Fulfilled parsed
                      | None =>
                          Fulfilled {| ok := false; price := None;
                                       itemWebUrl := false |}
                      end
                 else match body res with
                      | Some parsed => Fulfilled parsed
                      | None => Rejected SyntaxError
                      end)
              = match body res with
                | Some parsed => lineOf (Fulfilled parsed)
                | None => if isJson res then ERROR SyntaxError else route_error
                end).
  { destruct (isJson res), (body res); reflexivity. }
  rewrite L. clear L.
  destruct (body res) as [b|] eqn:B.
  - simpl. destruct (ok b) eqn:O; [destruct (price b) as [q|] eqn:P|].
    + split; [|split].
      * intros p u. split.
        -- intros H. inversion H; subst. exists res, b. auto 10.
        -- intros [res' [b' [H1 [_ [H2 [_ [H3 H4]]]]]]].
           inversion H1; subst res'. rewrite B in H2. inversion H2; subst b'.
           congruence.
      * split; [discriminate|].
        intros [res' [b' [H1 [_ [H2 [_ H3]]]]]].
        inversion H1; subst res'. rewrite B in H2. inversion H2; subst b'.
        congruence.
      * split; [discriminate|]. intros [H|[res' [b' [H1 [H2 H3]]]]];
          [discriminate|].
        inversion H1; subst res'. rewrite B in H2. inversion H2; subst b'.
        congruence.
    + split; [|split].
      * intros p u. split; [discriminate|].
        intros [res' [b' [H1 [_ [H2 [_ [H3 H4]]]]]]].
        inversion H1; subst res'. rewrite B in H2. inversion H2; subst b'.
        congruence.
      * split; [|reflexivity]. intros _. exists res, b. auto 10.
      * split; [discriminate|]. intros [H|[res' [b' [H1 [H2 H3]]]]];
          [discriminate|].
        inversion H1; subst res'. rewrite B in H2. inversion H2; subst b'.
        congruence.
    + split; [|split].
      * intros p u. split; [discriminate|].
        intros [res' [b' [H1 [_ [H2 [H3 _]]]]]].
        inversion H1; subst res'. rewrite B in H2. inversion H2; subst b'.
        congruence.
      * split; [discriminate|].
        intros [res' [b' [H1 [_ [H2 [H3 _]]]]]].
        inversion H1; subst res'. rewrite B in H2. inversion H2; subst b'.
        congruence.
      * split; [|reflexivity]. intros _. right. exists res, b. auto.
  - split; [|split].
    + intros p u. split; [destruct (isJson res); discriminate|].
      intros [res' [b' [H1 [_ [H2 _]]]]].
      inversion H1; subst res'. congruence.
    + split; [destruct (isJson res); discriminate|].
      intros [res' [b' [H1 [_ [H2 _]]]]].
      inversion H1; subst res'. congruence.
    + split; [auto|]. intros _. destruct (isJson res); reflexivity.
Qed.

Lemma outcome_lines_witness :
  lineOf (fetchOne sampleWorld (lit "10")) = found_price (lit "4.5") true.
Proof.
  apply (proj1 (outcome_lines sampleWorld (lit "10"))).
  eexists. eexists. repeat split.
Defined.

End HarvesterMore.

(* ================================================================== *)
(** * More about a run of the harvester *)
(* ================================================================== *)

Module RunFacts.
Import Harvester HarvesterFacts.

(** ** The order of the pool *)

Lemma dispatched_app (tr tr' : list Event) :
  dispatched (tr ++ tr') = dispatched tr ++ dispatched tr'.
Proof. apply flat_map_app. Qed.

Lemma settled_app (tr tr' : list Event) :
  settled (tr ++ tr') = settled tr ++ settled tr'.
Proof. apply flat_map_app. Qed.

Lemma dispatched_map (l : list jsstring) :
  dispatched (map Dispatched l) = l /\ settled (map Dispatched l) = [].
Proof.
  induction l as [|x l [IH1 IH2]]; simpl; [auto|].
  split; [f_equal; exact IH1|exact IH2].
Qed.

Lemma poolRun_ordered (w : World) (ids : list jsstring) (c : number)
  (p : Pool) :
  poolRun w ids c = Resolved p ->
  dispatched (events p) ++ todo p = ids
  /\ settled (events p) = map fst (results p)
  /\ (resolved p = true -> todo p = []).
Proof.
  rewrite poolRun_start.
  apply (drive_keeps w c
           (fun p => dispatched (events p) ++ todo p = ids
                     /\ settled (events p) = map fst (results p)
                     /\ (resolved p = true -> todo p = []))).
  - intros q [A [B C]]. unfold launch.
    pose proof (launchLoop_moves c (todo q) (flying q) (inFlight q) (events q))
      as M.
    destruct (launchLoop c (todo q) (inFlight q) (flying q) (events q))
      as [[[t n] fl] e].
    destruct M as [moved [M1 [M2 [M3 _]]]].
    assert (G : dispatched e ++ t = ids /\ settled e = map fst (results q)
                /\ (resolved q = true -> t = [])).
    { subst e. rewrite dispatched_app, settled_app.
      destruct (dispatched_map moved) as [-> ->].
      rewrite app_nil_r, <- app_assoc, <- M1.
      split; [exact A|]. split; [exact B|].
      intros R. specialize (C R). rewrite C in M1.
      symmetry in M1. apply app_eq_nil in M1. tauto. }
    destruct (todo q) eqn:T; [destruct (inFlight q) eqn:N|]; cbn [events todo results resolved].
    + split; [exact A|]. split; [exact B|]. auto.
    + exact G.
    + exact G.
  - intros q i id [A [B C]] _. unfold land. cbn [events todo results resolved].
    rewrite dispatched_app, settled_app, map_app. simpl.
    rewrite app_nil_r. split; [exact A|]. split; [|exact C].
    rewrite B. reflexivity.
  - unfold launch, start. cbn [todo inFlight flying events results resolved].
    pose proof (launchLoop_moves c ids [] 0 []) as M.
    destruct (launchLoop c ids 0 [] []) as [[[t n] fl] e].
    destruct M as [moved [M1 [M2 [M3 _]]]].
    destruct ids as [|x ids']; cbn [events todo results resolved].
    + auto.
    + subst e. simpl. destruct (dispatched_map moved) as [-> ->].
      split; [symmetry; exact M1|]. split; [reflexivity|discriminate].
Qed.

Lemma poolRun_resolved_order (w : World) (ids : list jsstring) (c : number)
  (p : Pool) :
  poolRun w ids c = Resolved p ->
  dispatched (events p) = ids
  /\ Permutation ids (settled (events p))
  /\ results p = map (fun id => (id, fetchOne w id)) (settled (events p)).
Proof.
  intros R.
  destruct (poolRun_ordered w ids c p R) as [A [B C]].
  destruct (poolRun_settles w ids c p R) as [P1 [P2 _]].
  assert (T : todo p = []).
  { apply C. rewrite poolRun_start in R. apply (drive_resolved w _ c _ _ R). }
  rewrite T, app_nil_r in A. rewrite B. auto.
Qed.

(** X16: with a concurrency above 0 the pool resolves, whatever the
    order in which the requests settle.  It has then sent the requests
    in the order of the batch, each id once; every id has settled once;
    and the results are listed in the order of settling, each with
    what [fetchOne] gave for its id.  With a concurrency that is not
    above 0 ([NaN]) and a batch that is not empty, the pool never
    resolves. *)
Theorem poolRun_order (w : World) (ids : list jsstring) (c : number) :
  (lt (of_nat 0) c = true ->
   exists p,
     poolRun w ids c = Resolved p
     /\ dispatched (events p) = ids
     /\ Permutation ids (settled (events p))
     /\ results p = map (fun id => (id, fetchOne w id)) (settled (events p)))
  /\ (lt (of_nat 0) c = false -> ids <> [] -> poolRun w ids c = Pending)
  /\ (forall p,
        poolRun w ids c = Resolved p ->
        dispatched (events p) = ids
        /\ Permutation ids (settled (events p))
        /\ results p
           = map (fun id => (id, fetchOne w id)) (settled (events p))).
Proof.
  split; [|split].
  - intros L. destruct (poolRun_resolves w c L ids) as [p R].
    exists p. split; [exact R|]. apply (poolRun_resolved_order w ids c p R).
  - apply poolRun_pending.
  - apply poolRun_resolved_order.
Qed.

Lemma poolRun_order_witness :
  exists p,
    poolRun sampleWorld twentyIds (of_nat 4) = Resolved p
    /\ dispatched (events p) = twentyIds
    /\ Permutation twentyIds (settled (events p))
    /\ firstn 3 (settled (events p)) = map lit ["2"; "3"; "4"]%string.
Proof.
  destruct (proj1 (poolRun_order sampleWorld twentyIds (of_nat 4)) eq_refl)
    as [p [R [D [P _]]]].
  exists p. split; [exact R|]. split; [exact D|]. split; [exact P|].
  assert (X : poolRun sampleWorld twentyIds (of_nat 4) = Resolved p)
    by exact R.
  vm_compute in X. inversion X. vm_compute. reflexivity.
Defined.

(** ** A turn of the loop *)

Section Turns.

Variable w : World.
Variable f : Flags.

(** What a turn of the loop does to the state, case by case. *)
Lemma turn_summary (s : State) :
  let s' := stateOf (iteration w f s) in
  let ids := batchOf w f s in
  (ids = [] /\ iteration w f s = Break (asked w f s))
  \/ (ids <> []
      /\ batches (trace s') = batches (trace s) ++ [ids]
      /\ covered (trace s') = covered (trace s) ++ ids
      /\ queries s' = S (queries s)
      /\ ((iteration w f s = Stuck s'
           /\ DRY_RUN f = false /\ lt (of_nat 0) (CONCURRENCY f) = false
           /\ processed s' = processed s /\ found s' = found s
           /\ errors s' = errors s /\ cursor s' = cursor s
           /\ file s' = file s)
          \/ ((iteration w f s = Continue s'
               \/ (iteration w f s = Break s'
                   /\ 0 < LIMIT f /\ LIMIT f <= processed s'))
              /\ (DRY_RUN f = true \/ lt (of_nat 0) (CONCURRENCY f) = true)
              /\ processed s' = processed s + length ids
              /\ found s'
                 = found s + (if DRY_RUN f then 0 else foundIn w ids)
              /\ errors s'
                 = errors s + (if DRY_RUN f then 0 else errorsIn w ids)
              /\ cursor s' = Some (last ids [])))).
Proof.
  cbv zeta. destruct (batchOf w f s) as [|i0 ids0] eqn:B.
  - left. split; [reflexivity|].
    pose proof (iteration_cases w f s) as C. cbv zeta in C.
    rewrite B in C. exact C.
  - right. split; [discriminate|].
    assert (N : batchOf w f s <> []) by (rewrite B; discriminate).
    pose proof (iteration_turn w f s) as T. cbv zeta in T.
    specialize (T N). rewrite B in T.
    destruct T as [[D [L I]]|[mid [s' T]]].
    + rewrite I. cbn [stateOf log asked trace queries processed found errors
                      cursor file].
      rewrite !batches_app, !covered_app. simpl. rewrite !app_nil_r.
      split; [reflexivity|]. split; [reflexivity|]. split; [reflexivity|].
      left. auto 10.
    + destruct T as [T0 [T1 [T2 [T3 [T4 [T5 [T6 [T7 [T8 [T9 [T10 [T11
                      [T12 T13]]]]]]]]]]]]].
      rewrite T0, T2, !batches_app, !covered_app, T3, T5. simpl.
      rewrite !app_nil_r.
      split; [reflexivity|]. split; [reflexivity|]. split; [exact T11|].
      right. split; [exact T1|].
      destruct (DRY_RUN f) eqn:D.
      * destruct (T12 eq_refl) as [_ [F E]].
        rewrite F, E, !Nat.add_0_r. auto 10.
      * destruct (T13 eq_refl) as [L [F [E _]]]. auto 10.
Qed.

Lemma batchOf_length (s : State) :
  length (batchOf w f s) <= BATCH f
  /\ (0 < LIMIT f -> length (batchOf w f s) <= LIMIT f - processed s).
Proof.
  unfold batchOf, getIdsPage. rewrite !length_firstn. split; [lia|].
  intros L. apply Nat.ltb_lt in L. rewrite L. lia.
Qed.

End Turns.

Section Runs.

Variable w : World.
Hypothesis good : goodWorld w.
Variable f : Flags.
Variable file0 : option jsstring.

(** X17: with [--limit] and [--batch] given as whole numbers, they
    bound a run.  In every turn the batch has no more ids than [BATCH]
    and, with a limit above 0, no more than the limit leaves, so that
    the count of ids processed stays within the limit and no batch is
    left once it is reached; and a run, whether it ends or hangs, has
    made no batch of more than [BATCH] ids and, with a limit above 0,
    has processed no more ids than the limit. *)
Theorem limit_and_batch_bound_the_run :
  (forall s,
     length (batchOf w f s) <= BATCH f
     /\ (0 < LIMIT f -> processed s <= LIMIT f ->
         processed (stateOf (iteration w f s)) <= LIMIT f)
     /\ (0 < LIMIT f -> LIMIT f <= processed s -> batchOf w f s = []))
  /\ exists s',
       (harvest w f file0 = Done s' \/ harvest w f file0 = Hung s')
       /\ Forall (fun b => length b <= BATCH f) (batches (trace s'))
       /\ (0 < LIMIT f -> processed s' <= LIMIT f).
Proof.
  assert (Turn : forall s,
            0 < LIMIT f -> processed s <= LIMIT f ->
            processed (stateOf (iteration w f s)) <= LIMIT f).
  { intros s L B.
    pose proof (turn_summary w f s) as T. cbv zeta in T.
    destruct (batchOf_length w f s) as [_ L2]. specialize (L2 L).
    destruct T as [[_ I]|[_ [_ [_ [_ T]]]]].
    - rewrite I. exact B.
    - destruct T as [[_ [_ [_ [P _]]]]|[_ [_ [P _]]]]; rewrite P; lia. }
  split.
  - intros s. destruct (batchOf_length w f s) as [L1 L2].
    split; [exact L1|]. split; [apply Turn|].
    intros L B. specialize (L2 L).
    destruct (batchOf w f s); [reflexivity|simpl in L2; lia].
  - apply (harvest_ends w good f file0
             (fun s => Forall (fun b => length b <= BATCH f)
                         (batches (trace s))
                       /\ (0 < LIMIT f -> processed s <= LIMIT f))).
    + intros s [A B]. split; [|intros L; apply Turn; auto].
      pose proof (turn_summary w f s) as T. cbv zeta in T.
      destruct (batchOf_length w f s) as [L1 _].
      destruct T as [[_ I]|[_ [T1 _]]].
      * rewrite I. cbn [stateOf asked trace].
        rewrite batches_app. simpl. rewrite app_nil_r. exact A.
      * rewrite T1. apply Forall_app. split; [exact A|].
        repeat constructor. exact L1.
    + simpl. split; [constructor|lia].
Qed.

End Runs.

Lemma limit_and_batch_bound_the_run_witness :
  exists s',
    (harvest sampleWorld (flagsWith 4 (Some (lit "3")) None false) None
     = Done s'
     \/ harvest sampleWorld (flagsWith 4 (Some (lit "3")) None false) None
        = Hung s')
    /\ processed s' <= 4
    /\ batches (trace s') = [map lit ["1"; "2"; "3"; "7"]%string].
Proof.
  destruct (limit_and_batch_bound_the_run sampleWorld sampleWorld_good
              (flagsWith 4 (Some (lit "3")) None false) None)
    as [_ [s' [H [_ L]]]].
  exists s'. split; [exact H|]. split; [apply L; vm_compute; lia|].
  assert (X : harvest sampleWorld (flagsWith 4 (Some (lit "3")) None false)
                None = Done s'
              \/ harvest sampleWorld (flagsWith 4 (Some (lit "3")) None false)
                   None = Hung s') by exact H.
  vm_compute in X. destruct X as [X|X]; inversion X. vm_compute. reflexivity.
Defined.

End RunFacts.

(* ================================================================== *)
(** * The order and the reach of a run *)
(* ================================================================== *)

Module OrderFacts.
Import Harvester HarvesterFacts RunFacts.

Section Order.

Variable w : World.
Hypothesis good : goodWorld w.
Hypothesis key : keyed w.

Lemma insert_perm (x : jsstring) (l : list jsstring) :
  Permutation (x :: l) (insert w x l).
Proof.
  induction l as [|y l IH]; simpl; [reflexivity|].
  destruct (id_lt w y x); [|reflexivity].
  rewrite perm_swap. apply perm_skip, IH.
Qed.

Lemma orderBy_perm (l : list jsstring) : Permutation l (orderBy w l).
Proof.
  induction l as [|x l IH]; simpl; [reflexivity|].
  rewrite <- insert_perm. apply perm_skip, IH.
Qed.

Lemma NoDup_firstn {A} (n : nat) (l : list A) : NoDup l -> NoDup (firstn n l).
Proof.
  intros H. rewrite <- (firstn_skipn n l) in H.
  apply NoDup_app_remove_r in H. exact H.
Qed.

Lemma page_NoDup (n : nat) (after : option jsstring) (limit : nat) :
  NoDup (getIdsPage w n after limit).
Proof.
  unfold getIdsPage. apply NoDup_firstn.
  apply (Permutation_NoDup (orderBy_perm _)).
  apply NoDup_filter, key.
Qed.

Lemma ascending_rising (l : list jsstring) :
  ascending w l -> NoDup l -> (forall x, In x l -> In x (cards w)) ->
  rising w l.
Proof.
  unfold ascending, rising. induction 1 as [|a l S IH F]; intros N C.
  - constructor.
  - inversion N as [|? ? Na Nl]; subst. constructor.
    + apply IH; [exact Nl|]. intros x Hx. apply C. right. exact Hx.
    + apply Forall_forall. intros b Hb. rewrite Forall_forall in F.
      destruct (proj2 key a b) as [H|H].
      * apply C. left. reflexivity.
      * apply C. right. exact Hb.
      * intros ->. exact (Na Hb).
      * exact H.
      * rewrite (F b Hb) in H. discriminate.
Qed.

Lemma rising_app (l1 l2 : list jsstring) :
  rising w l1 -> rising w l2 ->
  (forall a b, In a l1 -> In b l2 -> id_lt w a b = true) ->
  rising w (l1 ++ l2).
Proof.
  unfold rising. induction 1 as [|a l S IH F]; intros R2 H; simpl; [exact R2|].
  constructor.
  - apply IH; [exact R2|]. intros x y Hx Hy. apply H; [right|]; assumption.
  - apply Forall_app. split; [exact F|].
    apply Forall_forall. intros b Hb. apply H; [left; reflexivity|exact Hb].
Qed.

Lemma rising_split (l1 l2 : list jsstring) :
  rising w (l1 ++ l2) ->
  forall a b, In a l1 -> In b l2 -> id_lt w a b = true.
Proof.
  unfold rising. induction l1 as [|x l1 IH]; simpl; intros R a b Ha Hb;
    [destruct Ha|].
  inversion R as [|? ? R' F]; subst. destruct Ha as [<-|Ha].
  - rewrite Forall_forall in F. apply F, in_or_app. right. exact Hb.
  - apply IH; assumption.
Qed.

Lemma rising_NoDup (l : list jsstring) : rising w l -> NoDup l.
Proof.
  unfold rising. induction 1 as [|a l S IH F]; constructor; [|exact IH].
  intros H. rewrite Forall_forall in F.
  pose proof (F a H) as E. rewrite (id_lt_irrefl good) in E. discriminate.
Qed.

Lemma rising_last (l : list jsstring) (y : jsstring) :
  rising w l -> In y l -> y = last l [] \/ id_lt w y (last l []) = true.
Proof.
  unfold rising. induction 1 as [|a l S IH F]; [intros []|].
  intros Hy. destruct l as [|b l].
  - destruct Hy as [<-|[]]. left. reflexivity.
  - change (last (a :: b :: l) []) with (last (b :: l) []).
    destruct Hy as [<-|Hy]; [|apply IH, Hy].
    right. rewrite Forall_forall in F. apply F.
    apply last_In. discriminate.
Qed.

Lemma last_app (l1 l2 : list jsstring) :
  l2 <> [] -> last (l1 ++ l2) [] = last l2 [].
Proof.
  intros N. destruct (exists_last N) as [l [x ->]].
  rewrite app_assoc, !last_last. reflexivity.
Qed.

Lemma above_trans (from : option jsstring) (c x : jsstring) :
  above w from c = true -> id_lt w c x = true -> above w from x = true.
Proof.
  unfold above. destruct from as [[|a r]|]; auto.
  intros H1 H2. exact (id_lt_trans good _ _ _ H1 H2).
Qed.

Variable f : Flags.
(** The batch of a turn goes after the ids of the run so far. *)
Lemma batch_orderly (from : option jsstring) (s : State) :
  orderly w from s -> batchOf w f s <> [] ->
  rising w (covered (trace s) ++ batchOf w f s)
  /\ (forall y, In y (covered (trace s) ++ batchOf w f s) ->
        In y (cards w) /\ above w from y = true).
Proof.
  intros [R [C K]] N.
  assert (P : forall x, In x (batchOf w f s) ->
                In x (cards w) /\ above w (cursor s) x = true).
  { intros x Hx.
    pose proof (proj2 (getIdsPage_spec w good _ _ _) x
                  (batchOf_page w f s x Hx)). tauto. }
  assert (A : forall y x, In y (covered (trace s)) -> In x (batchOf w f s) ->
                id_lt w y x = true).
  { intros y x Hy Hx. destruct (covered (trace s)) as [|c0 cs] eqn:E;
      [destruct Hy|]. rewrite <- E in *.
    assert (Hc : In (last (covered (trace s)) []) (covered (trace s))).
    { apply last_In. rewrite E. discriminate. }
    destruct (P x Hx) as [_ Ab]. rewrite K in Ab.
    rewrite (above_Some w) in Ab
      by (apply plainId_nonempty, (cards_plainId w good), C, Hc).
    destruct (rising_last _ y R Hy) as [->|L]; [exact Ab|].
    exact (id_lt_trans good _ _ _ L Ab). }
  split.
  - apply rising_app; [exact R| |exact A].
    apply ascending_rising.
    + apply (batchOf_ascending w good).
    + unfold batchOf. apply NoDup_firstn, page_NoDup.
    + intros x Hx. apply P, Hx.
  - intros y Hy. apply in_app_or in Hy. destruct Hy as [Hy|Hy]; [auto|].
    destruct (P y Hy) as [P1 P2]. split; [exact P1|].
    destruct (covered (trace s)) as [|c0 cs] eqn:E.
    + rewrite K in P2. exact P2.
    + rewrite <- E in *.
      assert (Hc : In (last (covered (trace s)) []) (covered (trace s))).
      { apply last_In. rewrite E. discriminate. }
      apply (above_trans from (last (covered (trace s)) [])).
      * apply C, Hc.
      * apply A; assumption.
Qed.

Lemma turn_orderly (from : option jsstring) (s : State) :
  orderly w from s ->
  let s' := stateOf (iteration w f s) in
  rising w (covered (trace s'))
  /\ (forall y, In y (covered (trace s')) ->
        In y (cards w) /\ above w from y = true)
  /\ (forall s1, iteration w f s = Continue s1 -> orderly w from s1).
Proof.
  intros O. cbv zeta.
  pose proof (turn_summary w f s) as T. cbv zeta in T.
  destruct T as [[_ I]|[N [_ [T2 [_ T]]]]].
  - rewrite I. cbn [stateOf asked trace]. rewrite covered_app. simpl.
    rewrite app_nil_r. destruct O as [R [C K]].
    split; [exact R|]. split; [exact C|]. discriminate.
  - destruct (batch_orderly from s O N) as [R C]. rewrite T2.
    split; [exact R|]. split; [exact C|].
    intros s1 I. rewrite I in T, T2. cbn [stateOf] in T, T2.
    destruct T as [[X _]|[_ [_ [_ [_ [_ Cu]]]]]]; [discriminate|].
    unfold orderly. rewrite T2. split; [exact R|]. split; [exact C|].
    rewrite Cu, last_app by exact N.
    destruct (covered (trace s) ++ batchOf w f s) eqn:E; [|reflexivity].
    apply app_eq_nil in E. tauto.
Qed.

(** The rows of a page are all the rows the query keeps when the page
    is not full, and otherwise the rows left are above its last row. *)
Lemma page_reaches (n : nat) (after : option jsstring) (limit : nat)
  (x : jsstring) :
  In x (cards w) -> above w after x = true -> kept w n x = true ->
  In x (getIdsPage w n after limit)
  \/ (getIdsPage w n after limit <> []
      /\ id_lt w (last (getIdsPage w n after limit) []) x = true)
  \/ limit = 0.
Proof.
  intros C A K. unfold getIdsPage.
  set (F := filter (fun c => above w after c && kept w n c) (cards w)).
  assert (HF : In x F).
  { apply filter_In. split; [exact C|]. rewrite A, K. reflexivity. }
  assert (HS : In x (orderBy w F)) by (apply In_orderBy, HF).
  assert (R : rising w (orderBy w F)).
  { apply ascending_rising.
    - apply (orderBy_ascending w good).
    - apply (Permutation_NoDup (orderBy_perm _)), NoDup_filter, key.
    - intros y Hy. apply In_orderBy, filter_In in Hy. tauto. }
  destruct limit as [|limit]; [right; right; reflexivity|].
  rewrite <- (firstn_skipn (S limit) (orderBy w F)) in HS, R.
  apply in_app_or in HS. destruct HS as [HS|HS]; [left; exact HS|].
  right. left.
  assert (N : firstn (S limit) (orderBy w F) <> []).
  { destruct (orderBy w F); [destruct HS|discriminate]. }
  split; [exact N|].
  apply (rising_split _ _ R); [apply last_In, N|exact HS].
Qed.

Lemma batchOf_all (s : State) :
  LIMIT f = 0 ->
  batchOf w f s = getIdsPage w (queries s) (cursor s) (BATCH f).
Proof.
  intros L. unfold batchOf. rewrite L. simpl. apply firstn_all.
Qed.

Lemma turn_reached (from : option jsstring) (s s1 : State) :
  LIMIT f = 0 -> reached w from s -> iteration w f s = Continue s1 ->
  reached w from s1.
Proof.
  intros L Re I.
  pose proof (turn_summary w f s) as T. cbv zeta in T. rewrite I in T.
  cbn [stateOf] in T.
  destruct T as [[_ X]|[N [_ [T2 [T3 T]]]]]; [discriminate|].
  destruct T as [[X _]|[_ [_ [_ [_ [_ Cu]]]]]]; [discriminate|].
  intros x C A. unfold reached in Re.
  destruct (Re x C A) as [H|[[n [H1 H2]]|H]].
  - left. rewrite T2. apply in_or_app. left. exact H.
  - right. left. exists n. split; [lia|exact H2].
  - destruct (kept w (queries s) x) eqn:K.
    + destruct (page_reaches (queries s) (cursor s) (BATCH f) x C H K)
        as [P|[[_ P]|P]].
      * left. rewrite T2, (batchOf_all s L). apply in_or_app. right. exact P.
      * right. right. rewrite Cu, (batchOf_all s L).
        rewrite (above_Some w); [exact P|].
        destruct (last_batch w good f s N) as [_ [_ [_ Pl]]].
        rewrite (batchOf_all s L) in Pl. apply plainId_nonempty, Pl.
      * unfold BATCH in P. lia.
    + right. left. exists (queries s). split; [lia|exact K].
Qed.

Variable file0 : option jsstring.

Lemma initial_orderly : orderly w (loadCursor f file0) (initial f file0).
Proof.
  unfold orderly, initial. simpl. split; [constructor|].
  split; [intros y []|reflexivity].
Qed.

(** X18: in a run, the ids of the batches come in strictly ascending
    order over the whole run, so that no id is in a batch twice; each
    is a row of the table above the cursor the run started from. *)
Theorem run_is_rising :
  exists s',
    (harvest w f file0 = Done s' \/ harvest w f file0 = Hung s')
    /\ rising w (covered (trace s'))
    /\ NoDup (covered (trace s'))
    /\ forall y, In y (covered (trace s')) ->
         In y (cards w) /\ above w (loadCursor f file0) y = true.
Proof.
  destruct (loop_ends w good f (orderly w (loadCursor f file0)))
    with (steps := S (length (cards w))) (s := initial f file0)
    as [s0 [P0 E]].
  - intros s s' O I. apply (turn_orderly _ s O), I.
  - apply initial_orderly.
  - pose proof (remaining_le w (initial f file0)). lia.
  - destruct (turn_orderly _ s0 P0) as [R [C _]].
    destruct E as [[s' [I E]]|[s' [I E]]]; rewrite I in R, C;
      cbn [stateOf] in R, C; exists s';
      (split; [unfold harvest; fold (initial f file0); auto|]);
      (split; [exact R|]); (split; [apply rising_NoDup, R|exact C]).
Qed.

(** X19: a run without a limit that does not stop for want of
    concurrency ends, and it has had in a batch every row of the table
    above the cursor it started from, but for those the freshness
    clause left out of one of its queries; when the clause leaves
    nothing out, the ids of its batches are these rows exactly. *)
Theorem run_without_limit_reaches_every_row :
  LIMIT f = 0 ->
  DRY_RUN f = true \/ lt (of_nat 0) (CONCURRENCY f) = true ->
  exists s',
    harvest w f file0 = Done s'
    /\ (forall x, In x (cards w) -> above w (loadCursor f file0) x = true ->
          In x (covered (trace s'))
          \/ exists n, n < queries s' /\ kept w n x = false)
    /\ ((forall n x, kept w n x = true) ->
        forall x, In x (covered (trace s'))
                  <-> In x (cards w) /\ above w (loadCursor f file0) x = true).
Proof.
  intros L D.
  set (from := loadCursor f file0).
  destruct (loop_ends w good f
              (fun s => orderly w from s /\ reached w from s))
    with (steps := S (length (cards w))) (s := initial f file0)
    as [s0 [[O0 R0] E]].
  - intros s s' [O R] I. split.
    + apply (turn_orderly _ s O), I.
    + apply (turn_reached _ s s' L R I).
  - split; [apply initial_orderly|].
    intros x C A. right. right. exact A.
  - pose proof (remaining_le w (initial f file0)). lia.
  - pose proof (turn_summary w f s0) as T. cbv zeta in T.
    destruct (turn_orderly _ s0 O0) as [_ [C _]].
    destruct E as [[s' [I E]]|[s' [I E]]]; rewrite I in T, C;
      cbn [stateOf] in T, C.
    + exists s'. split; [exact E|].
      assert (B : batchOf w f s0 = [] /\ s' = asked w f s0).
      { destruct T as [[B X]|[_ [_ [_ [_ T]]]]].
        - split; [exact B|]. congruence.
        - destruct T as [[X _]|[[X|[_ [X _]]] _]]; [discriminate|discriminate|lia]. }
      destruct B as [B ->].
      assert (G : forall x, In x (cards w) -> above w from x = true ->
                    In x (covered (trace (asked w f s0)))
                    \/ exists n, n < queries (asked w f s0)
                                 /\ kept w n x = false).
      { intros x Cx A. cbn [asked trace queries]. rewrite covered_app. simpl.
        rewrite app_nil_r.
        destruct (R0 x Cx A) as [H|[[n [H1 H2]]|H]].
        - left. exact H.
        - right. exists n. split; [lia|exact H2].
        - right. exists (queries s0). split; [lia|].
          destruct (kept w (queries s0) x) eqn:K; [|reflexivity].
          destruct (page_reaches (queries s0) (cursor s0) (BATCH f) x Cx H K)
            as [P|[[P _]|P]].
          + rewrite <- (batchOf_all s0 L), B in P. destruct P.
          + rewrite <- (batchOf_all s0 L) in P. congruence.
          + unfold BATCH in P. lia. }
      split; [exact G|].
      intros K x. split; [apply C|].
      intros [Cx A]. destruct (G x Cx A) as [H|[n [_ H]]]; [exact H|].
      rewrite K in H. discriminate.
    + exfalso. destruct T as [[_ X]|[_ [_ [_ [_ T]]]]]; [discriminate|].
      destruct T as [[_ [D1 [D2 _]]]|[[X|[X _]] _]];
        [|discriminate|discriminate].
      destruct D as [D|D]; congruence.
Qed.

End Order.

Lemma sampleWorld_keyed : keyed sampleWorld.
Proof.
  split.
  - unfold sampleWorld. cbn [cards].
    repeat (constructor;
            [simpl; intros H;
             repeat (destruct H as [H|H]; [discriminate H|]); exact H|]).
    constructor.
  - intros a b Ha Hb N. simpl in Ha, Hb.
    repeat (destruct Ha as [<-|Ha]);
      try (destruct Ha);
      repeat (destruct Hb as [<-|Hb]);
      try (destruct Hb);
      try (exfalso; apply N; reflexivity);
      vm_compute; auto.
Qed.

Lemma run_is_rising_witness :
  exists s',
    (harvest sampleWorld (flagsWith 0 (Some (lit "3")) None false) None
     = Done s'
     \/ harvest sampleWorld (flagsWith 0 (Some (lit "3")) None false) None
        = Hung s')
    /\ NoDup (covered (trace s')).
Proof.
  destruct (run_is_rising sampleWorld sampleWorld_good sampleWorld_keyed
              (flagsWith 0 (Some (lit "3")) None false) None)
    as [s' [H [_ [N _]]]].
  exists s'. auto.
Defined.

Lemma run_without_limit_reaches_every_row_witness :
  exists s',
    harvest sampleWorld (flagsWith 0 (Some (lit "3")) None false) None
    = Done s'
    /\ In (lit "25") (covered (trace s')).
Proof.
  destruct (run_without_limit_reaches_every_row sampleWorld sampleWorld_good
              sampleWorld_keyed (flagsWith 0 (Some (lit "3")) None false)
              None eq_refl (or_intror eq_refl))
    as [s' [H [_ K]]].
  exists s'. split; [exact H|].
  apply K; [reflexivity|]. split; [|reflexivity].
  simpl. do 10 right. left. reflexivity.
Defined.

End OrderFacts.

(* ================================================================== *)
(** * Runs that hang, and the counters of a run *)
(* ================================================================== *)

Module CounterFacts.
Import Harvester HarvesterFacts RunFacts.

(** X20: when the text of [--concurrency] is not a number, a run that
    is not a dry run and has a first batch hangs in it: it asks for the
    page, sends no request, counts nothing, and leaves the cursor file
    as it was. *)
Theorem run_hangs_without_concurrency (w : World) (f : Flags)
  (file0 : option jsstring) :
  DRY_RUN f = false ->
  Number (match concurrency f with Some v => v | None => lit "4" end) = NaN ->
  batchOf w f (initial f file0) <> [] ->
  exists s',
    harvest w f file0 = Hung s'
    /\ trace s'
       = [Queried (loadCursor f file0)
            (getIdsPage w 0 (loadCursor f file0) (BATCH f));
          Batch (batchOf w f (initial f file0))]
    /\ dispatched (trace s') = [] /\ saves (trace s') = []
    /\ processed s' = 0 /\ found s' = 0 /\ errors s' = 0
    /\ file s' = file0 /\ cursor s' = loadCursor f file0.
Proof.
  intros D C N.
  assert (L : lt (of_nat 0) (CONCURRENCY f) = false).
  { unfold CONCURRENCY. rewrite C. reflexivity. }
  pose proof (iteration_turn w f (initial f file0)) as T. cbv zeta in T.
  specialize (T N).
  destruct T as [[_ [_ I]]|[mid [s' T]]].
  - exists (log [Batch (batchOf w f (initial f file0))]
              (asked w f (initial f file0))).
    split.
    + unfold harvest. fold (initial f file0). cbn [loop]. rewrite I.
      reflexivity.
    + repeat split.
  - destruct T as (_ & _ & _ & _ & _ & _ & _ & _ & _ & _ & _ & _ & _ & T).
    destruct (T D) as [X _]. congruence.
Qed.

Lemma run_hangs_without_concurrency_witness :
  exists s',
    harvest sampleWorld (flagsWith 0 (Some (lit "abc")) None false) None
    = Hung s'
    /\ processed s' = 0 /\ file s' = None.
Proof.
  destruct (run_hangs_without_concurrency sampleWorld
              (flagsWith 0 (Some (lit "abc")) None false) None)
    as [s' [H [_ [_ [_ [P [_ [_ [F _]]]]]]]]].
  - reflexivity.
  - reflexivity.
  - vm_compute. discriminate.
  - exists s'. auto.
Defined.

Lemma line_classes (w : World) (ids : list jsstring) :
  length ids = foundIn w ids + errorsIn w ids + notFoundIn w ids.
Proof.
  unfold foundIn, errorsIn, notFoundIn.
  induction ids as [|id ids IH]; [reflexivity|].
  simpl. destruct (lineOf (fetchOne w id)); simpl; lia.
Qed.

(** X21: in a run that fetches, every id of a batch is counted once:
    the run ends, and the ids processed are those with a price, those
    counted as errors and those for which nothing was found. *)
Theorem every_id_is_counted_once (w : World) (f : Flags)
  (file0 : option jsstring) :
  goodWorld w -> DRY_RUN f = false ->
  lt (of_nat 0) (CONCURRENCY f) = true ->
  exists s',
    harvest w f file0 = Done s'
    /\ processed s' = length (covered (trace s'))
    /\ processed s'
       = found s' + errors s' + notFoundIn w (covered (trace s'))
    /\ found s' + errors s' <= processed s'.
Proof.
  intros good D L.
  destruct (loop_ends w good f (inStep w))
    with (steps := S (length (cards w))) (s := initial f file0)
    as [s0 [P0 E]].
  - intros s s' Ps I. pose proof (turn_inStep w f s D Ps) as T.
    rewrite I in T. exact T.
  - split; [reflexivity|]. split; [reflexivity|]. split; [reflexivity|].
    intros id [].
  - pose proof (remaining_le w (initial f file0)). lia.
  - pose proof (turn_inStep w f s0 D P0) as T.
    destruct E as [[s' [I E]]|[s' [I E]]]; rewrite I in T; [|congruence].
    exists s'. split; [exact E|].
    destruct T as [T1 [T2 [T3 _]]].
    pose proof (line_classes w (covered (trace s'))) as C.
    split; [exact T1|]. split; lia.
Qed.

Lemma every_id_is_counted_once_witness :
  exists s',
    harvest sampleWorld (flagsWith 0 (Some (lit "3")) None false) None
    = Done s'
    /\ processed s'
       = found s' + errors s' + notFoundIn sampleWorld (covered (trace s')).
Proof.
  destruct (every_id_is_counted_once sampleWorld
              (flagsWith 0 (Some (lit "3")) None false) None
              sampleWorld_good eq_refl eq_refl) as [s' [H [_ [P _]]]].
  exists s'. auto.
Defined.

End CounterFacts.

(* ================================================================== *)
(** * A dry run and the run it stands for *)
(* ================================================================== *)

Module DryFacts.
Import Harvester HarvesterFacts RunFacts.

Section Pair.

Variable w : World.
Hypothesis good : goodWorld w.
Variable f : Flags.
Hypothesis positive : lt (of_nat 0) (CONCURRENCY f) = true.

Lemma batchOf_same (a b : State) :
  sameProgress a b ->
  batchOf w (withDryRun true f) a = batchOf w (withDryRun false f) b
  /\ getIdsPage w (queries a) (cursor a) (BATCH (withDryRun true f))
     = getIdsPage w (queries b) (cursor b) (BATCH (withDryRun false f)).
Proof.
  intros [P [C [_ [Q _]]]]. unfold batchOf.
  change (BATCH (withDryRun true f)) with (BATCH f).
  change (BATCH (withDryRun false f)) with (BATCH f).
  change (LIMIT (withDryRun true f)) with (LIMIT f).
  change (LIMIT (withDryRun false f)) with (LIMIT f).
  rewrite P, C, Q. auto.
Qed.

Lemma advance_same (ids : list jsstring) (a b : State) :
  sameProgress a b ->
  match advance (withDryRun true f) ids a,
        advance (withDryRun false f) ids b with
  | Break a', Break b' | Continue a', Continue b' => sameProgress a' b'
  | _, _ => False
  end.
Proof.
  intros [P [C [F [Q [Qd [B S]]]]]]. unfold advance.
  change (LIMIT (withDryRun true f)) with (LIMIT f).
  change (LIMIT (withDryRun false f)) with (LIMIT f).
  cbn [processed]. rewrite P.
  destruct ((0 <? LIMIT f) && (LIMIT f <=? processed b + length ids));
    unfold sameProgress; cbn [processed cursor file queries trace];
    rewrite !queried_app, !batches_app, !saves_app, ?P, ?C, ?F, ?Q, ?Qd, ?B, ?S;
    repeat split.
Qed.

Lemma turn_same (a b : State) :
  sameProgress a b ->
  match iteration w (withDryRun true f) a,
        iteration w (withDryRun false f) b with
  | Break a', Break b' | Continue a', Continue b' => sameProgress a' b'
  | _, _ => False
  end.
Proof.
  intros A. destruct (batchOf_same a b A) as [E G].
  pose proof (iteration_cases w (withDryRun true f) a) as Ia.
  pose proof (iteration_cases w (withDryRun false f) b) as Ib.
  cbv zeta in Ia, Ib. rewrite Ia, Ib, <- E. clear Ia Ib.
  assert (K : sameProgress (asked w (withDryRun true f) a)
                (asked w (withDryRun false f) b)).
  { destruct A as [P [C [F [Q [Qd [B S]]]]]].
    unfold sameProgress, asked. cbn [processed cursor file queries trace].
    rewrite !queried_app, !batches_app, !saves_app, ?G, ?P, ?C, ?F, ?Q, ?Qd,
      ?B, ?S.
    repeat split. }
  destruct (batchOf w (withDryRun true f) a) as [|i ids] eqn:N; [exact K|].
  change (DRY_RUN (withDryRun true f)) with true.
  change (DRY_RUN (withDryRun false f)) with false.
  change (CONCURRENCY (withDryRun false f)) with (CONCURRENCY f).
  cbv iota.
  destruct (poolRun_resolves w (CONCURRENCY f) positive (i :: ids))
    as [p R].
  rewrite R.
  apply advance_same.
  destruct (poolRun_settles w (i :: ids) (CONCURRENCY f) p R)
    as [_ [_ [_ [Ev _]]]].
  destruct (pool_events_quiet (events p) Ev) as [_ [E2 [E3 E4]]].
  destruct (log_lines_quiet (results p)) as [_ [L2 [L3 [L4 _]]]].
  destruct (tally_all (results p)
              (log (events p) (log [Batch (i :: ids)]
                                 (asked w (withDryRun false f) b))))
    as [T1 [_ [_ [T4 [T5 [T6 T7]]]]]].
  destruct K as [P [C [F [Q [Qd [B S]]]]]].
  unfold sameProgress. rewrite T1, T4, T5, T6, T7.
  cbn [log processed cursor file queries trace].
  rewrite !queried_app, !batches_app, !saves_app, L2, L3, L4, E2, E3, E4.
  rewrite !app_nil_r, P, C, F, Q, Qd, B, S. repeat split.
Qed.

Lemma loop_same (steps : nat) (a b : State) :
  sameProgress a b ->
  match loop w steps (withDryRun true f) a,
        loop w steps (withDryRun false f) b with
  | Done a', Done b' => sameProgress a' b'
  | OutOfSteps, OutOfSteps => True
  | _, _ => False
  end.
Proof.
  revert a b. induction steps as [|steps IH]; intros a b A; simpl; [exact I|].
  pose proof (turn_same a b A) as T.
  destruct (iteration w (withDryRun true f) a),
           (iteration w (withDryRun false f) b); try contradiction.
  - exact T.
  - apply IH, T.
Qed.

Variable file0 : option jsstring.

(** X22: a dry run foretells the run it stands for.  With the same
    other flags and the same answers of the database, the dry run and
    the run that fetches both end, having asked for the same pages,
    made the same batches and written the same cursors, with the same
    count of ids processed and the same cursor file at the end. *)
Theorem dry_run_foretells :
  exists a b,
    harvest w (withDryRun true f) file0 = Done a
    /\ harvest w (withDryRun false f) file0 = Done b
    /\ sameProgress a b.
Proof.
  pose proof (loop_same (S (length (cards w)))
                (initial (withDryRun true f) file0)
                (initial (withDryRun false f) file0)) as L.
  destruct (harvest_ends w good (withDryRun true f) file0 (fun _ => True))
    as [a [H _]]; [auto|exact I|].
  unfold harvest in *.
  fold (initial (withDryRun true f) file0) in *.
  fold (initial (withDryRun false f) file0).
  assert (S0 : sameProgress (initial (withDryRun true f) file0)
                 (initial (withDryRun false f) file0)).
  { unfold sameProgress, initial. repeat split. }
  specialize (L S0).
  destruct H as [H|H]; rewrite H in L.
  - destruct (loop w (S (length (cards w))) (withDryRun false f)
                (initial (withDryRun false f) file0)) as [b| |];
      try contradiction.
    exists a, b. auto.
  - destruct (loop w (S (length (cards w))) (withDryRun false f)
                (initial (withDryRun false f) file0)); contradiction.
Qed.

End Pair.

Lemma dry_run_foretells_witness :
  exists a b,
    harvest sampleWorld
      (withDryRun true (flagsWith 0 (Some (lit "3")) None false)) None
    = Done a
    /\ harvest sampleWorld
         (withDryRun false (flagsWith 0 (Some (lit "3")) None false)) None
       = Done b
    /\ file a = file b.
Proof.
  destruct (dry_run_foretells sampleWorld sampleWorld_good
              (flagsWith 0 (Some (lit "3")) None false) eq_refl None)
    as [a [b [H1 [H2 [_ [_ [F _]]]]]]].
  exists a, b. auto.
Defined.

End DryFacts.

(* ================================================================== *)
(** * More about the snapshot and the days of the history *)
(* ================================================================== *)

Module SnapshotMore.
Import Snapshot SnapshotFacts.

Section Run.

Variable refuses : HistoryTable -> HistoryRow -> bool.
Variable parseTs : option jsstring -> option jsstring.

Lemma numeric_finite (v : option jsstring) :
  finiteValue (numeric (Snapshot.parseMoneyToNumber v)) = true.
Proof.
  unfold Snapshot.parseMoneyToNumber. destruct v as [raw|]; [|reflexivity].
  destruct (trim raw); [reflexivity|]. cbv zeta.
  match goal with
  | |- context [isFinite ?n] => destruct (isFinite n) eqn:F
  end; [exact F|reflexivity].
Qed.

Lemma text_finite (v : option jsstring) : finiteValue (text v) = true.
Proof. destruct v; reflexivity. Qed.

Lemma params_finite :
  (forall r, forallb finiteValue (tcgplayerParams parseTs r) = true)
  /\ (forall r, forallb finiteValue (cardmarketParams parseTs r) = true)
  /\ (forall r, forallb finiteValue (ygoParams r) = true).
Proof.
  repeat split; intros r;
    unfold tcgplayerParams, cardmarketParams, ygoParams; cbn [forallb];
    rewrite ?numeric_finite, ?text_finite; reflexivity.
Qed.

(** The rows a run adds to a history table when no row is refused. *)
Lemma snapshotOf_history (db : Tables) (h : HistoryTable) :
  history (snapshotOf parseTs db) h
  = history db h
    ++ match h with
       | tcg_card_prices_tcgplayer_history =>
           map (tcgplayerParams parseTs) (tcg_card_prices_tcgplayer db)
       | tcg_card_prices_cardmarket_history =>
           map (cardmarketParams parseTs) (tcg_card_prices_cardmarket db)
       | ygo_card_prices_history => map ygoParams (ygo_card_prices db)
       end.
Proof.
  unfold snapshotOf. rewrite !appendAll_history.
  destruct h; rewrite ?app_nil_r; reflexivity.
Qed.

Lemma snapshotOf_current (db : Tables) :
  tcg_card_prices_tcgplayer (snapshotOf parseTs db)
  = tcg_card_prices_tcgplayer db
  /\ tcg_card_prices_cardmarket (snapshotOf parseTs db)
     = tcg_card_prices_cardmarket db
  /\ ygo_card_prices (snapshotOf parseTs db) = ygo_card_prices db.
Proof.
  unfold snapshotOf.
  repeat split;
    repeat first [ rewrite (proj1 (appendAll_current _ _ _))
                 | rewrite (proj1 (proj2 (appendAll_current _ _ _)))
                 | rewrite (proj2 (proj2 (appendAll_current _ _ _))) ];
    reflexivity.
Qed.

(** X23: a run of the snapshot only ever adds to the history tables.
    Whatever the address of the database and whatever the database
    refuses, the tables of current prices are left as they were, the
    rows a history table had are still its first rows, and every number
    in a row added is a finite number.  The exit code is 0 only when an
    address was given and no row was refused, and the counts of the
    three tables are then reported; with any other exit code, the code
    is 1, nothing is reported and the database is as it was. *)
Theorem snapshot_appends_only (url : option jsstring) (db : Tables) :
  let out := main refuses parseTs url db in
  (exitCode out = 0 ->
   truthyText url = true /\ someRefused refuses parseTs db = false
   /\ inserted out = Some (length (tcg_card_prices_tcgplayer db),
                           length (tcg_card_prices_cardmarket db),
                           length (ygo_card_prices db)))
  /\ (exitCode out <> 0 ->
      exitCode out = 1 /\ database out = db /\ inserted out = None)
  /\ tcg_card_prices_tcgplayer (database out) = tcg_card_prices_tcgplayer db
  /\ tcg_card_prices_cardmarket (database out) = tcg_card_prices_cardmarket db
  /\ ygo_card_prices (database out) = ygo_card_prices db
  /\ forall h, exists added,
       history (database out) h = history db h ++ added
       /\ Forall (fun row => forallb finiteValue row = true) added.
Proof.
  cbv zeta.
  assert (Same : forall o, database o = db -> exitCode o = 1 ->
                   inserted o = None ->
                   (exitCode o <> 0 ->
                    exitCode o = 1 /\ database o = db /\ inserted o = None)
                   /\ tcg_card_prices_tcgplayer (database o)
                      = tcg_card_prices_tcgplayer db
                   /\ tcg_card_prices_cardmarket (database o)
                      = tcg_card_prices_cardmarket db
                   /\ ygo_card_prices (database o) = ygo_card_prices db
                   /\ forall h, exists added,
                        history (database o) h = history db h ++ added
                        /\ Forall (fun row => forallb finiteValue row = true)
                             added).
  { intros o -> E I. repeat split; auto.
    intros h. exists []. rewrite app_nil_r. auto. }
  destruct url as [[|c r]|].
  1, 3: split; [simpl; discriminate|]; apply Same; reflexivity.
  unfold main. pose proof (snapshotAll_run refuses parseTs db) as H.
  cbv zeta in H. cbn [truthyText].
  destruct (someRefused refuses parseTs db).
  - destruct H as [t' ->]. cbn [ROLLBACK snd stored].
    split; [simpl; discriminate|].
    apply Same; reflexivity.
  - rewrite H. cbn [database exitCode inserted stored].
    split; [auto|]. split; [congruence|].
    destruct (snapshotOf_current db) as [C1 [C2 C3]].
    split; [exact C1|]. split; [exact C2|]. split; [exact C3|].
    intros h. rewrite snapshotOf_history. eexists. split; [reflexivity|].
    destruct params_finite as [P1 [P2 P3]].
    destruct h; apply Forall_forall; intros row Hr;
      apply in_map_iff in Hr; destruct Hr as [x [<- _]]; auto.
Qed.

End Run.

Lemma snapshot_appends_only_witness :
  exitCode (main refusesDup (fun x => x) (Some (lit "postgres://db")) sampleDb)
  = 1
  /\ database (main refusesDup (fun x => x) (Some (lit "postgres://db"))
                sampleDb) = sampleDb
  /\ inserted (main (fun _ _ => false) (fun x => x)
                 (Some (lit "postgres://db")) sampleDb) = Some (1, 0, 2).
Proof.
  destruct (snapshot_appends_only refusesDup (fun x => x)
              (Some (lit "postgres://db")) sampleDb) as [_ [H _]].
  destruct H as [H1 [H2 _]]; [vm_compute; discriminate|].
  split; [exact H1|]. split; [exact H2|].
  destruct (snapshot_appends_only (fun _ _ => false) (fun x => x)
              (Some (lit "postgres://db")) sampleDb) as [G _].
  destruct G as [_ [_ G]]; [vm_compute; reflexivity|exact G].
Defined.

End SnapshotMore.

Module DaysFacts.

(** X24: a whole number of days from 1 to 365 is kept as it is by
    [clampDays]. *)
Theorem clampDays_whole (k : Z) :
  (1 <= k <= 365)%Z -> clampDays (of_Z k) = of_Z k.
Proof.
  intros H.
  assert (G : forall n : nat, n < 365 ->
                clampDays (of_Z (Z.of_nat (S n))) = of_Z (Z.of_nat (S n))).
  { intros n Hn.
    do 365 (destruct n as [|n]; [vm_compute; reflexivity|]). lia. }
  replace k with (Z.of_nat (S (Z.to_nat (k - 1)))) by lia.
  apply G. lia.
Qed.

Lemma clampDays_whole_witness : clampDays (of_Z 30) = of_Z 30.
Proof. apply (clampDays_whole 30). lia. Defined.

End DaysFacts.

(* ================================================================== *)
(** * The loaders of the price blocks *)
(* ================================================================== *)

Module LoaderFacts.

Section Loaders.

Variable formatMoney : number -> Currency -> jsstring.
Variable Date_parse : jsstring -> number.
Variable toUpperCase : jsstring -> jsstring.
Variable env : Env.

(** X25: [loadPokemonPrices] shows a block for each of the two tables
    that has a row for the card, TCGplayer first, whether or not a
    price of the row parses; a row of a block has a value exactly when
    its price text parses, whatever the currency of the row, the
    display currency and the rates; and [hasAnyPrice] tells whether
    some price text of the rows found parses. *)
Theorem loadPokemonPrices_blocks (tp : option PkmnTcgplayerRow)
  (cm : option PkmnCardmarketRow) (d : DisplayCurrency) :
  let out := loadPokemonPrices formatMoney Date_parse toUpperCase env tp cm d in
  map Pricing.market (blocks out)
  = match tp with Some _ => [TCGplayer] | None => [] end
    ++ match cm with Some _ => [Cardmarket] | None => [] end
  /\ Forall
       (fun b =>
          map (fun r => match value r with Some _ => true | None => false end)
            (Pricing.rows b)
          = map parses
              match Pricing.market b with
              | TCGplayer => tcgplayerTexts tp
              | _ => cardmarketTexts cm
              end)
       (blocks out)
  /\ hasAnyPrice out
     = existsb parses (tcgplayerTexts tp ++ cardmarketTexts cm)
  /\ Pricing.display out = d.
Proof.
  cbv zeta. unfold loadPokemonPrices.
  destruct tp as [r|], cm as [c|];
    cbn [blocks hasAnyPrice Pricing.display app map Pricing.market existsb
         someValue Pricing.rows value field tcgplayerTexts cardmarketTexts];
    rewrite ?PricingMore.maybeFormat_shown, ?orb_false_r;
    (split; [reflexivity|]);
    (split; [repeat constructor;
             cbn [map Pricing.rows value Pricing.market];
             rewrite ?PricingMore.maybeFormat_shown; reflexivity|]);
    (split; [|reflexivity]);
    rewrite <- ?orb_assoc; reflexivity.
Qed.

(** X26: [loadCardPrices] answers [null] for Magic, Funko and sports
    cards and for nothing else; for the two other categories the
    summary has the display asked for, the native one when none is, at
    most two blocks for a Pokémon card and five for a Yu-Gi-Oh! card,
    and [hasAnyPrice] set only when it has a block. *)
Theorem loadCardPrices_supported (category : PriceCategory)
  (display : option DisplayCurrency) (tp : option PkmnTcgplayerRow)
  (cm : option PkmnCardmarketRow) (ygo : option YgoPriceRow) :
  let out :=
    loadCardPrices formatMoney Date_parse toUpperCase env category display
      tp cm ygo in
  (out = None <-> category <> pokemon /\ category <> yugioh)
  /\ forall s, out = Some s ->
       Pricing.display s = match display with Some d => d | None => NATIVE end
       /\ length (blocks s) <= match category with yugioh => 5 | _ => 2 end
       /\ (hasAnyPrice s = true -> blocks s <> []).
Proof.
  cbv zeta. unfold loadCardPrices. split.
  - destruct category; split; try discriminate; try (intros [A B]; congruence);
      try reflexivity; intros _; split; discriminate.
  - intros s E. destruct category; try discriminate; inversion E; subst s.
    + unfold loadPokemonPrices.
      cbn [Pricing.display blocks hasAnyPrice].
      split; [reflexivity|]. split.
      * destruct tp, cm; simpl; lia.
      * intros H. destruct tp, cm; simpl in *; try discriminate H;
          discriminate.
    + unfold loadYgoPrices. destruct ygo as [p|];
        cbn [Pricing.display blocks hasAnyPrice];
        [|split; [reflexivity|]; split; [simpl; lia|discriminate]].
      split; [reflexivity|]. split.
      * match goal with
        | |- length (filter ?g ?l) <= 5 =>
            pose proof (filter_length_le g l) as L
        end.
        exact L.
      * match goal with
        | |- context [filter ?g ?l] => destruct (filter g l)
        end; simpl; intros H; [discriminate H|discriminate].
Qed.

End Loaders.

Lemma loadCardPrices_supported_witness :
  Pricing.display
    (loadPokemonPrices (fun _ _ => []) (fun _ => NaN) (fun s => s)
       {| FX_USD_EUR := None; FX_EUR_USD := None |} None None NATIVE)
  = NATIVE.
Proof.
  destruct (loadCardPrices_supported (fun _ _ => []) (fun _ => NaN)
              (fun s => s) {| FX_USD_EUR := None; FX_EUR_USD := None |}
              pokemon None None None None) as [_ H].
  exact (proj1 (H _ eq_refl)).
Defined.

End LoaderFacts.
